(** * eth-validator-watcher: the slot loop and its probes

    A shallow embedding of [eth_validator_watcher]: the relay verifier
    ([relays.py]), the missed-attestation probes ([missed_attestations.py]),
    the rewards probe ([rewards.py]), the future-proposal probe
    ([next_blocks_proposal.py]) and the slot loop that drives them
    ([entrypoint.py]).

    Python values are modelled as follows: [int] as [Z], [str] as [string],
    [dict] as [gmap], [set] as [gset] (the iteration order of a dict or a
    set is the order of [map_to_list] / [elements]), [X | None] as
    [option X].  A function that can raise returns in the monad [M]: an
    outcome (a value or the exception raised) together with the events it
    emitted before returning or raising.

    Events are the calls the code makes across its boundary: console lines,
    chat messages, calls into the metrics library, HTTP requests.  The
    checks those libraries make on their own arguments are outside the
    repository and are not part of the model; a float is modelled by the
    exact rational it approximates. *)

From Stdlib Require Import ZArith QArith List Bool Lia.
From stdpp Require Import base gmap sets list strings option sorting.

Local Open Scope string_scope.
Local Open Scope list_scope.
Local Open Scope Z_scope.

(** ** Exceptions and the monad *)

Inductive exn :=
| KeyError
| TypeError
| ValueError
| AttributeError
| AssertionError
| ZeroDivisionError
| BadParameter
| ConnectionError
| RetryError
| HTTPError
| OtherError (tag : string).

Inductive result (A : Type) :=
| Ok (a : A)
| Raise (e : exn).
Arguments Ok {A} a.
Arguments Raise {A} e.

Definition is_raise {A} (r : result A) : bool :=
  match r with Ok _ => false | Raise _ => true end.

Section Monad.
Context {E : Type}.

(** A computation: the events emitted, in order, and how it ended. *)
Record M (A : Type) := mkM { events : list E; outcome : result A }.
Global Arguments mkM {A} events outcome.
Global Arguments events {A} m.
Global Arguments outcome {A} m.

Definition ret {A} (a : A) : M A := mkM [] (Ok a).
Definition raise {A} (e : exn) : M A := mkM [] (Raise e).
Definition emit (ev : E) : M unit := mkM [ev] (Ok tt).
Definition lift {A} (r : result A) : M A := mkM [] r.

Definition bind {A B} (m : M A) (f : A -> M B) : M B :=
  match outcome m with
  | Ok a => let r := f a in mkM (events m ++ events r) (outcome r)
  | Raise e => mkM (events m) (Raise e)
  end.

(** [try: m except e: h]: only the exception [e] is handled. *)
Definition try_except {A} (m : M A) (is_handled : exn -> bool) (h : M A) : M A :=
  match outcome m with
  | Ok a => m
  | Raise e =>
      if is_handled e then mkM (events m ++ events h) (outcome h) else m
  end.

(** [for x in l: body x], threading a state. *)
Fixpoint for_fold {A S} (body : S -> A -> M S) (l : list A) (s : S) : M S :=
  match l with
  | [] => ret s
  | x :: l' => bind (body s x) (for_fold body l')
  end.

(** [for x in l: body x]. *)
Fixpoint for_each {A} (body : A -> M unit) (l : list A) : M unit :=
  match l with
  | [] => ret tt
  | x :: l' => bind (body x) (fun _ => for_each body l')
  end.

(** [[f x for x in l]], evaluated eagerly. *)
Fixpoint map_M {A B} (f : A -> M B) (l : list A) : M (list B) :=
  match l with
  | [] => ret []
  | x :: l' => bind (f x) (fun y => bind (map_M f l') (fun ys => ret (y :: ys)))
  end.
End Monad.
Arguments M : clear implicits.

(** Every event the computation emits satisfies [P]. *)
Definition emits {E A} (P : E -> Prop) (m : M E A) : Prop :=
  Forall P (events m).

Notation "'do' x <- m ; k" := (bind m (fun x => k))
  (at level 10, x name, m at level 100, k at level 200,
   format "'[v' 'do'  x  <-  m ; '/' k ']'").
Notation "'do' ' p <- m ; k" := (bind m (fun x => match x with p => k end))
  (at level 10, p pattern, m at level 100, k at level 200,
   format "'[v' 'do'  ' p  <-  m ; '/' k ']'").
Notation "m ;; k" := (bind m (fun _ => k))
  (at level 100, k at level 200, right associativity).

(** ** Data model ([models.py]) *)

Inductive StatusEnum :=
| pendingInitialized | pendingQueued
| activeOngoing | activeExiting | activeSlashed
| exitedUnslashed | exitedSlashed
| withdrawalPossible | withdrawalDone.

Inductive BeaconType := LIGHTHOUSE | NIMBUS | OLD_PRYSM | OLD_TEKU | OTHER.

Record Validator := {
  pubkey : string;
  effective_balance : Z;
  slashed : bool
}.

Record ProposerDuty := {
  duty_pubkey : string;
  duty_validator_index : Z;
  duty_slot : Z
}.

Record IdealReward := {
  ideal_effective_balance : Z;
  ideal_source : Z;
  ideal_target : Z;
  ideal_head : Z
}.

Record TotalReward := {
  total_validator_index : Z;
  total_source : Z;
  total_target : Z;
  total_head : Z
}.

Record RewardsData := {
  ideal_rewards : list IdealReward;
  total_rewards : list TotalReward
}.

Record ProposerPayloadDelivered := {
  payload_slot : Z;
  payload_value : Z;
  proposer_pubkey : string
}.

(** [RelayBuilderValidator]; [entry_pubkey] is [entry.message.pubkey]. *)
Record RelayBuilderValidator := {
  rbv_slot : Z;
  rbv_validator_index : Z;
  entry_pubkey : string
}.

(** Of a block only its presence matters to the loop. *)
Record Block := {
  block_slot : Z;
  proposer_index : Z
}.

#[global] Instance StatusEnum_eq_dec : EqDecision StatusEnum.
Proof. solve_decision. Defined.
#[global] Instance BeaconType_eq_dec : EqDecision BeaconType.
Proof. solve_decision. Defined.
#[global] Instance Validator_eq_dec : EqDecision Validator.
Proof. solve_decision. Defined.
#[global] Instance ProposerDuty_eq_dec : EqDecision ProposerDuty.
Proof. solve_decision. Defined.

(** The position of a status in the enumeration, to use it as a key. *)
Definition status_code (s : StatusEnum) : nat :=
  match s with
  | pendingInitialized => 0 | pendingQueued => 1
  | activeOngoing => 2 | activeExiting => 3 | activeSlashed => 4
  | exitedUnslashed => 5 | exitedSlashed => 6
  | withdrawalPossible => 7 | withdrawalDone => 8
  end%nat.

Definition status_of_code (n : nat) : StatusEnum :=
  match n with
  | 0 => pendingInitialized | 1 => pendingQueued
  | 2 => activeOngoing | 3 => activeExiting | 4 => activeSlashed
  | 5 => exitedUnslashed | 6 => exitedSlashed
  | 7 => withdrawalPossible | _ => withdrawalDone
  end%nat.

#[global] Instance StatusEnum_countable : Countable StatusEnum.
Proof.
  refine (inj_countable' status_code status_of_code _).
  intros s; destruct s; reflexivity.
Defined.

(** Labels of one validator, and the pubkey-to-labels dictionary. *)
Abbreviation Labels := (gmap string string).
Abbreviation OurLabels := (gmap string (gmap string string)).
Abbreviation IndexToValidator := (gmap Z Validator).

(** [d[k]]: the value, or [KeyError]. *)
Definition getitem {E K V} `{Countable K} (d : gmap K V) (k : K) : M E V :=
  match d !! k with
  | Some v => ret v
  | None => raise KeyError
  end.

(** [len(d)] *)
Definition len {K V} `{Countable K} (d : gmap K V) : Z := Z.of_nat (size d).

(** [s[:n]] on a string *)
Definition str_prefix (n : nat) (s : string) : string := String.substring 0 n s.

(** [pubkey[:10]] *)
Definition short (pk : string) : string := str_prefix 10 pk.

(** [list(d.values())] and [list(d.keys())] *)
Definition values {K V} `{Countable K} (d : gmap K V) : list V :=
  (map_to_list d).*2.
Definition keys {K V} `{Countable K} (d : gmap K V) : list K :=
  (map_to_list d).*1.

(** ** Events *)

(** The console and chat lines, by their format string and the values
    interpolated into it. *)
Inductive message :=
| MsgUnknownBuilder
| MsgCannotContactRelay (url : string)
| MsgMissedAttestation (short_first_pubkeys : list string) (more epoch : Z)
| MsgDoubleMissedAttestation (short_first_pubkeys : list string) (more epoch : Z)
| MsgFutureProposal (short_pubkey : string) (slot in_slots : Z)
| MsgNotRegistered (short_pubkey : string) (slot in_slots : Z)
| MsgNotIdealRewards (label : string) (short_first_pubkeys : list string)
    (diff epoch : Z) (suboptimal_rate : Q)
| MsgChainStart (chain_start_in_sec : Z)
| MsgChuckNorris (quote : string)
| MsgEpochStarts (epoch : Z).

(** Requests to the beacon node and to the relays. *)
Inductive request :=
| ReqGenesis
| ReqValidatorsLiveness (beacon_type : BeaconType) (epoch : Z) (indices : gset Z)
| ReqRewards (beacon_type : BeaconType) (epoch : Z) (indices : option (gset Z))
| ReqProposerDuties (epoch : Z)
| ReqPotentialBlock (slot : Z)
| ReqStatusToIndexToValidator
| ReqPayloadDelivered (url : string) (slot : Z)
| ReqBuilderValidators (url : string).

(** Functions of the package that the loop calls and that live in other
    modules than the five embedded here. *)
Inductive ext_probe :=
| get_our_pubkeys
| get_our_labels
| init_block_reward_per_validator_counters
| init_blocks_per_validator_counters
| init_suboptimal_attestations_per_validator_counters
| init_sync_committee_per_validator_counters
| init_sync_committee_reward_per_validator_counters
| init_next_block_proposal_per_validator_counters
| exited_validators_process
| slashed_validators_process
| export_entry_queue_dur_sec
| emit_eth_usd_conversion_rate
| process_sync_committee
| process_missed_blocks_finalized
| process_suboptimal_attestations
| process_fee_recipients
| process_sync_committee_reward
| process_missed_blocks_head
| process_block_reward
| write_liveness_file.

Inductive event :=
| Print (m : message)
| SlackSend (m : message)
| GaugeSet (name : string) (value : Q)
| GaugeClear (name : string)
| GaugeInc (name : string) (labels : Labels)
| CounterInc (name : string) (labels : Labels) (amount : Q)
| MetricCreate (name : string) (labelnames : list string)
| SeriesInit (name : string) (labels : Labels)
| Request (r : request)
| SleepSec (seconds : Q)
| SleepBlockTimeout (slot : Z)
| Probe (p : ext_probe) (slot : Z)
| StartHttpServer (port : Z).

#[global] Instance exn_eq_dec : EqDecision exn.
Proof. solve_decision. Defined.
#[global] Instance Q_eq_dec : EqDecision Q.
Proof. solve_decision. Defined.
#[global] Instance message_eq_dec : EqDecision message.
Proof. solve_decision. Defined.
#[global] Instance request_eq_dec : EqDecision request.
Proof. solve_decision. Defined.
#[global] Instance ext_probe_eq_dec : EqDecision ext_probe.
Proof. solve_decision. Defined.
#[global] Instance event_eq_dec : EqDecision event.
Proof. solve_decision. Defined.

Abbreviation Run := (M event).

(** A request: the event, then the answer or the exception. *)
Definition ask {A} (r : request) (answer : result A) : Run A :=
  emit (Request r);; lift answer.

(** An unlabelled metric is a series with no labels. *)
Definition no_labels : Labels := ∅.

Definition Qz (z : Z) : Q := inject_Z z.

(** ** Module globals: the per-validator metric families

    Each module keeps its labelled metrics in globals that are [None]
    until the first load of a non-empty labels map.  [Registry] is that
    store: the families created so far, by name, with their label names. *)
Abbreviation Registry := (gmap string (list string)).

(** A use of a labelled family through its global, which may still be
    [None]: [None.labels] raises [AttributeError]. *)
Definition family (reg : Registry) (name : string) : Run string :=
  match reg !! name with
  | Some _ => ret name
  | None => raise AttributeError
  end.

(** [random.choice(l)], for the draw [rnd]. *)
Definition random_choice {A} (rnd : nat) (l : list A) (d : A) : A :=
  nth (rnd mod length l)%nat l d.

(** ** The relay verifier ([relays.py]) *)

(** What [Session.get] followed by [raise_for_status] and [json] can do:
    raise [ConnectionError], raise [RetryError] (the retrying adapter gave
    up on 404), answer with an error status, or answer with a body. *)
Inductive http_result (A : Type) :=
| HttpConnectionError
| HttpRetryError
| HttpErrorStatus
| HttpJson (body : A).
Arguments HttpConnectionError {A}.
Arguments HttpRetryError {A}.
Arguments HttpErrorStatus {A}.
Arguments HttpJson {A} body.

(** The relays as they answer: per URL, and per attempt of one call. *)
Record Http := {
  get_payload_delivered :
    string -> Z -> nat -> http_result (list ProposerPayloadDelivered);
  get_builder_validators :
    string -> nat -> http_result (list RelayBuilderValidator)
}.

Module Relays.

Definition MAX_TRIALS : nat := 5.
Definition WAIT_SEC : Q := 1 # 2.
Definition RELAY_KEY : string := "mev_relay".

Definition RELAY_MAPPING : gmap string string :=
  list_to_map [
    ("https://0xa1559ace749633b997cb3fdacffb890aeebdb0f5a3b6aaa7eeeaf1a38af0a8fe88b9e4b1f61f236d2e64d95733327a62@relay.ultrasound.money", "ultra sound");
    ("https://0x8b5d2e73e2a3a55c6c87b8b6eb92e0149a125c852751db1422fa951e42a09b82c142c3ea98d0d9930b056a3bc9896b8f@bloxroute.max-profit.blxrbdn.com", "BloXroute [Max-Profit]");
    ("https://0xac6e77dfe25ecd6110b8e780608cce0dab71fdd5ebea22a16c0205200f2f8e2e3ad3b71d3499c54ad14d6c21b41a37ae@boost-relay.flashbots.net", "flashbots");
    ("https://0xa7ab7a996c8584251c8f925da3170bdfd6ebc75d50f5ddc4050a6fdc77f2a3b5fce2cc750d0865e05d7228af97d69561@agnostic-relay.net", "Agnostic Gnosis");
    ("https://0xb0b07cd0abef743db4260b0ed50619cf6ad4d82064cb4fbec9d3ec530f7c5e6793d9f286c4e082c0244ffb9f2658fe88@bloxroute.regulated.blxrbdn.com", "BloXroute [Regulated]");
    ("https://0xa15b52576bcbf1072f4a011c0f99f9fb6c66f3e1ff321f11f461d15e31b1cb359caa092c71bbded0bae5b5ea401aab7e@aestus.live", "Aestus")
  ].

Definition metric_bad_relay_count : string := "bad_relay_count".
Definition our_mev_boost_reward_per_validator_count : string :=
  "our_mev_boost_reward_per_validator_count".

Definition init_relays_per_validator_counters
    (rnd : nat) (our_labels : OurLabels) (reg : Registry) : Run Registry :=
  if (len our_labels =? 0)
     || bool_decide (is_Some (reg !! our_mev_boost_reward_per_validator_count))
  then ret reg
  else
    let labels_neg := keys (random_choice rnd (values our_labels) ∅) in
    let labels_pos := labels_neg ++ [RELAY_KEY] in
    emit (MetricCreate our_mev_boost_reward_per_validator_count labels_pos);;
    for_each (fun labels_dict : Labels =>
      for_each (fun relay : string =>
        let labels_with_relay := <[RELAY_KEY := relay]> labels_dict in
        emit (SeriesInit our_mev_boost_reward_per_validator_count
                labels_with_relay))
        (values RELAY_MAPPING))
      (values our_labels);;
    ret (<[our_mev_boost_reward_per_validator_count := labels_pos]> reg).

(** [__is_proposer_payload_delivered]; [fuel] bounds the recursion, which
    stops by itself once [trial_count] reaches [MAX_TRIALS]. *)
Fixpoint is_proposer_payload_delivered_from (fuel : nat) (http : Http)
    (url : string) (slot : Z) (trial_count : nat) : Run bool :=
  emit (Request (ReqPayloadDelivered url slot));;
  match get_payload_delivered http url slot trial_count with
  | HttpConnectionError =>
      if (MAX_TRIALS <=? trial_count)%nat then raise ConnectionError
      else
        emit (SleepSec WAIT_SEC);;
        match fuel with
        | O => raise ConnectionError
        | S fuel' =>
            is_proposer_payload_delivered_from fuel' http url slot
              (S trial_count)
        end
  | HttpRetryError => raise RetryError
  | HttpErrorStatus => raise HTTPError
  | HttpJson proposer_payload_delivered_json =>
      if (1 <? length proposer_payload_delivered_json)%nat
      then raise AssertionError
      else ret (length proposer_payload_delivered_json =? 1)%nat
  end.

Definition is_proposer_payload_delivered (http : Http) (url : string)
    (slot : Z) : Run bool :=
  is_proposer_payload_delivered_from MAX_TRIALS http url slot 0.

(** [__proposer_payload_delivered] *)
Fixpoint proposer_payload_delivered_from (fuel : nat) (http : Http)
    (url : string) (slot : Z) (trial_count : nat)
    : Run (option ProposerPayloadDelivered) :=
  emit (Request (ReqPayloadDelivered url slot));;
  match get_payload_delivered http url slot trial_count with
  | HttpConnectionError =>
      if (MAX_TRIALS <=? trial_count)%nat then raise ConnectionError
      else
        emit (SleepSec WAIT_SEC);;
        match fuel with
        | O => raise ConnectionError
        | S fuel' =>
            proposer_payload_delivered_from fuel' http url slot
              (S trial_count)
        end
  | HttpRetryError => raise RetryError
  | HttpErrorStatus => raise HTTPError
  | HttpJson proposer_payload_delivered_json =>
      if (1 <? length proposer_payload_delivered_json)%nat
      then raise AssertionError
      else ret (head proposer_payload_delivered_json)
  end.

Definition proposer_payload_delivered (http : Http) (url : string)
    (slot : Z) : Run (option ProposerPayloadDelivered) :=
  proposer_payload_delivered_from MAX_TRIALS http url slot 0.

(** [__builder_validators] *)
Fixpoint builder_validators_from (fuel : nat) (http : Http)
    (url : string) (trial_count : nat) : Run (list RelayBuilderValidator) :=
  emit (Request (ReqBuilderValidators url));;
  match get_builder_validators http url trial_count with
  | HttpConnectionError =>
      if (MAX_TRIALS <=? trial_count)%nat then raise ConnectionError
      else
        emit (SleepSec WAIT_SEC);;
        match fuel with
        | O => raise ConnectionError
        | S fuel' => builder_validators_from fuel' http url (S trial_count)
        end
  | HttpRetryError => raise RetryError
  | HttpErrorStatus => raise HTTPError
  | HttpJson response_as_json => ret response_as_json
  end.

Definition builder_validators (http : Http) (url : string)
    : Run (list RelayBuilderValidator) :=
  builder_validators_from MAX_TRIALS http url 0.

(** [any(f(x) for x in l)]: stops at the first [True]. *)
Fixpoint any_of {A} (f : A -> Run bool) (l : list A) : Run bool :=
  match l with
  | [] => ret false
  | x :: l' => do b <- f x; if b then ret true else any_of f l'
  end.

Definition unknown_builder : Run unit :=
  emit (CounterInc metric_bad_relay_count no_labels 1);;
  emit (Print MsgUnknownBuilder).

(** The body of the loop over the relays when labels are configured. *)
Definition credit_relay (http : Http) (reg : Registry) (slot : Z)
    (our_labels : OurLabels) (known_builder : bool) (relay_url : string)
    : Run bool :=
  do payload <- proposer_payload_delivered http relay_url slot;
  match payload with
  | Some payload =>
      let pubkey := proposer_pubkey payload in
      do labels <- getitem our_labels pubkey;
      do relay <- getitem RELAY_MAPPING relay_url;
      let labels_with_relay := <[RELAY_KEY := relay]> labels in
      do counter <- family reg our_mev_boost_reward_per_validator_count;
      emit (CounterInc counter labels_with_relay
              (payload_value payload # 1000000000));;
      ret true
  | None => ret known_builder
  end.

(** [Relays.process]; [urls] is [self.__urls]. *)
Definition process (urls : list string) (http : Http) (reg : Registry)
    (slot : Z) (our_labels : OurLabels) : Run unit :=
  if (length urls =? 0)%nat then ret tt
  else if len our_labels =? 0 then
    do delivered <-
      any_of (fun relay_url => is_proposer_payload_delivered http relay_url slot)
        urls;
    if negb delivered then unknown_builder else ret tt
  else
    do known_builder <-
      for_fold (credit_relay http reg slot our_labels) urls false;
    if negb known_builder then unknown_builder else ret tt.

Definition is_RetryError (e : exn) : bool :=
  match e with RetryError => true | _ => false end.

(** One entry of a relay's list, in the inner loop of
    [check_validator_registration_for_slots]. *)
Definition mark_registered (pubkeys : gmap Z string)
    (registrations : gmap Z bool) (item : RelayBuilderValidator)
    : gmap Z bool :=
  if bool_decide (is_Some (registrations !! rbv_slot item))
     && bool_decide (pubkeys !! rbv_slot item = Some (entry_pubkey item))
  then <[rbv_slot item := true]> registrations
  else registrations.

(** The body of the loop over the relays in
    [check_validator_registration_for_slots]. *)
Definition ask_relay (http : Http) (pubkeys : gmap Z string)
    (registrations : gmap Z bool) (relay_url : string)
    : Run (gmap Z bool) :=
  do relay_data <-
    try_except
      (do d <- builder_validators http relay_url; ret (Some d))
      is_RetryError
      (emit (Print (MsgCannotContactRelay relay_url));; ret None);
  match relay_data with
  | None => ret registrations
  | Some relay_data =>
      ret (fold_left (mark_registered pubkeys) relay_data registrations)
  end.

(** The two dictionaries that [check_validator_registration_for_slots]
    builds from the duties, both keyed by slot. *)
Definition no_registrations (slot_proposals : list ProposerDuty)
    : gmap Z bool :=
  fold_left (fun r item => <[duty_slot item := false]> r) slot_proposals ∅.

Definition pubkeys_by_slot (slot_proposals : list ProposerDuty)
    : gmap Z string :=
  fold_left (fun p item => <[duty_slot item := duty_pubkey item]> p)
    slot_proposals ∅.

(** [Relays.check_validator_registration_for_slots] *)
Definition check_validator_registration_for_slots (urls : list string)
    (http : Http) (slot_proposals : list ProposerDuty)
    : Run (list ProposerDuty) :=
  if (length slot_proposals =? 0)%nat then ret []
  else
    let registrations := no_registrations slot_proposals in
    let pubkeys := pubkeys_by_slot slot_proposals in
    do registrations <- for_fold (ask_relay http pubkeys) urls registrations;
    ret (filter (fun item =>
                   registrations !! duty_slot item = Some false)
           slot_proposals).

End Relays.

(** ** Collaborators outside the embedded modules *)

(** The beacon node as it answers at one moment ([beacon.py] is a thin
    HTTP client): each method returns its answer or raises. *)
Record Beacon := {
  get_genesis : result Z;
  get_validators_liveness :
    BeaconType -> Z -> gset Z -> result (gmap Z bool);
  get_rewards : BeaconType -> Z -> option (gset Z) -> result RewardsData;
  get_proposer_duties : Z -> result (list ProposerDuty);
  get_potential_block : Z -> result (option Block);
  get_status_to_index_to_validator :
    result (gmap StatusEnum IndexToValidator)
}.

Record Slack := {
  channel : string;
  token : string
}.

Definition send_message (slack : Slack) (m : message) : Run unit :=
  emit (SlackSend m).

(** Modelled from the spec: [utils.LimitedDict], the bounded epoch window.
    An ordered mapping from epoch numbers to snapshots; inserting into a
    window that would exceed its capacity evicts the smallest keys. *)
Record LimitedDict := {
  max_size : nat;
  items : gmap Z IndexToValidator
}.

Definition LimitedDict_new (n : nat) : LimitedDict :=
  {| max_size := n; items := ∅ |}.

(** The smallest key of a window, if any. *)
Definition smallest_key (d : gmap Z IndexToValidator) : option Z :=
  foldr (fun k acc =>
           match acc with
           | None => Some k
           | Some k' => Some (Z.min k k')
           end) None (keys d).

Fixpoint evict (fuel : nat) (n : nat) (d : gmap Z IndexToValidator)
    : gmap Z IndexToValidator :=
  match fuel with
  | O => d
  | S fuel' =>
      if (n <? size d)%nat then
        match smallest_key d with
        | Some k => evict fuel' n (delete k d)
        | None => d
        end
      else d
  end.

(** [window[key] = value] *)
Definition setitem (w : LimitedDict) (key : Z) (value : IndexToValidator)
    : LimitedDict :=
  let d := <[key := value]> (items w) in
  {| max_size := max_size w; items := evict (size d) (max_size w) d |}.

(** [key in window] *)
Definition contains (w : LimitedDict) (key : Z) : bool :=
  bool_decide (is_Some (items w !! key)).

(** [window[key]] *)
Definition window_get (w : LimitedDict) (key : Z) : Run IndexToValidator :=
  getitem (items w) key.

(** ** Missed attestations ([missed_attestations.py]) *)

Module MissedAttestations.

Definition metric_missed_attestations_count : string :=
  "missed_attestations_count".
Definition metric_double_missed_attestations_count : string :=
  "double_missed_attestations_count".
Definition missed_attestations_per_validator_count : string :=
  "missed_attestations_per_validator_count".
Definition double_missed_attestations_per_validator_count : string :=
  "double_missed_attestations_per_validator_count".

Definition init_missed_attestations_per_validator_counters
    (rnd : nat) (our_labels : OurLabels) (reg : Registry) : Run Registry :=
  if (len our_labels =? 0)
     || bool_decide (is_Some (reg !! missed_attestations_per_validator_count))
  then ret reg
  else
    let labels := keys (random_choice rnd (values our_labels) ∅) in
    emit (MetricCreate missed_attestations_per_validator_count labels);;
    emit (MetricCreate double_missed_attestations_per_validator_count labels);;
    for_each (fun labels_dict : Labels =>
      emit (SeriesInit missed_attestations_per_validator_count labels_dict);;
      emit (SeriesInit double_missed_attestations_per_validator_count
              labels_dict))
      (values our_labels);;
    ret (<[double_missed_attestations_per_validator_count := labels]>
           (<[missed_attestations_per_validator_count := labels]> reg)).

(** [{index for index, liveness in d.items() if not liveness}] *)
Definition dead_of (validators_liveness : gmap Z bool) : gset Z :=
  dom (filter (fun kv : Z * bool => kv.2 = false) validators_liveness).

(** [list(index_to_validator[index].pubkey for index in indexes)] *)
Definition pubkeys_of (index_to_validator : IndexToValidator)
    (indexes : gset Z) : Run (list string) :=
  map_M (fun index =>
           do validator <- getitem index_to_validator index;
           ret (pubkey validator))
    (elements indexes).

Definition process_missed_attestations (beacon : Beacon)
    (beacon_type : BeaconType)
    (epoch_to_index_to_validator_index : LimitedDict) (epoch : Z)
    (our_labels : OurLabels) (reg : Registry) : Run (gset Z) :=
  if epoch <? 1 then ret ∅
  else
    do index_to_validator <-
      (if contains epoch_to_index_to_validator_index (epoch - 1)
       then window_get epoch_to_index_to_validator_index (epoch - 1)
       else window_get epoch_to_index_to_validator_index epoch);
    let validators_index := dom index_to_validator in
    do validators_liveness <-
      ask (ReqValidatorsLiveness beacon_type (epoch - 1) validators_index)
        (get_validators_liveness beacon beacon_type (epoch - 1)
           validators_index);
    let dead_indexes := dead_of validators_liveness in
    emit (GaugeSet metric_missed_attestations_count
            (Qz (Z.of_nat (size dead_indexes))));;
    if (size dead_indexes =? 0)%nat then ret ∅
    else
      do pubkeys <- pubkeys_of index_to_validator dead_indexes;
      let first_pubkeys := take 5 pubkeys in
      let short_first_pubkeys := short <$> first_pubkeys in
      emit (Print (MsgMissedAttestation short_first_pubkeys
                     (Z.of_nat (size dead_indexes)
                      - Z.of_nat (length short_first_pubkeys))
                     (epoch - 1)));;
      (if bool_decide
            (is_Some (reg !! missed_attestations_per_validator_count))
          && (0 <? len our_labels)
       then
         for_each (fun pubkey =>
           do labels <- getitem our_labels pubkey;
           emit (CounterInc missed_attestations_per_validator_count
                   labels 1))
           pubkeys
       else ret tt);;
      ret dead_indexes.

Definition process_double_missed_attestations (dead_indexes : gset Z)
    (previous_dead_indexes : gset Z)
    (epoch_to_index_to_validator_index : LimitedDict) (epoch : Z)
    (slack : option Slack) (our_labels : OurLabels) (reg : Registry)
    : Run (gset Z) :=
  if epoch <? 2 then ret ∅
  else
    let double_dead_indexes := dead_indexes ∩ previous_dead_indexes in
    emit (GaugeSet metric_double_missed_attestations_count
            (Qz (Z.of_nat (size double_dead_indexes))));;
    if (size double_dead_indexes =? 0)%nat then ret ∅
    else
      do index_to_validator <-
        window_get epoch_to_index_to_validator_index (epoch - 1);
      do pubkeys <- pubkeys_of index_to_validator double_dead_indexes;
      let first_pubkeys := take 5 pubkeys in
      let short_first_pubkeys := short <$> first_pubkeys in
      let message :=
        MsgDoubleMissedAttestation short_first_pubkeys
          (Z.of_nat (size double_dead_indexes)
           - Z.of_nat (length short_first_pubkeys))
          (epoch - 2) in
      emit (Print message);;
      (match slack with
       | Some slack => send_message slack message
       | None => ret tt
       end);;
      (if bool_decide
            (is_Some (reg !! double_missed_attestations_per_validator_count))
          && (0 <? len our_labels)
       then
         for_each (fun pubkey =>
           do labels <- getitem our_labels pubkey;
           emit (CounterInc double_missed_attestations_per_validator_count
                   labels 1))
           pubkeys
       else ret tt);;
      ret double_dead_indexes.

End MissedAttestations.

(** ** Rewards ([rewards.py]) *)

Module Rewards.

(** source, target, head *)
Definition Reward : Type := Z * Z * Z.
Definition AreIdeal : Type := bool * bool * bool.
Definition Item : Type := string * Reward * Reward * AreIdeal.

Definition source_of (r : Reward) : Z := r.1.1.
Definition target_of (r : Reward) : Z := r.1.2.
Definition head_of (r : Reward) : Z := r.2.

Definition per_validator_counters : list string :=
  ["our_ideal_sources_per_validator_count";
   "our_ideal_targets_per_validator_count";
   "our_ideal_heads_per_validator_count";
   "our_actual_pos_sources_per_validator_count";
   "our_actual_neg_sources_per_validator_count";
   "our_actual_pos_targets_per_validator_count";
   "our_actual_neg_targets_per_validator_count";
   "our_actual_heads_per_validator_count";
   "our_ideal_attestations_reward_per_validator_count";
   "our_actual_pos_attestations_reward_per_validator_count";
   "our_actual_neg_attestations_reward_per_validator_count"].

Definition init_rewards_per_validator_counters
    (rnd : nat) (our_labels : OurLabels) (reg : Registry) : Run Registry :=
  if (len our_labels =? 0)
     || bool_decide
          (is_Some (reg !! "our_ideal_targets_per_validator_count"))
  then ret reg
  else
    let labels := keys (random_choice rnd (values our_labels) ∅) in
    for_each (fun name => emit (MetricCreate name labels))
      per_validator_counters;;
    for_each (fun labels_dict : Labels =>
      for_each (fun name => emit (SeriesInit name labels_dict))
        per_validator_counters)
      (values our_labels);;
    ret (foldr (fun name r => <[name := labels]> r) reg
           per_validator_counters).

(** The value of a module global: the family, or [None]. *)
Definition global (reg : Registry) (name : string) : option string :=
  match reg !! name with
  | Some _ => Some name
  | None => None
  end.

(** [(counter_pos if value >= 0 else counter_neg).labels(..).inc(abs(value))] *)
Definition signed_inc (counter_pos counter_neg : option string)
    (labels : Labels) (value : Z) : Run unit :=
  match (if 0 <=? value then counter_pos else counter_neg) with
  | Some counter => emit (CounterInc counter labels (Qz (Z.abs value)))
  | None => raise AttributeError
  end.

Definition _validator_counters_update (counter_pos counter_neg : option string)
    (pub_keys : list string) (values : list Z) (labels_dict : OurLabels)
    : Run unit :=
  if bool_decide (counter_pos = None) || (len labels_dict =? 0) then ret tt
  else
    for_each (fun pv : string * Z =>
      let '(pubkey, value) := pv in
      do labels <- getitem labels_dict pubkey;
      signed_inc counter_pos counter_neg labels value)
      (zip pub_keys values).

Definition _validator_summary_counters_update
    (counter_pos counter_neg : option string) (pub_keys : list string)
    (sources targets heads : list Z) (labels_dict : OurLabels) : Run unit :=
  if bool_decide (counter_pos = None) || (len labels_dict =? 0) then ret tt
  else
    for_each (fun x : string * Z * Z * Z =>
      let '(pubkey, source, target, head) := x in
      do labels <- getitem labels_dict pubkey;
      let value := source + target + head in
      signed_inc counter_pos counter_neg labels value)
      (zip (zip (zip pub_keys sources) targets) heads).

Definition str_le (a b : string) : Prop := String.leb a b = true.
#[global] Instance str_le_dec a b : Decision (str_le a b).
Proof. unfold str_le. apply _. Defined.

Definition _log (pubkeys : list string) (are_ideal : list bool)
    (suboptimal_rate : Q) (epoch : Z) (label : string) : Run unit :=
  let not_perfect_pubkeys :=
    remove_dups
      ((filter (fun pp : string * bool => pp.2 = false)
          (zip pubkeys are_ideal)).*1) in
  if (0 <? length not_perfect_pubkeys)%nat then
    let first_not_perfect_pubkeys :=
      take 5 (merge_sort str_le not_perfect_pubkeys) in
    let short_first_not_perfect_pubkeys :=
      short <$> first_not_perfect_pubkeys in
    let diff :=
      Z.of_nat (length not_perfect_pubkeys)
      - Z.of_nat (length first_not_perfect_pubkeys) in
    emit (Print (MsgNotIdealRewards label short_first_not_perfect_pubkeys
                   diff (epoch - 2) suboptimal_rate))
  else ret tt.

Definition _process_validator (pubkey : string)
    (ideal_reward actual_reward : Reward) : Item :=
  let '(ideal_source_reward, ideal_target_reward, ideal_head_reward) :=
    ideal_reward in
  let '(actual_source_reward, actual_target_reward, actual_head_reward) :=
    actual_reward in
  let are_ideal :=
    (actual_source_reward =? ideal_source_reward,
     actual_target_reward =? ideal_target_reward,
     actual_head_reward =? ideal_head_reward) in
  (pubkey, ideal_reward, actual_reward, are_ideal).

(** The two dict comprehensions over a rewards response: a later row
    with the same key replaces an earlier one. *)
Definition ideal_by_balance (data : RewardsData) : gmap Z Reward :=
  fold_left (fun d reward =>
               <[ideal_effective_balance reward :=
                   (ideal_source reward, ideal_target reward,
                    ideal_head reward)]> d)
    (ideal_rewards data) ∅.

Definition actual_by_index (data : RewardsData) : gmap Z Reward :=
  fold_left (fun d reward =>
               <[total_validator_index reward :=
                   (total_source reward, total_target reward,
                    total_head reward)]> d)
    (total_rewards data) ∅.

(** The element of both list comprehensions: two subscripts, then
    [_process_validator]. *)
Definition item_of (effective_balance_to_ideal_reward : gmap Z Reward)
    (index_to_actual_reward : gmap Z Reward)
    (iv : Z * Validator) : Run Item :=
  let '(index, validator) := iv in
  do ideal <-
    getitem effective_balance_to_ideal_reward (effective_balance validator);
  do actual <- getitem index_to_actual_reward index;
  ret (_process_validator (pubkey validator) ideal actual).

(** The guard of the network comprehension. *)
Definition has_rows (effective_balance_to_ideal_reward : gmap Z Reward)
    (index_to_actual_reward : gmap Z Reward) (iv : Z * Validator) : bool :=
  bool_decide (is_Some (index_to_actual_reward !! iv.1))
  && bool_decide
       (is_Some (effective_balance_to_ideal_reward
                   !! effective_balance iv.2)).

(** The network pass: the comprehension with its [if] clause. *)
Definition net_items (net_index_to_validator : IndexToValidator)
    (effective_balance_to_ideal_reward index_to_actual_reward : gmap Z Reward)
    : Run (list Item) :=
  map_M (item_of effective_balance_to_ideal_reward index_to_actual_reward)
    (filter (fun iv =>
               has_rows effective_balance_to_ideal_reward
                 index_to_actual_reward iv = true)
       (map_to_list net_index_to_validator)).

(** The watched-set pass: the same comprehension without the clause. *)
Definition our_items (our_index_to_validator : IndexToValidator)
    (effective_balance_to_ideal_reward index_to_actual_reward : gmap Z Reward)
    : Run (list Item) :=
  map_M (item_of effective_balance_to_ideal_reward index_to_actual_reward)
    (map_to_list our_index_to_validator).

(** [a, b, c, d = zip( *items)]: unpacking fails on an empty list. *)
Definition unzip_items (l : list Item)
    : Run (list string * list Reward * list Reward * list AreIdeal) :=
  match l with
  | [] => raise ValueError
  | _ => ret (l.*1.*1.*1, l.*1.*1.*2, l.*1.*2, l.*2)
  end.

Definition sum (l : list Z) : Z := foldr Z.add 0 l.

(** [1 - sum(are_ideal) / len(are_ideal)] *)
Definition suboptimal_rate_of (are_ideal : list bool) : Run Q :=
  match length are_ideal with
  | O => raise ZeroDivisionError
  | S n =>
      ret (1 - (Z.of_nat (length (filter (fun b => b = true) are_ideal))
                # Pos.of_succ_nat n))%Q
  end.

(** The aggregate counters and gauges of one pass; [who] is [net] or
    [our]. *)
Definition aggregate (who : string)
    (ideal_rewards actual_rewards : list Reward) (ideals : list AreIdeal)
    : Run (Q * Q * Q) :=
  let ideal_sources := source_of <$> ideal_rewards in
  let ideal_targets := target_of <$> ideal_rewards in
  let ideal_heads := head_of <$> ideal_rewards in
  let actual_sources := source_of <$> actual_rewards in
  let actual_targets := target_of <$> actual_rewards in
  let actual_heads := head_of <$> actual_rewards in
  let are_sources_ideal := (fun i : AreIdeal => i.1.1) <$> ideals in
  let are_targets_ideal := (fun i : AreIdeal => i.1.2) <$> ideals in
  let are_heads_ideal := (fun i : AreIdeal => i.2) <$> ideals in
  let total_ideal_sources := sum ideal_sources in
  let total_ideal_targets := sum ideal_targets in
  let total_ideal_heads := sum ideal_heads in
  emit (CounterInc (who +:+ "_ideal_sources_count") no_labels
          (Qz total_ideal_sources));;
  emit (CounterInc (who +:+ "_ideal_targets_count") no_labels
          (Qz total_ideal_targets));;
  emit (CounterInc (who +:+ "_ideal_heads_count") no_labels
          (Qz total_ideal_heads));;
  let total_actual_sources := sum actual_sources in
  let total_actual_targets := sum actual_targets in
  let total_actual_heads := sum actual_heads in
  emit (CounterInc
          (if 0 <=? total_actual_sources
           then who +:+ "_actual_pos_sources_count"
           else who +:+ "_actual_neg_sources_count")
          no_labels (Qz (Z.abs total_actual_sources)));;
  emit (CounterInc
          (if 0 <=? total_actual_targets
           then who +:+ "_actual_pos_targets_count"
           else who +:+ "_actual_neg_targets_count")
          no_labels (Qz (Z.abs total_actual_targets)));;
  emit (CounterInc (who +:+ "_actual_heads_count") no_labels
          (Qz total_actual_heads));;
  do suboptimal_sources_rate <- suboptimal_rate_of are_sources_ideal;
  do suboptimal_targets_rate <- suboptimal_rate_of are_targets_ideal;
  do suboptimal_heads_rate <- suboptimal_rate_of are_heads_ideal;
  emit (GaugeSet (who +:+ "_suboptimal_sources_rate") suboptimal_sources_rate);;
  emit (GaugeSet (who +:+ "_suboptimal_targets_rate") suboptimal_targets_rate);;
  emit (GaugeSet (who +:+ "_suboptimal_heads_rate") suboptimal_heads_rate);;
  ret (suboptimal_sources_rate, suboptimal_targets_rate,
       suboptimal_heads_rate).

(** [w[epoch - 2]], else [w[epoch - 1]], else [w[epoch]] *)
Definition window_of (w : LimitedDict) (epoch : Z) : Run IndexToValidator :=
  if contains w (epoch - 2) then window_get w (epoch - 2)
  else if contains w (epoch - 1) then window_get w (epoch - 1)
  else window_get w epoch.

Definition process_rewards (beacon : Beacon) (beacon_type : BeaconType)
    (epoch : Z) (net_epoch_to_index_to_validator : LimitedDict)
    (our_epoch_to_index_to_validator : LimitedDict)
    (our_labels : OurLabels) (reg : Registry) : Run unit :=
  if epoch <? 2 then ret tt
  else
    (* Network validators *)
    do net_index_to_validator <-
      window_of net_epoch_to_index_to_validator epoch;
    if len net_index_to_validator =? 0 then ret tt
    else
      do data <-
        ask (ReqRewards beacon_type (epoch - 2) None)
          (get_rewards beacon beacon_type (epoch - 2) None);
      let effective_balance_to_ideal_reward := ideal_by_balance data in
      let index_to_actual_reward := actual_by_index data in
      do items <-
        net_items net_index_to_validator effective_balance_to_ideal_reward
          index_to_actual_reward;
      do '(_, ideal_rewards, actual_rewards, ideals) <- unzip_items items;
      aggregate "net" ideal_rewards actual_rewards ideals;;
      (* Our validators *)
      do our_index_to_validator <-
        window_of our_epoch_to_index_to_validator epoch;
      let our_indexes := dom our_index_to_validator in
      if (size our_indexes =? 0)%nat then ret tt
      else
        do data <-
          ask (ReqRewards beacon_type (epoch - 2) (Some our_indexes))
            (get_rewards beacon beacon_type (epoch - 2) (Some our_indexes));
        let effective_balance_to_ideal_reward := ideal_by_balance data in
        let index_to_actual_reward := actual_by_index data in
        do items <-
          our_items our_index_to_validator effective_balance_to_ideal_reward
            index_to_actual_reward;
        do '(pubkeys, ideal_rewards, actual_rewards, ideals) <-
          unzip_items items;
        do '(suboptimal_sources_rate, suboptimal_targets_rate,
             suboptimal_heads_rate) <-
          aggregate "our" ideal_rewards actual_rewards ideals;
        let ideal_sources := source_of <$> ideal_rewards in
        let ideal_targets := target_of <$> ideal_rewards in
        let ideal_heads := head_of <$> ideal_rewards in
        let actual_sources := source_of <$> actual_rewards in
        let actual_targets := target_of <$> actual_rewards in
        let actual_heads := head_of <$> actual_rewards in
        let g := global reg in
        _validator_counters_update
          (g "our_ideal_sources_per_validator_count") None
          pubkeys ideal_sources our_labels;;
        _validator_counters_update
          (g "our_ideal_targets_per_validator_count") None
          pubkeys ideal_targets our_labels;;
        _validator_counters_update
          (g "our_ideal_heads_per_validator_count") None
          pubkeys ideal_heads our_labels;;
        _validator_counters_update
          (g "our_actual_pos_sources_per_validator_count")
          (g "our_actual_neg_sources_per_validator_count")
          pubkeys actual_sources our_labels;;
        _validator_counters_update
          (g "our_actual_pos_targets_per_validator_count")
          (g "our_actual_neg_targets_per_validator_count")
          pubkeys actual_targets our_labels;;
        _validator_counters_update
          (g "our_actual_heads_per_validator_count") None
          pubkeys actual_heads our_labels;;
        _validator_summary_counters_update
          (g "our_ideal_attestations_reward_per_validator_count") None
          pubkeys ideal_sources ideal_targets ideal_heads our_labels;;
        _validator_summary_counters_update
          (g "our_actual_pos_attestations_reward_per_validator_count")
          (g "our_actual_neg_attestations_reward_per_validator_count")
          pubkeys actual_sources actual_targets actual_heads our_labels;;
        _log pubkeys ((fun i : AreIdeal => i.1.1) <$> ideals)
          suboptimal_sources_rate epoch "source";;
        _log pubkeys ((fun i : AreIdeal => i.1.2) <$> ideals)
          suboptimal_targets_rate epoch "target";;
        _log pubkeys ((fun i : AreIdeal => i.2) <$> ideals)
          suboptimal_heads_rate epoch "head ".

End Rewards.

(** ** Constants ([utils.py]) *)

Definition NB_SLOT_PER_EPOCH : Z := 32.
Definition NB_SECOND_PER_SLOT : Z := 12.
Definition MISSED_BLOCK_TIMEOUT_SEC : Z := 4.
Definition SLOT_FOR_MISSED_ATTESTATIONS_PROCESS : Z := 16.
Definition SLOT_FOR_REWARDS_PROCESS : Z := 16.

(** ** Future block proposals ([next_blocks_proposal.py]) *)

Module NextBlocksProposal.

Definition future_block_proposals_count : string :=
  "future_block_proposals_count".

Definition process_future_blocks_proposal (beacon : Beacon)
    (our_pubkeys : gset string) (slot : Z) (is_new_epoch : bool)
    (relays_urls : list string) (relays_http : Http)
    (our_labels : OurLabels) : Run Z :=
  let epoch := slot / NB_SLOT_PER_EPOCH in
  do proposers_duties_current_epoch <-
    ask (ReqProposerDuties epoch) (get_proposer_duties beacon epoch);
  do proposers_duties_next_epoch <-
    ask (ReqProposerDuties (epoch + 1))
      (get_proposer_duties beacon (epoch + 1));
  let concatenated_data :=
    proposers_duties_current_epoch ++ proposers_duties_next_epoch in
  let filtered :=
    filter (fun item =>
              duty_pubkey item ∈ our_pubkeys ∧ slot <= duty_slot item)
      concatenated_data in
  emit (GaugeSet future_block_proposals_count
          (Qz (Z.of_nat (length filtered))));;
  (if is_new_epoch then
     for_each (fun item =>
       emit (Print (MsgFutureProposal (short (duty_pubkey item))
                      (duty_slot item) (duty_slot item - slot))))
       filtered
   else ret tt);;
  (if is_new_epoch && (0 <? length filtered)%nat && (0 <? len our_labels)
   then
     let filtered_in_current_epoch :=
       filter (fun item => duty_pubkey item ∈ our_pubkeys)
         proposers_duties_current_epoch in
     if (0 <? length filtered_in_current_epoch)%nat then
       (* relays.check_validator_registration_for_slots(
            filtered_in_current_epoch, our_labels): the method takes the
          duties only, so the call itself raises. *)
       do slots_wo_relay <- (raise TypeError : Run (list ProposerDuty));
       if (0 <? length slots_wo_relay)%nat then
         for_each (fun item =>
           emit (Print (MsgNotRegistered (short (duty_pubkey item))
                          (duty_slot item) (duty_slot item - slot))))
           slots_wo_relay
       else ret tt
     else ret tt
   else ret tt);;
  ret (Z.of_nat (length filtered)).

End NextBlocksProposal.

(** ** The slot loop ([entrypoint.py]) *)

(** Everything outside the process, as the loop meets it slot by slot. *)
Record World := {
  (** wall-clock time when the loop starts *)
  now : Z;
  (** the beacon node when the watcher starts, and during each slot *)
  startup_beacon : Beacon;
  beacon_at : Z -> Beacon;
  (** the relays during each slot *)
  http_at : Z -> Http;
  (** [get_our_pubkeys] and [get_our_labels] at each slot *)
  our_pubkeys_at : Z -> result (gset string);
  our_labels_at : Z -> result OurLabels;
  (** whether a function of another module raises when called at a slot *)
  ext_raises : ext_probe -> Z -> option exn;
  (** the values returned by [process_missed_blocks_finalized] and
      [process_missed_blocks_head] *)
  finalized_cursor_at : Z -> Z;
  is_our_validator_at : Z -> bool;
  (** the draws of [random.choice] *)
  random_at : Z -> nat -> nat;
  eth1_address_lower_0x_prefixed : string -> result string;
  CHUCK_NORRIS : list string
}.

Record Config := {
  execution_url : option string;
  fee_recipients : option (list string);
  slack_channel : option string;
  (** [environ.get("SLACK_TOKEN")] *)
  slack_token : option string;
  beacon_type : BeaconType;
  relays_url : list string;
  liveness_file : option string
}.

(** The variables of [_handler] that live across iterations, and the
    module globals. *)
Record Locals := {
  our_pubkeys : gset string;
  our_labels : OurLabels;
  our_active_idx2val : IndexToValidator;
  our_validators_indexes_that_missed_attestation : gset Z;
  our_validators_indexes_that_missed_previous_attestation : gset Z;
  our_epoch2active_idx2val : LimitedDict;
  net_epoch2active_idx2val : LimitedDict;
  last_missed_attestations_process_epoch : option Z;
  last_rewards_process_epoch : option Z;
  previous_epoch : option Z;
  last_processed_finalized_slot : option Z;
  registry : Registry
}.

Definition initial_locals : Locals := {|
  our_pubkeys := ∅;
  our_labels := ∅;
  our_active_idx2val := ∅;
  our_validators_indexes_that_missed_attestation := ∅;
  our_validators_indexes_that_missed_previous_attestation := ∅;
  our_epoch2active_idx2val := LimitedDict_new 3;
  net_epoch2active_idx2val := LimitedDict_new 3;
  last_missed_attestations_process_epoch := None;
  last_rewards_process_epoch := None;
  previous_epoch := None;
  last_processed_finalized_slot := None;
  registry := ∅
|}.

(** Modelled from the spec: [utils.slots], the slot iterator.  It yields
    consecutive slots, never skipping or reordering, starting from
    [floor((now - genesis_time) / SLOT_SECONDS)]; [n] is how many of them
    are observed. *)
Definition slots (genesis_time : Z) (now : Z) (n : nat) : list Z :=
  (fun k => (now - genesis_time) / NB_SECOND_PER_SLOT + Z.of_nat k)
    <$> seq 0 n.

(** [enumerate(l)] *)
Definition enumerate {A} (l : list A) : list (nat * A) :=
  zip (seq 0 (length l)) l.

(** [a | b] on dicts: the right operand wins on a common key. *)
Definition dict_or {K V} `{Countable K} (a b : gmap K V) : gmap K V := b ∪ a.

(** [d.get(k, {})] *)
Definition get_or_empty (d : gmap StatusEnum IndexToValidator)
    (k : StatusEnum) : IndexToValidator :=
  default ∅ (d !! k).

(** [x is None or x != v] *)
Definition is_None_or_differs (x : option Z) (v : Z) : bool :=
  match x with
  | None => true
  | Some y => negb (y =? v)
  end.

Definition is_active (status : StatusEnum) : bool :=
  match status with
  | activeOngoing | activeExiting | activeSlashed => true
  | _ => false
  end.

Module Entrypoint.
Import MissedAttestations Rewards NextBlocksProposal.

Definition our_active_validators_per_validator_gauge : string :=
  "our_active_validators_per_validator".

(** A call to a function of another module of the package. *)
Definition ext (w : World) (p : ext_probe) (slot : Z) : Run unit :=
  emit (Probe p slot);;
  match ext_raises w p slot with
  | Some e => raise e
  | None => ret tt
  end.

Definition is_ValueError (e : exn) : bool :=
  match e with ValueError => true | _ => false end.

(** What the epoch-boundary block assigns. *)
Record Boundary := {
  b_our_pubkeys : gset string;
  b_our_labels : OurLabels;
  b_our_active_idx2val : IndexToValidator;
  b_our_epoch2active_idx2val : LimitedDict;
  b_net_epoch2active_idx2val : LimitedDict;
  b_registry : Registry
}.

Definition keep (st : Locals) : Boundary := {|
  b_our_pubkeys := our_pubkeys st;
  b_our_labels := our_labels st;
  b_our_active_idx2val := our_active_idx2val st;
  b_our_epoch2active_idx2val := our_epoch2active_idx2val st;
  b_net_epoch2active_idx2val := net_epoch2active_idx2val st;
  b_registry := registry st
|}.

(** The body of [if is_new_epoch:]. *)
Definition new_epoch (w : World) (cfg : Config) (st : Locals)
    (slot epoch : Z) : Run Boundary :=
  do '(our_pubkeys, our_labels) <-
    try_except
      (emit (Probe get_our_pubkeys slot);;
       do our_pubkeys <- lift (our_pubkeys_at w slot);
       emit (Probe get_our_labels slot);;
       do our_labels <- lift (our_labels_at w slot);
       ret (our_pubkeys, our_labels))
      is_ValueError
      (raise BadParameter);
  let reg := registry st in
  ext w init_block_reward_per_validator_counters slot;;
  ext w init_blocks_per_validator_counters slot;;
  do reg <-
    init_missed_attestations_per_validator_counters (random_at w slot 0)
      our_labels reg;
  do reg <-
    Relays.init_relays_per_validator_counters (random_at w slot 1)
      our_labels reg;
  do reg <-
    init_rewards_per_validator_counters (random_at w slot 2) our_labels reg;
  ext w init_suboptimal_attestations_per_validator_counters slot;;
  ext w init_sync_committee_per_validator_counters slot;;
  ext w init_sync_committee_reward_per_validator_counters slot;;
  ext w init_next_block_proposal_per_validator_counters slot;;
  do reg <-
    (if bool_decide (reg !! our_active_validators_per_validator_gauge = None)
        && (0 <? len our_labels)
     then
       let labelnames :=
         keys (random_choice (random_at w slot 3) (values our_labels) ∅) in
       emit (MetricCreate our_active_validators_per_validator_gauge
               labelnames);;
       for_each (fun labels : Labels =>
         emit (SeriesInit our_active_validators_per_validator_gauge labels))
         (remove_dups (values our_labels));;
       ret (<[our_active_validators_per_validator_gauge := labelnames]> reg)
     else ret reg);
  (* Network validators *)
  do net_status2idx2val <-
    ask ReqStatusToIndexToValidator
      (get_status_to_index_to_validator (beacon_at w slot));
  let net_pending_q_idx2val := get_or_empty net_status2idx2val pendingQueued in
  let nb_total_pending_q_vals := len net_pending_q_idx2val in
  emit (GaugeSet "total_pending_queued_validators_count"
          (Qz nb_total_pending_q_vals));;
  let active_ongoing := get_or_empty net_status2idx2val activeOngoing in
  let active_exiting := get_or_empty net_status2idx2val activeExiting in
  let active_slashed := get_or_empty net_status2idx2val activeSlashed in
  let net_active_idx2val :=
    dict_or (dict_or active_ongoing active_exiting) active_slashed in
  let net_epoch2active_idx2val :=
    setitem (net_epoch2active_idx2val st) epoch net_active_idx2val in
  let net_active_vals_count := len net_active_idx2val in
  emit (GaugeSet "total_active_validators_count"
          (Qz net_active_vals_count));;
  (* Our validators *)
  let our_status2idx2val : gmap StatusEnum IndexToValidator :=
    (fun validator : IndexToValidator =>
       filter (fun iv : Z * Validator => pubkey iv.2 ∈ our_pubkeys)
         validator) <$> net_status2idx2val in
  let our_queued_idx2val := get_or_empty our_status2idx2val pendingQueued in
  emit (GaugeSet "our_pending_queued_validators_count"
          (Qz (len our_queued_idx2val)));;
  let ongoing := get_or_empty our_status2idx2val activeOngoing in
  let active_exiting := get_or_empty our_status2idx2val activeExiting in
  let active_slashed := get_or_empty our_status2idx2val activeSlashed in
  let our_active_idx2val :=
    dict_or (dict_or ongoing active_exiting) active_slashed in
  let our_epoch2active_idx2val :=
    setitem (our_epoch2active_idx2val st) epoch our_active_idx2val in
  emit (GaugeSet "our_active_validators_count"
          (Qz (len our_active_idx2val)));;
  ext w exited_validators_process slot;;
  (if 0 <? len our_labels then
     do gauge <- family reg our_active_validators_per_validator_gauge;
     emit (GaugeClear gauge);;
     for_each (fun sv : StatusEnum * IndexToValidator =>
       let '(status, validators) := sv in
       for_each (fun validator : Validator =>
         do labels <- getitem our_labels (pubkey validator);
         if is_active status then emit (GaugeInc gauge labels) else ret tt)
         (values validators))
       (map_to_list our_status2idx2val)
   else ret tt);;
  ext w slashed_validators_process slot;;
  ext w export_entry_queue_dur_sec slot;;
  ext w emit_eth_usd_conversion_rate slot;;
  ext w process_sync_committee slot;;
  ret {| b_our_pubkeys := our_pubkeys;
         b_our_labels := our_labels;
         b_our_active_idx2val := our_active_idx2val;
         b_our_epoch2active_idx2val := our_epoch2active_idx2val;
         b_net_epoch2active_idx2val := net_epoch2active_idx2val;
         b_registry := reg |}.

(** The branch [if slot < 0: ...; continue]. *)
Definition before_genesis (w : World) (cfg : Config) (slot : Z) : Run unit :=
  let chain_start_in_sec := - slot * NB_SECOND_PER_SLOT in
  emit (Print (MsgChainStart chain_start_in_sec));;
  (if slot mod NB_SLOT_PER_EPOCH =? 0 then
     match CHUCK_NORRIS w with
     | [] => raise ZeroDivisionError
     | q :: _ =>
         emit (Print (MsgChuckNorris
                        (nth (Z.to_nat
                                (slot mod Z.of_nat (length (CHUCK_NORRIS w))))
                           (CHUCK_NORRIS w) q)))
     end
   else ret tt);;
  (if bool_decide (liveness_file cfg <> None)
   then ext w write_liveness_file slot else ret tt).

(** Lines 407-431: the missed-attestation probes and their conditions.  The
    result is the new [our_validators_indexes_that_missed_attestation]
    and [last_missed_attestations_process_epoch]. *)
Definition missed_attestations_step (w : World) (cfg : Config)
    (slack : option Slack) (st : Locals) (b : Boundary) (slot : Z)
    : Run (gset Z * option Z) :=
  let beacon := beacon_at w slot in
  let epoch := slot / NB_SLOT_PER_EPOCH in
  let slot_in_epoch := slot mod NB_SLOT_PER_EPOCH in
  let should_process_missed_attestations :=
    (SLOT_FOR_MISSED_ATTESTATIONS_PROCESS <=? slot_in_epoch)
    && is_None_or_differs (last_missed_attestations_process_epoch st)
         epoch in
  if should_process_missed_attestations then
    do our_validators_indexes_that_missed_attestation <-
      process_missed_attestations beacon (beacon_type cfg)
        (b_our_epoch2active_idx2val b) epoch (b_our_labels b)
        (b_registry b);
    process_double_missed_attestations
      our_validators_indexes_that_missed_attestation
      (our_validators_indexes_that_missed_previous_attestation st)
      (b_our_epoch2active_idx2val b) epoch slack (b_our_labels b)
      (b_registry b);;
    ret (our_validators_indexes_that_missed_attestation, Some epoch)
  else
    ret (our_validators_indexes_that_missed_attestation st,
         last_missed_attestations_process_epoch st).

(** Lines 433-449: the rewards probe and its condition.  The result is the
    new [last_rewards_process_epoch]. *)
Definition rewards_step (w : World) (cfg : Config) (st : Locals)
    (b : Boundary) (slot : Z) : Run (option Z) :=
  let beacon := beacon_at w slot in
  let epoch := slot / NB_SLOT_PER_EPOCH in
  let slot_in_epoch := slot mod NB_SLOT_PER_EPOCH in
  let is_slot_big_enough := SLOT_FOR_REWARDS_PROCESS <=? slot_in_epoch in
  let is_last_rewards_epoch_none :=
    bool_decide (last_rewards_process_epoch st = None) in
  let is_new_rewards_epoch :=
    bool_decide (last_rewards_process_epoch st <> Some epoch) in
  let epoch_condition :=
    is_last_rewards_epoch_none || is_new_rewards_epoch in
  let should_process_rewards := is_slot_big_enough && epoch_condition in
  if should_process_rewards then
    process_rewards beacon (beacon_type cfg) epoch
      (b_net_epoch2active_idx2val b) (b_our_epoch2active_idx2val b)
      (b_our_labels b) (b_registry b);;
    ret (Some epoch)
  else ret (last_rewards_process_epoch st).

(** Lines 457-490: the wait for the block and the probes that depend on
    it. *)
Definition block_step (w : World) (cfg : Config) (b : Boundary) (slot : Z)
    : Run unit :=
  let beacon := beacon_at w slot in
  emit (SleepBlockTimeout slot);;
  do potential_block <-
    ask (ReqPotentialBlock slot) (get_potential_block beacon slot);
  (match potential_block with
   | Some block =>
       ext w process_suboptimal_attestations slot;;
       ext w process_fee_recipients slot
   | None => ret tt
   end);;
  ext w process_sync_committee_reward slot;;
  ext w process_missed_blocks_head slot;;
  let is_our_validator := is_our_validator_at w slot in
  if is_our_validator && bool_decide (potential_block <> None) then
    Relays.process (relays_url cfg) (http_at w slot) (b_registry b) slot
      (b_our_labels b);;
    ext w process_block_reward slot
  else ret tt.

(** One iteration of the [for] loop of [_handler]. *)
Definition iteration (w : World) (cfg : Config) (slack : option Slack)
    (st : Locals) (idx : nat) (slot : Z) : Run Locals :=
  if slot <? 0 then
    before_genesis w cfg slot;;
    ret st
  else
    let beacon := beacon_at w slot in
    let epoch := slot / NB_SLOT_PER_EPOCH in
    emit (GaugeSet "slot" (Qz slot));;
    emit (GaugeSet "epoch" (Qz epoch));;
    let is_new_epoch := is_None_or_differs (previous_epoch st) epoch in
    let last_processed_finalized_slot :=
      match last_processed_finalized_slot st with
      | None => slot
      | Some s => s
      end in
    do b <- (if is_new_epoch then new_epoch w cfg st slot epoch
             else ret (keep st));
    (match previous_epoch st with
     | Some previous_epoch =>
         if negb (previous_epoch =? epoch)
         then emit (Print (MsgEpochStarts epoch)) else ret tt
     | None => ret tt
     end);;
    do '(our_validators_indexes_that_missed_attestation,
         last_missed_attestations_process_epoch) <-
      missed_attestations_step w cfg slack st b slot;
    do last_rewards_process_epoch <- rewards_step w cfg st b slot;
    process_future_blocks_proposal beacon (b_our_pubkeys b) slot
      is_new_epoch (relays_url cfg) (http_at w slot) (b_our_labels b);;
    ext w process_missed_blocks_finalized slot;;
    let last_processed_finalized_slot := finalized_cursor_at w slot in
    block_step w cfg b slot;;
    let our_validators_indexes_that_missed_previous_attestation :=
      our_validators_indexes_that_missed_attestation in
    let previous_epoch := Some epoch in
    (if bool_decide (liveness_file cfg <> None)
     then ext w write_liveness_file slot else ret tt);;
    (if (idx =? 0)%nat then emit (StartHttpServer 8000) else ret tt);;
    ret {| our_pubkeys := b_our_pubkeys b;
           our_labels := b_our_labels b;
           our_active_idx2val := b_our_active_idx2val b;
           our_validators_indexes_that_missed_attestation :=
             our_validators_indexes_that_missed_attestation;
           our_validators_indexes_that_missed_previous_attestation :=
             our_validators_indexes_that_missed_previous_attestation;
           our_epoch2active_idx2val := b_our_epoch2active_idx2val b;
           net_epoch2active_idx2val := b_net_epoch2active_idx2val b;
           last_missed_attestations_process_epoch :=
             last_missed_attestations_process_epoch;
           last_rewards_process_epoch := last_rewards_process_epoch;
           previous_epoch := previous_epoch;
           last_processed_finalized_slot :=
             Some last_processed_finalized_slot;
           registry := b_registry b |}.

(** The [for] loop over the slots yielded so far. *)
Definition loop (w : World) (cfg : Config) (slack : option Slack)
    (its : list (nat * Z)) (st : Locals) : Run Locals :=
  for_fold (fun st (it : nat * Z) => iteration w cfg slack st it.1 it.2)
    its st.

(** [_handler], observed for the first [n] slots. *)
Definition _handler (w : World) (cfg : Config) (n : nat) : Run Locals :=
  if bool_decide (fee_recipients cfg <> None)
     && bool_decide (execution_url cfg = None)
  then raise BadParameter
  else
    do fee_recipients <-
      match fee_recipients cfg with
      | Some l =>
          try_except
            (do l' <- map_M (fun fee_recipient =>
                        lift (eth1_address_lower_0x_prefixed w fee_recipient))
                        l;
             ret (Some l'))
            is_ValueError (raise BadParameter)
      | None => ret None
      end;
    if bool_decide (slack_channel cfg <> None)
       && bool_decide (slack_token cfg = None)
    then raise BadParameter
    else
      let slack :=
        match slack_channel cfg, slack_token cfg with
        | Some c, Some t => Some {| channel := c; token := t |}
        | _, _ => None
        end in
      do genesis_time <- ask ReqGenesis (get_genesis (startup_beacon w));
      loop w cfg slack (enumerate (slots genesis_time (now w) n))
        initial_locals.

End Entrypoint.

(** ** Expected behaviour, in the words of the specification *)

(** What one relay contributes to the per-block check when the labels map
    is configured: its request and, if it delivered the payload, one
    increment of the MEV-boost reward counter, labelled with the
    proposer's labels and the relay's display name, by [value / 1e9]. *)
Definition mev_reward_events (our_labels : OurLabels) (slot : Z)
    (answers : string -> option ProposerPayloadDelivered) (url : string)
    : list event :=
  Request (ReqPayloadDelivered url slot) ::
  match answers url with
  | Some p =>
      [CounterInc Relays.our_mev_boost_reward_per_validator_count
         (<[Relays.RELAY_KEY := default String.EmptyString (Relays.RELAY_MAPPING !! url)]>
            (default ∅ (our_labels !! proposer_pubkey p)))
         (payload_value p # 1000000000)]
  | None => []
  end.

(** What one relay contributes to the registration check: the events of
    one call of [__builder_validators] and, if that call ended in
    [RetryError], the line saying that the relay cannot be contacted. *)
Definition relay_query_events (http : Http) (url : string) : list event :=
  events (Relays.builder_validators http url)
  ++ match outcome (Relays.builder_validators http url) with
     | Raise RetryError => [Print (MsgCannotContactRelay url)]
     | _ => []
     end.

(** The relay answers the registration query, or exhausts its retries. *)
Definition answers_or_gives_up (http : Http) (url : string) : Prop :=
  match outcome (Relays.builder_validators http url) with
  | Ok _ => True
  | Raise e => e = RetryError
  end.

(** What a relay lists, [[]] if it could not be reached. *)
Definition relay_listing (http : Http) (url : string)
    : list RelayBuilderValidator :=
  match outcome (Relays.builder_validators http url) with
  | Ok data => data
  | Raise _ => []
  end.

(** A list of registrations has the duty's [(slot, pubkey)] pair. *)
Definition listed_in (data : list RelayBuilderValidator) (d : ProposerDuty)
    : bool :=
  existsb (fun item =>
             (rbv_slot item =? duty_slot d)
             && String.eqb (entry_pubkey item) (duty_pubkey d))
    data.

(** Some configured relay lists the duty's [(slot, pubkey)] pair. *)
Definition listed_by_some_relay (urls : list string) (http : Http)
    (d : ProposerDuty) : bool :=
  existsb (fun url => listed_in (relay_listing http url) d) urls.


(** A validator has both of its rows in a rewards response: its index in
    [total_rewards] and its effective balance in [ideal_rewards]. *)
Definition has_rewards_rows (data : RewardsData) (iv : Z * Validator) : Prop :=
  iv.1 ∈ total_validator_index <$> total_rewards data
  /\ effective_balance iv.2 ∈ ideal_effective_balance <$> ideal_rewards data.

#[global] Instance has_rewards_rows_dec data iv :
  Decision (has_rewards_rows data iv).
Proof. unfold has_rewards_rows. apply _. Defined.

(** The pubkey recorded for an index, and the labels of that pubkey. *)
Definition pubkey_at (index_to_validator : IndexToValidator) (index : Z)
    : string :=
  default String.EmptyString (pubkey <$> index_to_validator !! index).



(** Every index of the set is on record, with a labelled pubkey. *)
Definition all_labelled (our_labels : OurLabels)
    (index_to_validator : IndexToValidator) (indexes : gset Z) : Prop :=
  forall index, index ∈ indexes ->
    exists validator,
      index_to_validator !! index = Some validator
      /\ is_Some (our_labels !! pubkey validator).

(** The snapshot the missed-attestation probe reads at an epoch. *)
Definition selected (window : LimitedDict) (epoch : Z)
    (index_to_validator : IndexToValidator) : Prop :=
  if contains window (epoch - 1)
  then items window !! (epoch - 1) = Some index_to_validator
  else items window !! epoch = Some index_to_validator.

(** The short pubkeys a console line names: the first five. *)
Definition named (index_to_validator : IndexToValidator) (indexes : gset Z)
    : list string :=
  short <$> take 5 (pubkey_at index_to_validator <$> elements indexes).

(** ** Kinds of events *)

Definition is_liveness_request (ev : event) : Prop :=
  match ev with
  | Request (ReqValidatorsLiveness _ _ _) => True
  | _ => False
  end.

Definition is_duties_request (ev : event) : Prop :=
  match ev with
  | Request (ReqProposerDuties _) => True
  | _ => False
  end.

Definition is_start_http_server (ev : event) : Prop :=
  match ev with
  | StartHttpServer _ => True
  | _ => False
  end.

Definition is_missed_increment (ev : event) : Prop :=
  match ev with
  | CounterInc name _ _ =>
      name = MissedAttestations.missed_attestations_per_validator_count
  | _ => False
  end.

#[global] Instance is_liveness_request_dec ev :
  Decision (is_liveness_request ev).
Proof. destruct ev as [| | | | | | | |[]| | | |]; simpl; apply _. Defined.
#[global] Instance is_duties_request_dec ev : Decision (is_duties_request ev).
Proof. destruct ev as [| | | | | | | |[]| | | |]; simpl; apply _. Defined.
#[global] Instance is_start_http_server_dec ev :
  Decision (is_start_http_server ev).
Proof. destruct ev; simpl; apply _. Defined.
#[global] Instance is_missed_increment_dec ev :
  Decision (is_missed_increment ev).
Proof. destruct ev; simpl; apply _. Defined.

(** Neither a liveness request, nor a request for proposer duties, nor the
    start of the metrics server. *)
Definition ordinary (ev : event) : Prop :=
  match ev with
  | Request (ReqValidatorsLiveness _ _ _) => False
  | Request (ReqProposerDuties _) => False
  | StartHttpServer _ => False
  | _ => True
  end.

(** An ordinary event that is not a call to another module either. *)
Definition quiet (ev : event) : Prop :=
  match ev with
  | Probe _ _ => False
  | _ => ordinary ev
  end.



(** ** Scenarios *)

Module Scenario.

Definition P : string := "0xa1b2c3d4e5f60718".
Definition Q' : string := "0xb7c8d9e0f1a2b3c4".

Definition labels_P : OurLabels := {[ P := {[ "operator" := "kiln" ]} ]}.

Definition flashbots : string :=
  "https://0xac6e77dfe25ecd6110b8e780608cce0dab71fdd5ebea22a16c0205200f2f8e2e3ad3b71d3499c54ad14d6c21b41a37ae@boost-relay.flashbots.net".
Definition relay_1 : string := "http://relay-1.com".

Definition payload_P (slot : Z) : ProposerPayloadDelivered :=
  {| payload_slot := slot; payload_value := 5000000000;
     proposer_pubkey := P |}.

(** Every relay delivered the payload of every slot. *)
Definition delivering : Http := {|
  get_payload_delivered := fun _ slot _ => HttpJson [payload_P slot];
  get_builder_validators := fun _ _ => HttpJson []
|}.

(** No relay knows anything. *)
Definition silent : Http := {|
  get_payload_delivered := fun _ _ _ => HttpJson [];
  get_builder_validators := fun _ _ => HttpJson []
|}.

(** The registry once the relay counters were initialised for
    [labels_P]. *)
Definition reg_P : Registry :=
  {[ Relays.our_mev_boost_reward_per_validator_count :=
       ["operator"; Relays.RELAY_KEY];
     MissedAttestations.missed_attestations_per_validator_count :=
       ["operator"];
     MissedAttestations.double_missed_attestations_per_validator_count :=
       ["operator"] ]}.

(** Two duties at one slot, and a relay that lists the second. *)
Definition duty_P : ProposerDuty :=
  {| duty_pubkey := P; duty_validator_index := 42; duty_slot := 170 |}.
Definition duty_Q : ProposerDuty :=
  {| duty_pubkey := Q'; duty_validator_index := 43; duty_slot := 170 |}.

Definition lists_Q : Http := {|
  get_payload_delivered := fun _ _ _ => HttpJson [];
  get_builder_validators := fun _ _ =>
    HttpJson [ {| rbv_slot := 170; rbv_validator_index := 43;
                  entry_pubkey := Q' |} ]
|}.


Definition validator_P : Validator :=
  {| pubkey := P; effective_balance := 32000000000; slashed := false |}.

(** A window holding validator 42 at epochs 0, 1 and 2. *)
Definition window_42 : LimitedDict :=
  setitem (setitem (setitem (LimitedDict_new 3) 0 {[ 42 := validator_P ]})
             1 {[ 42 := validator_P ]})
    2 {[ 42 := validator_P ]}.

(** A beacon on which nothing happens: no validators, no duties, no
    blocks. *)
Definition quiet_beacon : Beacon := {|
  get_genesis := Ok 0;
  get_validators_liveness := fun _ _ _ => Ok ∅;
  get_rewards := fun _ _ _ =>
    Ok {| ideal_rewards := []; total_rewards := [] |};
  get_proposer_duties := fun _ => Ok [];
  get_potential_block := fun _ => Ok None;
  get_status_to_index_to_validator := Ok ∅
|}.

(** The same beacon reporting validator 42 dead. *)
Definition beacon_42_dead : Beacon := {|
  get_genesis := Ok 0;
  get_validators_liveness := fun _ _ _ => Ok {[ 42 := false ]};
  get_rewards := fun _ _ _ =>
    Ok {| ideal_rewards := []; total_rewards := [] |};
  get_proposer_duties := fun _ => Ok [];
  get_potential_block := fun _ => Ok None;
  get_status_to_index_to_validator := Ok ∅
|}.

(** A world in which every call succeeds; the loop starts at wall-clock
    time [t], genesis being at time 0. *)
Definition quiet_world (t : Z) : World := {|
  now := t;
  startup_beacon := quiet_beacon;
  beacon_at := fun _ => quiet_beacon;
  http_at := fun _ => silent;
  our_pubkeys_at := fun _ => Ok ∅;
  our_labels_at := fun _ => Ok ∅;
  ext_raises := fun _ _ => None;
  finalized_cursor_at := fun slot => slot;
  is_our_validator_at := fun _ => false;
  random_at := fun _ _ => 0%nat;
  eth1_address_lower_0x_prefixed := fun a => Ok a;
  CHUCK_NORRIS := ["Chuck Norris can divide by zero."]
|}.


Definition plain : Config := {|
  execution_url := None;
  fee_recipients := None;
  slack_channel := None;
  slack_token := None;
  beacon_type := OTHER;
  relays_url := [];
  liveness_file := None
|}.

(** The variables of the loop after slot 32 has been processed, in a run
    that started at that slot. *)
Definition after_slot_32 : Locals :=
  match outcome (Entrypoint.iteration (quiet_world 384) plain None
                   initial_locals 0 32) with
  | Ok st => st
  | Raise _ => initial_locals
  end.


End Scenario.

(** ** Statements about the relay check *)

Section RelayStatements.
Import Relays.
Context (http : Http) (slot : Z) (our_labels : OurLabels)
        (answers : string -> option ProposerPayloadDelivered).

(** Every relay of the list answers at once, with at most one record. *)
Definition answered (urls : list string) : Prop :=
  forall url, url ∈ urls ->
    get_payload_delivered http url slot 0
    = HttpJson (option_list (answers url)).

Definition requests (urls : list string) : list event :=
  (fun url => Request (ReqPayloadDelivered url slot)) <$> urls.

(** The relays are known and the proposers are labelled. *)
Definition creditable (urls : list string) : Prop :=
  forall url p, url ∈ urls -> answers url = Some p ->
    is_Some (RELAY_MAPPING !! url)
    /\ is_Some (our_labels !! proposer_pubkey p).

End RelayStatements.

(** ** Statements about the rewards probe *)

Section RewardsStatements.
Import Rewards.


End RewardsStatements.

(** ** Statements about the missed-attestation probes *)

Section MissedStatements.
Import MissedAttestations.
Context (bt : BeaconType) (epoch : Z) (slack : option Slack)
        (index_to_validator : IndexToValidator).

(** The events of a run of [process_missed_attestations] that reaches
    the liveness query, up to the console line. *)
Definition missed_report (dead : gset Z) : list event :=
  [Request (ReqValidatorsLiveness bt (epoch - 1) (dom index_to_validator));
   GaugeSet metric_missed_attestations_count (Qz (Z.of_nat (size dead)))]
  ++ if bool_decide (dead = ∅) then []
     else [Print (MsgMissedAttestation (named index_to_validator dead)
                    (Z.of_nat (size dead)
                     - Z.of_nat (length (named index_to_validator dead)))
                    (epoch - 1))].

(** The line that raises a double miss, on the console and in the chat. *)
Definition double_miss_line (double : gset Z) : message :=
  MsgDoubleMissedAttestation (named index_to_validator double)
    (Z.of_nat (size double)
     - Z.of_nat (length (named index_to_validator double)))
    (epoch - 2).

(** The events of a run of [process_double_missed_attestations], up to
    the chat message. *)
Definition double_miss_report (double : gset Z) : list event :=
  GaugeSet metric_double_missed_attestations_count
    (Qz (Z.of_nat (size double)))
  :: if bool_decide (double = ∅) then []
     else Print (double_miss_line double)
          :: match slack with
             | Some _ => [SlackSend (double_miss_line double)]
             | None => []
             end.

End MissedStatements.

(** ** Statements about the loop *)

Section LoopStatements.
Import NextBlocksProposal MissedAttestations Entrypoint.
Context (w : World).


(** The number of upcoming slots of the watched set among the duties of two
    epochs. *)
Definition upcoming (our_pubkeys : gset string) (slot : Z)
    (current next : list ProposerDuty) : Z :=
  Z.of_nat
    (length (filter (fun item =>
                       duty_pubkey item ∈ our_pubkeys /\ slot <= duty_slot item)
               (current ++ next))).

(** The two queries and the publication of the count. *)
Definition duties_report (our_pubkeys : gset string) (slot : Z)
    (current next : list ProposerDuty) : list event :=
  [Request (ReqProposerDuties (slot / NB_SLOT_PER_EPOCH));
   Request (ReqProposerDuties (slot / NB_SLOT_PER_EPOCH + 1));
   GaugeSet future_block_proposals_count
     (Qz (upcoming our_pubkeys slot current next))].





End LoopStatements.

(** ** Statements about the retries of a relay request *)

(** A request that ended in [ConnectionError] [k] times, each failure
    followed by the wait, and was then sent once more. *)
Definition attempts (req : request) (k : nat) : list event :=
  concat (replicate k [Request req; SleepSec Relays.WAIT_SEC])
  ++ [Request req].

(** How the answer to the last attempt ends a call of
    [__proposer_payload_delivered], of [__is_proposer_payload_delivered]
    and of [__builder_validators]. *)
Definition payload_answer (r : http_result (list ProposerPayloadDelivered))
    : result (option ProposerPayloadDelivered) :=
  match r with
  | HttpConnectionError => Raise ConnectionError
  | HttpRetryError => Raise RetryError
  | HttpErrorStatus => Raise HTTPError
  | HttpJson body =>
      if (1 <? length body)%nat then Raise AssertionError else Ok (head body)
  end.

Definition delivered_answer (r : http_result (list ProposerPayloadDelivered))
    : result bool :=
  match r with
  | HttpConnectionError => Raise ConnectionError
  | HttpRetryError => Raise RetryError
  | HttpErrorStatus => Raise HTTPError
  | HttpJson body =>
      if (1 <? length body)%nat then Raise AssertionError
      else Ok (bool_decide (body <> []))
  end.

Definition validators_answer (r : http_result (list RelayBuilderValidator))
    : result (list RelayBuilderValidator) :=
  match r with
  | HttpConnectionError => Raise ConnectionError
  | HttpRetryError => Raise RetryError
  | HttpErrorStatus => Raise HTTPError
  | HttpJson body => Ok body
  end.

(** The attempt that decides: the connection failed [k] times before it,
    and it either answered or was the last one allowed. *)
Definition decided_at {A} (get : nat -> http_result A) (k : nat) : Prop :=
  (k <= Relays.MAX_TRIALS)%nat
  /\ (forall i, (i < k)%nat -> get i = HttpConnectionError)
  /\ (k = Relays.MAX_TRIALS \/ get k <> HttpConnectionError).

(** ** Statements about the registration check *)

(** The duty given last for a slot. *)
Definition last_duty_at (slot_proposals : list ProposerDuty) (s : Z)
    : option ProposerDuty :=
  last (filter (fun d => duty_slot d = s) slot_proposals).

(** Some configured relay lists the slot with the pubkey of the duty given
    last for it. *)
Definition slot_registered (urls : list string) (http : Http)
    (slot_proposals : list ProposerDuty) (s : Z) : bool :=
  match last_duty_at slot_proposals s with
  | Some d => listed_by_some_relay urls http d
  | None => false
  end.

(** ** Scenarios at the edges *)

Module Edge.

(** Every relay refuses the connection [n] times, then answers as
    [Scenario.delivering] does, listing [Q'] at slot 170. *)
Definition flaky (n : nat) : Http := {|
  get_payload_delivered := fun _ slot i =>
    if (i <? n)%nat then HttpConnectionError
    else HttpJson [Scenario.payload_P slot];
  get_builder_validators := fun _ i =>
    if (i <? n)%nat then HttpConnectionError
    else HttpJson [ {| rbv_slot := 170; rbv_validator_index := 43;
                       entry_pubkey := Scenario.Q' |} ]
|}.

(** The flashbots relay knows nothing; every other relay delivered the
    payload. *)
Definition all_but_flashbots : Http := {|
  get_payload_delivered := fun url slot _ =>
    if String.eqb url Scenario.flashbots then HttpJson []
    else HttpJson [Scenario.payload_P slot];
  get_builder_validators := fun _ _ => HttpJson []
|}.

(** The flashbots relay knows nothing; every other relay answers with an
    error status. *)
Definition failing_but_flashbots : Http := {|
  get_payload_delivered := fun url slot _ =>
    if String.eqb url Scenario.flashbots then HttpJson []
    else HttpErrorStatus;
  get_builder_validators := fun url _ =>
    if String.eqb url Scenario.flashbots then HttpJson []
    else HttpErrorStatus
|}.

(** A beacon on which [P] proposes at slot 170, in epoch 5. *)
Definition beacon_P_proposes : Beacon := {|
  get_genesis := Ok 0;
  get_validators_liveness := fun _ _ _ => Ok ∅;
  get_rewards := fun _ _ _ =>
    Ok {| ideal_rewards := []; total_rewards := [] |};
  get_proposer_duties := fun epoch =>
    if epoch =? 5 then Ok [Scenario.duty_P] else Ok [];
  get_potential_block := fun _ => Ok None;
  get_status_to_index_to_validator := Ok ∅
|}.

(** The quiet world, except that the file of pubkeys is invalid. *)
Definition invalid_pubkeys_world (t : Z) : World := {|
  now := t;
  startup_beacon := Scenario.quiet_beacon;
  beacon_at := fun _ => Scenario.quiet_beacon;
  http_at := fun _ => Scenario.silent;
  our_pubkeys_at := fun _ => Raise ValueError;
  our_labels_at := fun _ => Ok ∅;
  ext_raises := fun _ _ => None;
  finalized_cursor_at := fun slot => slot;
  is_our_validator_at := fun _ => false;
  random_at := fun _ _ => 0%nat;
  eth1_address_lower_0x_prefixed := fun a => Ok a;
  CHUCK_NORRIS := ["Chuck Norris can divide by zero."]
|}.

End Edge.

(** ** Statements about the exceptions of a computation *)

(** Every exception the computation can end with satisfies [P]. *)
Definition raises_only {E A} (P : exn -> Prop) (m : M E A) : Prop :=
  forall e, outcome m = Raise e -> P e.

(** Every index of the set is on record. *)
Definition on_record (index_to_validator : IndexToValidator)
    (indexes : gset Z) : Prop :=
  indexes ⊆ dom index_to_validator.

(** ** Statements about the rewards probe *)

(** The pubkeys that [_log] finds not perfect, in the order of the
    validators. *)
Definition imperfect (pubkeys : list string) (are_ideal : list bool)
    : list string :=
  (filter (fun pp : string * bool => pp.2 = false) (zip pubkeys are_ideal)).*1.

(** The increment made for one validator and one value: on the counter of
    the value's sign, by the absolute value. *)
Definition signed_increment (pos neg : string) (labels_dict : OurLabels)
    (pv : string * Z) : event :=
  CounterInc (if 0 <=? pv.2 then pos else neg)
    (default ∅ (labels_dict !! pv.1)) (Qz (Z.abs pv.2)).

(** The sums of three lists, element by element, as far as the shortest
    goes. *)
Definition sums3 (sources targets heads : list Z) : list Z :=
  (fun x : Z * Z * Z => x.1.1 + x.1.2 + x.2)
    <$> zip (zip sources targets) heads.

(** The exceptions of the rewards probe itself, and those of its
    requests. *)
Definition rewards_exception (beacon : Beacon) (bt : BeaconType) (epoch : Z)
    (e : exn) : Prop :=
  e = KeyError \/ e = ValueError \/ e = AttributeError
  \/ exists indices, get_rewards beacon bt (epoch - 2) indices = Raise e.

(** ** Statements about the future-proposal probe *)

(** The lines printed at the first slot processed in an epoch: one for
    each upcoming proposal of the watched set. *)
Definition proposal_lines (our_pubkeys : gset string) (slot : Z)
    (current next : list ProposerDuty) : list event :=
  (fun item =>
     Print (MsgFutureProposal (short (duty_pubkey item)) (duty_slot item)
              (duty_slot item - slot)))
    <$> filter (fun item =>
                  duty_pubkey item ∈ our_pubkeys /\ slot <= duty_slot item)
          (current ++ next).

(** The probe gets as far as its call of the registration check: at the
    first slot processed in an epoch, with an upcoming proposal of the
    watched set, with labels, and with a proposal of the watched set in
    the current epoch. *)
Definition reaches_registration_check (our_pubkeys : gset string) (slot : Z)
    (is_new_epoch : bool) (our_labels : OurLabels)
    (current next : list ProposerDuty) : Prop :=
  is_new_epoch = true
  /\ 0 < upcoming our_pubkeys slot current next
  /\ len our_labels <> 0
  /\ exists item, item ∈ current /\ duty_pubkey item ∈ our_pubkeys.

Definition is_not_registered_line (ev : event) : Prop :=
  match ev with
  | Print (MsgNotRegistered _ _ _) => True
  | _ => False
  end.

Definition is_relay_request (ev : event) : Prop :=
  match ev with
  | Request (ReqPayloadDelivered _ _) => True
  | Request (ReqBuilderValidators _) => True
  | _ => False
  end.

(** ** Statements about the options and the loop *)

(** Every fee recipient given is a valid address. *)
Definition valid_fee_recipients (w : World) (cfg : Config) : Prop :=
  match fee_recipients cfg with
  | None => True
  | Some l =>
      forall fee, fee ∈ l -> exists a, eth1_address_lower_0x_prefixed w fee = Ok a
  end.

(** The first fee recipient that is not a valid address is rejected with
    [ValueError]. *)
Definition invalid_fee_recipient (w : World) (cfg : Config) : Prop :=
  exists before fee after,
    fee_recipients cfg = Some (before ++ fee :: after)
    /\ (forall f, f ∈ before ->
          exists a, eth1_address_lower_0x_prefixed w f = Ok a)
    /\ eth1_address_lower_0x_prefixed w fee = Raise ValueError.

(** The exception that ends the iteration when the loading of the pubkeys
    or of the labels raises [e]. *)
Definition loading_error (e : exn) : exn :=
  if Entrypoint.is_ValueError e then BadParameter else e.

Definition is_request (ev : event) : Prop :=
  match ev with
  | Request _ => True
  | _ => False
  end.

(** What a slot before genesis can emit: console lines and the writing of
    the liveness file. *)
Definition before_genesis_event (slot : Z) (ev : event) : Prop :=
  match ev with
  | Print (MsgChainStart _) | Print (MsgChuckNorris _) => True
  | Probe write_liveness_file s => s = slot
  | _ => False
  end.

(** What the epoch block emits and no other part of an iteration does: the
    loading of the pubkeys and of the labels, and the request for the
    validators. *)
Definition is_epoch_block_event (ev : event) : Prop :=
  match ev with
  | Probe get_our_pubkeys _ | Probe get_our_labels _ => True
  | Request ReqStatusToIndexToValidator => True
  | MetricCreate _ _ | SeriesInit _ _ => True
  | _ => False
  end.

#[global] Instance is_request_dec ev : Decision (is_request ev).
Proof. destruct ev; simpl; apply _. Defined.

(** The loading of the pubkeys, and then of the labels, raises [e]. *)
Definition loading_raises (w : World) (slot : Z) (e : exn) : Prop :=
  our_pubkeys_at w slot = Raise e
  \/ ((exists pubkeys, our_pubkeys_at w slot = Ok pubkeys)
      /\ our_labels_at w slot = Raise e).

(** ** Statements about the schedule of the rewards probe *)

(** A network-wide request for rewards. *)
Definition is_net_rewards_request (ev : event) : Prop :=
  match ev with
  | Request (ReqRewards _ _ None) => True
  | _ => False
  end.

(** The epochs whose network-wide rewards a trace asks for, in order. *)
Definition rewards_epochs (trace : list event) : list Z :=
  omap (fun ev =>
          match ev with
          | Request (ReqRewards _ epoch None) => Some epoch
          | _ => None
          end) trace.

(** What a computation asks about network-wide rewards (nothing, or one of
    the lists [S] allows) and what it returns. *)
Definition asks_rewards {A} (S : list Z -> Prop) (R : A -> Prop) (m : Run A)
    : Prop :=
  (rewards_epochs (events m) = [] \/ S (rewards_epochs (events m)))
  /\ forall a, outcome m = Ok a -> R a.

(** The rewards probe is due: the slot is late enough in its epoch, and the
    probe has not run in this epoch yet. *)
Definition rewards_due (st : Locals) (slot : Z) : bool :=
  (0 <=? slot)
  && (SLOT_FOR_REWARDS_PROCESS <=? slot mod NB_SLOT_PER_EPOCH)
  && is_None_or_differs (last_rewards_process_epoch st)
       (slot / NB_SLOT_PER_EPOCH).

(** The epoch recorded as processed for rewards once the slot is. *)
Definition rewards_recorded (st : Locals) (slot : Z) : option Z :=
  if rewards_due st slot then Some (slot / NB_SLOT_PER_EPOCH)
  else last_rewards_process_epoch st.

(** What holds between two iterations: no epoch has had its rewards asked
    for twice, and the epochs asked for are at least two before the one
    recorded, which is not ahead of the slot. *)
Definition rewards_settled (st : Locals) (trace : list event) (slot : Z)
    : Prop :=
  NoDup (rewards_epochs trace)
  /\ match last_rewards_process_epoch st with
     | None => rewards_epochs trace = []
     | Some e =>
         e <= slot / NB_SLOT_PER_EPOCH
         /\ forall x, x ∈ rewards_epochs trace -> x + 2 <= e
     end.

(** * Properties *)

(** ** The monad *)

Section MonadFacts.
Context {E : Type}.
Implicit Types (e : exn).

Lemma bind_ok {A B} (m : M E A) (f : A -> M E B) a :
  outcome m = Ok a ->
  bind m f = mkM (events m ++ events (f a)) (outcome (f a)).
Proof. intros H. unfold bind. rewrite H. reflexivity. Qed.

Lemma bind_raise {A B} (m : M E A) (f : A -> M E B) e :
  outcome m = Raise e -> bind m f = mkM (events m) (Raise e).
Proof. intros H. unfold bind. rewrite H. reflexivity. Qed.

Lemma bind_ret {A B} (a : A) (f : A -> M E B) : bind (ret a) f = f a.
Proof. unfold bind, ret. simpl. destruct (f a); reflexivity. Qed.

Lemma bind_mk_ok {A B} evs (a : A) (f : A -> M E B) :
  bind (mkM evs (Ok a)) f = mkM (evs ++ events (f a)) (outcome (f a)).
Proof. reflexivity. Qed.

Lemma bind_mk_raise {A B} evs e (f : A -> M E B) :
  bind (mkM evs (Raise e)) f = mkM evs (Raise e).
Proof. reflexivity. Qed.

Lemma M_eta {A} (m : M E A) : mkM (events m) (outcome m) = m.
Proof. destruct m; reflexivity. Qed.

Lemma outcome_bind_raise {A B} (m : M E A) (f : A -> M E B) e :
  outcome m = Raise e -> outcome (bind m f) = Raise e.
Proof. intros H. rewrite (bind_raise _ _ _ H). reflexivity. Qed.

(** A bind that ends well: both parts did, and the events add up. *)
Lemma bind_ok_inv {A B} (m : M E A) (f : A -> M E B) b :
  outcome (bind m f) = Ok b ->
  exists a, outcome m = Ok a /\ outcome (f a) = Ok b
            /\ events (bind m f) = events m ++ events (f a).
Proof.
  unfold bind. destruct (outcome m) as [a|e] eqn:Hm; simpl; [|discriminate].
  intros H. exists a. auto.
Qed.

(** What a computation emitted stays in front of what follows. *)
Lemma events_bind_prefix {A B} (m : M E A) (f : A -> M E B) :
  events m `prefix_of` events (bind m f).
Proof.
  unfold bind. destruct (outcome m); simpl.
  - eexists; reflexivity.
  - exists []. by rewrite app_nil_r.
Qed.

Lemma for_fold_app {A S} (body : S -> A -> M E S) l1 l2 s :
  for_fold body (l1 ++ l2) s = bind (for_fold body l1 s) (for_fold body l2).
Proof.
  revert s. induction l1 as [|x l1 IH]; intros s; simpl.
  - by rewrite bind_ret.
  - unfold bind at 1 3. destruct (outcome (body s x)) as [s'|e] eqn:Hb; simpl.
    + rewrite IH. unfold bind at 2.
      destruct (outcome (for_fold body l1 s')) as [s''|e] eqn:Hf; simpl.
      * unfold bind. rewrite Hf. simpl. by rewrite app_assoc.
      * unfold bind. rewrite Hf. simpl. reflexivity.
    + reflexivity.
Qed.

End MonadFacts.

(** ** Properties of all the events of a computation *)

Section Emits.
Context {E : Type} (P : E -> Prop).

Lemma emits_ret {A} (a : A) : emits P (ret a).
Proof. constructor. Qed.

Lemma emits_raise {A} e : emits P (raise e : M E A).
Proof. constructor. Qed.

Lemma emits_lift {A} (r : result A) : emits P (lift r).
Proof. constructor. Qed.

Lemma emits_emit ev : P ev -> emits P (emit ev).
Proof. intros H. by repeat constructor. Qed.

Lemma emits_bind {A B} (m : M E A) (f : A -> M E B) :
  emits P m -> (forall a, outcome m = Ok a -> emits P (f a)) ->
  emits P (bind m f).
Proof.
  unfold emits, bind. intros Hm Hf.
  destruct (outcome m) as [a|e]; simpl; [|done].
  apply Forall_app. split; [done|by apply Hf].
Qed.

Lemma emits_try_except {A} (m h : M E A) is_handled :
  emits P m -> emits P h -> emits P (try_except m is_handled h).
Proof.
  unfold emits, try_except. intros Hm Hh.
  destruct (outcome m) as [|e]; [done|].
  destruct (is_handled e); simpl; [|done].
  apply Forall_app. by split.
Qed.

Lemma emits_for_fold {A S} (body : S -> A -> M E S) l s :
  (forall s x, emits P (body s x)) -> emits P (for_fold body l s).
Proof.
  intros Hb. revert s. induction l as [|x l IH]; intros s; simpl.
  - apply emits_ret.
  - apply emits_bind; [apply Hb|intros; apply IH].
Qed.

Lemma emits_for_each {A} (body : A -> M E unit) l :
  (forall x, emits P (body x)) -> emits P (for_each body l).
Proof.
  intros Hb. induction l as [|x l IH]; simpl.
  - apply emits_ret.
  - apply emits_bind; [apply Hb|done].
Qed.

Lemma emits_map_M {A B} (f : A -> M E B) l :
  (forall x, emits P (f x)) -> emits P (map_M f l).
Proof.
  intros Hf. induction l as [|x l IH]; simpl.
  - apply emits_ret.
  - apply emits_bind; [apply Hf|intros y _].
    apply emits_bind; [done|intros ys _; apply emits_ret].
Qed.

Lemma emits_getitem {K V} `{Countable K} (d : gmap K V) k :
  emits P (getitem d k).
Proof. unfold getitem. destruct (d !! k); constructor. Qed.
End Emits.

(** The events selected by [P] add up along a bind. *)
Lemma filter_events_bind {E A B} (P : E -> Prop) `{!forall x, Decision (P x)}
    (m : M E A) (f : A -> M E B) :
  filter P (events (bind m f))
  = filter P (events m)
    ++ match outcome m with
       | Ok a => filter P (events (f a))
       | Raise _ => []
       end.
Proof.
  unfold bind. destruct (outcome m); simpl.
  - apply filter_app.
  - by rewrite app_nil_r.
Qed.

(** A computation none of whose events is selected. *)
Lemma filter_events_nil {E A} (P : E -> Prop) `{!forall x, Decision (P x)}
    (m : M E A) :
  emits (fun ev => ~ P ev) m -> filter P (events m) = [].
Proof.
  unfold emits. induction (events m) as [|ev l IH]; intros Hall; [done|].
  apply Forall_cons in Hall as [Hev Hl].
  rewrite filter_cons_False by done. by apply IH.
Qed.

(** Symbolic execution of a computation for [emits]: one step per
    construct of the monad, with a case split at each branch. *)
Ltac emits_step :=
  lazymatch goal with
  | |- emits _ (bind _ _) => apply emits_bind; [|intros]
  | |- emits _ (ret _) => apply emits_ret
  | |- emits _ (raise _) => apply emits_raise
  | |- emits _ (lift _) => apply emits_lift
  | |- emits _ (emit _) => apply emits_emit; simpl; try done
  | |- emits _ (getitem _ _) => apply emits_getitem
  | |- emits _ (try_except _ _ _) => apply emits_try_except
  | |- emits _ (for_fold _ _ _) => apply emits_for_fold; intros
  | |- emits _ (for_each _ _) => apply emits_for_each; intros
  | |- emits _ (map_M _ _) => apply emits_map_M; intros
  | |- emits _ (if ?b then _ else _) => destruct b
  | |- emits _ (match ?x with _ => _ end) => destruct x
  | |- emits _ (let _ := _ in _) => cbv zeta
  end.

Ltac emits_auto := repeat emits_step.

(** The helpers of the model, opened on the way. *)
Ltac emits_unfold :=
  progress unfold ask, Entrypoint.ext, family, send_message, window_get,
    Relays.unknown_builder, Rewards.signed_inc, Rewards.window_of,
    MissedAttestations.pubkeys_of.

Ltac emits_model := repeat (emits_step || emits_unfold); try tauto.

Section EmitsModel.
Context (P : event -> Prop).

Lemma emits_ask {A} r (answer : result A) :
  P (Request r) -> emits P (ask r answer).
Proof. intros H. unfold ask. emits_auto. Qed.

Lemma emits_ext w p slot : P (Probe p slot) -> emits P (Entrypoint.ext w p slot).
Proof. intros H. unfold Entrypoint.ext. emits_auto. Qed.

Lemma emits_family reg name : emits P (family reg name).
Proof. unfold family. emits_auto. Qed.
End EmitsModel.

(** Running the binds whose first computation is known. *)
Ltac run_binds :=
  unfold emit, lift, ret;
  repeat (rewrite ?bind_mk_ok, ?bind_mk_raise; cbn [events outcome]).

(** ** The relay verifier *)

Section RelayFacts.
Import Relays.
Implicit Types (urls : list string) (http : Http) (slot : Z).

Lemma head_option_list {A} (o : option A) : head (option_list o) = o.
Proof. destruct o; reflexivity. Qed.

Lemma proposer_payload_delivered_answered http url slot o :
  get_payload_delivered http url slot 0 = HttpJson (option_list o) ->
  proposer_payload_delivered http url slot
  = mkM [Request (ReqPayloadDelivered url slot)] (Ok o).
Proof.
  intros H. unfold proposer_payload_delivered. simpl. rewrite H.
  destruct o; reflexivity.
Qed.

Lemma is_proposer_payload_delivered_answered http url slot
    (o : option ProposerPayloadDelivered) :
  get_payload_delivered http url slot 0 = HttpJson (option_list o) ->
  is_proposer_payload_delivered http url slot
  = mkM [Request (ReqPayloadDelivered url slot)]
      (Ok (bool_decide (is_Some o))).
Proof.
  intros H. unfold is_proposer_payload_delivered. simpl. rewrite H.
  destruct o; reflexivity.
Qed.
End RelayFacts.

Section RelayCheck.
Import Relays.
Context (http : Http) (reg : Registry) (slot : Z) (our_labels : OurLabels)
        (answers : string -> option ProposerPayloadDelivered).

Lemma answered_cons url urls :
  answered http slot answers (url :: urls) ->
  get_payload_delivered http url slot 0 = HttpJson (option_list (answers url))
  /\ answered http slot answers urls.
Proof.
  intros Ha. split; [apply Ha; left|].
  intros u Hu. apply Ha. by right.
Qed.

Lemma any_of_none urls :
  answered http slot answers urls ->
  (forall url, url ∈ urls -> answers url = None) ->
  any_of (fun relay_url => is_proposer_payload_delivered http relay_url slot)
    urls
  = mkM (requests slot urls) (Ok false).
Proof.
  induction urls as [|url urls IH]; intros Ha Hn; [reflexivity|].
  apply answered_cons in Ha as [Hu Ha].
  simpl. rewrite (is_proposer_payload_delivered_answered _ _ _ _ Hu).
  rewrite (Hn url) by left. rewrite bind_mk_ok. simpl.
  rewrite IH; [reflexivity|done|]. intros u Hin. apply Hn. by right.
Qed.

Lemma any_of_some urls :
  answered http slot answers urls ->
  exists b,
    outcome (any_of (fun relay_url =>
                       is_proposer_payload_delivered http relay_url slot)
               urls) = Ok b
    /\ (b = true <-> exists url, url ∈ urls /\ is_Some (answers url))
    /\ events (any_of (fun relay_url =>
                         is_proposer_payload_delivered http relay_url slot)
                 urls) `prefix_of` requests slot urls.
Proof.
  induction urls as [|url urls IH]; intros Ha.
  - exists false. simpl. split; [done|]. split; [|done]. split; [done|].
    intros (u & Hu & _). by apply elem_of_nil in Hu.
  - apply answered_cons in Ha as [Hu Ha].
    simpl. rewrite (is_proposer_payload_delivered_answered _ _ _ _ Hu).
    rewrite bind_mk_ok. destruct (answers url) as [p|] eqn:Hp; simpl.
    + exists true. split; [done|]. split.
      * split; [|done]. intros _. exists url. split; [left|].
        by rewrite Hp.
      * exists (requests slot urls). reflexivity.
    + destruct (IH Ha) as (b & Hb & Hiff & Hpre).
      exists b. split; [done|]. split.
      * rewrite Hiff. split; intros (u & Hin & Hs).
        -- exists u. split; [by right|done].
        -- exists u. split; [|done].
           apply elem_of_cons in Hin as [->|Hin]; [|done].
           rewrite Hp in Hs. by destruct Hs.
      * by apply prefix_cons.
Qed.

Lemma credit_relays urls known_builder :
  answered http slot answers urls -> creditable our_labels answers urls ->
  is_Some (reg !! our_mev_boost_reward_per_validator_count) ->
  for_fold (credit_relay http reg slot our_labels) urls known_builder
  = mkM (concat (mev_reward_events our_labels slot answers <$> urls))
      (Ok (known_builder
           || existsb (fun url => bool_decide (is_Some (answers url))) urls)).
Proof.
  intros Ha Hc [names Hreg]. revert known_builder.
  induction urls as [|url urls IH]; intros kb.
  - simpl. by rewrite orb_false_r.
  - apply answered_cons in Ha as [Hu Ha].
    assert (creditable our_labels answers urls) as Hc'.
    { intros u p Hin. apply Hc. by right. }
    simpl. unfold credit_relay at 1.
    rewrite (proposer_payload_delivered_answered _ _ _ _ Hu).
    rewrite bind_mk_ok. unfold mev_reward_events at 1.
    destruct (answers url) as [p|] eqn:Hp.
    + destruct (Hc url p) as [[relay Hr] [labels Hl]]; [left|done|].
      unfold getitem, family. rewrite Hl, Hr, Hreg. simpl.
      rewrite bind_mk_ok, (IH Ha Hc' true). simpl.
      by rewrite orb_true_r.
    + simpl. rewrite bind_mk_ok. rewrite (IH Ha Hc' kb). reflexivity.
Qed.

Lemma credit_relays_none urls known_builder :
  answered http slot answers urls ->
  (forall url, url ∈ urls -> answers url = None) ->
  for_fold (credit_relay http reg slot our_labels) urls known_builder
  = mkM (requests slot urls) (Ok known_builder).
Proof.
  induction urls as [|url urls IH]; intros Ha Hn; [reflexivity|].
  apply answered_cons in Ha as [Hu Ha].
  simpl. unfold credit_relay at 1.
  rewrite (proposer_payload_delivered_answered _ _ _ _ Hu).
  rewrite (Hn url) by left. rewrite bind_mk_ok. simpl.
  rewrite bind_mk_ok, IH; [reflexivity|done|].
  intros u Hin. apply Hn. by right.
Qed.

Lemma existsb_answers urls :
  existsb (fun url => bool_decide (is_Some (answers url))) urls = true
  <-> exists url, url ∈ urls /\ is_Some (answers url).
Proof.
  rewrite existsb_exists. split; intros (u & Hin & Hs); exists u.
  - split; [by apply list_elem_of_In|by apply bool_decide_eq_true in Hs].
  - split; [by apply list_elem_of_In|by apply bool_decide_eq_true].
Qed.

Lemma mev_reward_events_no_bad_relay urls l a :
  CounterInc metric_bad_relay_count l a
  ∉ concat (mev_reward_events our_labels slot answers <$> urls).
Proof.
  induction urls as [|url urls IH]; [apply not_elem_of_nil|].
  rewrite fmap_cons. simpl. intros H.
  apply elem_of_cons in H as [H|H]; [discriminate|].
  apply elem_of_app in H as [H|H]; [|done].
  destruct (answers url); [|by apply elem_of_nil in H].
  apply list_elem_of_singleton in H. discriminate.
Qed.
End RelayCheck.

(** C4, as stated, fails when no labels map is configured: a relay
    delivered the payload of slot 120, and the check makes its request and
    returns without incrementing any MEV-boost reward counter. *)
Lemma relay_check_without_labels_credits_nothing :
  get_payload_delivered Scenario.delivering Scenario.flashbots 120 0
  = HttpJson [Scenario.payload_P 120]
  /\ Relays.process [Scenario.flashbots] Scenario.delivering Scenario.reg_P
       120 ∅
     = mkM [Request (ReqPayloadDelivered Scenario.flashbots 120)] (Ok tt).
Proof. split; reflexivity. Qed.

(** C4 (amended): in the per-block relay check with configured relay URLs,
    every relay answering at once with at most one record:
    - if no relay returns a record, the bad-relay counter is incremented
      by exactly one and the unknown-builder line is printed, and nothing
      else but the requests happens;
    - if some relay returns a record and the labels map is not empty (the
      relays being well-known ones and the proposers labelled), each record
      increments the per-validator MEV-boost reward counter, labelled with
      the relay's display name, by [value / 1e9], and the bad-relay counter
      is untouched;
    - if some relay returns a record and the labels map is empty, no
      counter at all is incremented. *)
Theorem relay_check_counters (urls : list string) (http : Http)
    (reg : Registry) (slot : Z) (our_labels : OurLabels)
    (answers : string -> option ProposerPayloadDelivered) :
  urls <> [] ->
  answered http slot answers urls ->
  let r := Relays.process urls http reg slot our_labels in
  ((forall url, url ∈ urls -> answers url = None) ->
     r = mkM (requests slot urls
              ++ [CounterInc Relays.metric_bad_relay_count no_labels 1;
                  Print MsgUnknownBuilder])
           (Ok tt))
  /\ ((exists url, url ∈ urls /\ is_Some (answers url)) ->
      len our_labels <> 0 ->
      is_Some (reg !! Relays.our_mev_boost_reward_per_validator_count) ->
      creditable our_labels answers urls ->
      r = mkM (concat (mev_reward_events our_labels slot answers <$> urls))
            (Ok tt)
      /\ forall l a, CounterInc Relays.metric_bad_relay_count l a ∉ events r)
  /\ ((exists url, url ∈ urls /\ is_Some (answers url)) ->
      len our_labels = 0 ->
      outcome r = Ok tt
      /\ forall name l a, CounterInc name l a ∉ events r).
Proof.
  intros Hne Ha r. subst r. unfold Relays.process.
  destruct urls as [|u0 urls']; [done|]. set (urls := u0 :: urls') in *.
  change (length urls =? 0)%nat with false. cbv iota.
  split; [|split].
  - intros Hnone. destruct (len our_labels =? 0).
    + rewrite (any_of_none _ _ _ _ Ha Hnone). reflexivity.
    + rewrite (credit_relays_none _ reg _ our_labels _ _ false Ha Hnone).
      reflexivity.
  - intros Hsome Hlen Hreg Hc.
    destruct (len our_labels =? 0) eqn:El; [lia|].
    rewrite (credit_relays _ _ _ _ _ _ false Ha Hc Hreg).
    apply existsb_answers in Hsome. rewrite Hsome. cbn [orb].
    rewrite bind_mk_ok. cbn [negb]. unfold ret. cbn [events outcome].
    rewrite app_nil_r. split; [done|].
    intros l a. apply mev_reward_events_no_bad_relay.
  - intros Hsome Hlen. rewrite Hlen. simpl.
    destruct (any_of_some _ _ _ _ Ha) as (b & Hb & Hiff & Hpre).
    apply Hiff in Hsome. subst b.
    rewrite (bind_ok _ _ _ Hb). simpl. split; [done|].
    intros name l a Hin. rewrite app_nil_r in Hin.
    destruct Hpre as [k Hk].
    assert (CounterInc name l a ∈ requests slot urls) as Hreq.
    { rewrite Hk. apply elem_of_app. by left. }
    unfold requests in Hreq. apply list_elem_of_fmap in Hreq as (u & Hu & _).
    discriminate.
Qed.

(** The amended C4 at slot 120: the flashbots relay delivered the payload
    of the labelled proposer [P]. *)
Lemma relay_check_counters_witness :
  Relays.process [Scenario.flashbots] Scenario.delivering Scenario.reg_P 120
    Scenario.labels_P
  = mkM [Request (ReqPayloadDelivered Scenario.flashbots 120);
         CounterInc Relays.our_mev_boost_reward_per_validator_count
           {[ "operator" := "kiln"; Relays.RELAY_KEY := "flashbots" ]}
           (5000000000 # 1000000000)]
      (Ok tt).
Proof.
  pose proof (relay_check_counters [Scenario.flashbots] Scenario.delivering
                Scenario.reg_P 120 Scenario.labels_P
                (fun _ => Some (Scenario.payload_P 120))) as H.
  destruct H as (_ & H & _); [discriminate| |].
  { intros url _. reflexivity. }
  destruct H as [H _].
  - exists Scenario.flashbots. split; [left|by eexists].
  - vm_compute. discriminate.
  - vm_compute. by eexists.
  - intros url p Hin Hp. apply list_elem_of_singleton in Hin. subst url.
    injection Hp as <-. split; vm_compute; by eexists.
  - rewrite H. vm_compute. reflexivity.
Defined.

(** C9: the per-block relay check with a non-empty labels map raises
    [KeyError] on a delivered payload when the relay URL is not one of the
    six well-known ones; the branch without labels handles the same relay. *)
Theorem relay_check_unknown_url_raises :
  Relays.RELAY_MAPPING !! Scenario.relay_1 = None
  /\ size Relays.RELAY_MAPPING = 6%nat
  /\ Relays.process [Scenario.relay_1] Scenario.delivering Scenario.reg_P 120
       Scenario.labels_P
     = mkM [Request (ReqPayloadDelivered Scenario.relay_1 120)]
         (Raise KeyError)
  /\ Relays.process [Scenario.relay_1] Scenario.delivering Scenario.reg_P 120 ∅
     = mkM [Request (ReqPayloadDelivered Scenario.relay_1 120)] (Ok tt).
Proof. repeat split; vm_compute; reflexivity. Qed.

(** ** Epoch boundaries of the probes *)

(** C6: for every epoch below 1, [process_missed_attestations] returns the
    empty set without querying liveness or touching a metric (it emits no
    event at all); for every epoch below 2,
    [process_double_missed_attestations] returns the empty set and
    [process_rewards] returns, both without any event. *)
Theorem early_epochs_disable_probes (beacon : Beacon) (bt : BeaconType)
    (our_window net_window : LimitedDict) (dead previous_dead : gset Z)
    (slack : option Slack) (our_labels : OurLabels) (reg : Registry)
    (e1 e2 : Z) :
  e1 < 1 -> e2 < 2 ->
  MissedAttestations.process_missed_attestations beacon bt our_window e1
    our_labels reg = mkM [] (Ok ∅)
  /\ MissedAttestations.process_double_missed_attestations dead previous_dead
       our_window e2 slack our_labels reg = mkM [] (Ok ∅)
  /\ Rewards.process_rewards beacon bt e2 net_window our_window our_labels reg
     = mkM [] (Ok tt).
Proof.
  intros H1 H2.
  unfold MissedAttestations.process_missed_attestations,
    MissedAttestations.process_double_missed_attestations,
    Rewards.process_rewards.
  apply Z.ltb_lt in H1, H2. rewrite H1, H2. done.
Qed.

(** C6 at epochs 0 and 1, on a beacon that would report validator 42 dead
    and with both of its misses on record. *)
Lemma early_epochs_disable_probes_witness :
  MissedAttestations.process_missed_attestations Scenario.beacon_42_dead
    OTHER Scenario.window_42 0 Scenario.labels_P Scenario.reg_P
  = mkM [] (Ok ∅)
  /\ MissedAttestations.process_double_missed_attestations {[ 42 ]} {[ 42 ]}
       Scenario.window_42 1 None Scenario.labels_P Scenario.reg_P
     = mkM [] (Ok ∅)
  /\ Rewards.process_rewards Scenario.beacon_42_dead OTHER 1
       Scenario.window_42 Scenario.window_42 Scenario.labels_P Scenario.reg_P
     = mkM [] (Ok tt).
Proof.
  apply (early_epochs_disable_probes Scenario.beacon_42_dead OTHER
           Scenario.window_42 Scenario.window_42 {[ 42 ]} {[ 42 ]} None
           Scenario.labels_P Scenario.reg_P 0 1); lia.
Defined.

(** ** The two passes of the rewards probe *)

Section RewardsPasses.
Import Rewards.

Lemma map_M_ret {E A B} (f : A -> M E B) (g : A -> B) (l : list A) :
  (forall x, x ∈ l -> f x = ret (g x)) -> map_M f l = ret (g <$> l).
Proof.
  induction l as [|x l IH]; intros H; [reflexivity|].
  simpl. rewrite (H x) by left. rewrite bind_ret, IH.
  - reflexivity.
  - intros y Hy. apply H. by right.
Qed.


Lemma ideal_by_balance_dom (data : RewardsData) (b : Z) :
  is_Some (ideal_by_balance data !! b)
  <-> b ∈ ideal_effective_balance <$> ideal_rewards data.
Proof.
  unfold ideal_by_balance.
  assert (forall l (d : gmap Z Reward),
    is_Some (fold_left (fun d reward =>
               <[ideal_effective_balance reward :=
                   (ideal_source reward, ideal_target reward,
                    ideal_head reward)]> d) l d !! b)
    <-> is_Some (d !! b) \/ b ∈ ideal_effective_balance <$> l) as H.
  { induction l as [|r l IH]; intros d; simpl.
    - rewrite elem_of_nil. tauto.
    - rewrite IH, elem_of_cons, lookup_insert_is_Some. 
      destruct (decide (ideal_effective_balance r = b)); intuition congruence. }
  rewrite H, lookup_empty. split; [intros [[? ?]|?]|]; try done. by right.
Qed.

Lemma actual_by_index_dom (data : RewardsData) (i : Z) :
  is_Some (actual_by_index data !! i)
  <-> i ∈ total_validator_index <$> total_rewards data.
Proof.
  unfold actual_by_index.
  assert (forall l (d : gmap Z Reward),
    is_Some (fold_left (fun d reward =>
               <[total_validator_index reward :=
                   (total_source reward, total_target reward,
                    total_head reward)]> d) l d !! i)
    <-> is_Some (d !! i) \/ i ∈ total_validator_index <$> l) as H.
  { induction l as [|r l IH]; intros d; simpl.
    - rewrite elem_of_nil. tauto.
    - rewrite IH, elem_of_cons, lookup_insert_is_Some.
      destruct (decide (total_validator_index r = i)); intuition congruence. }
  rewrite H, lookup_empty. split; [intros [[? ?]|?]|]; try done. by right.
Qed.

Lemma has_rows_spec (data : RewardsData) (iv : Z * Validator) :
  has_rows (ideal_by_balance data) (actual_by_index data) iv = true
  <-> has_rewards_rows data iv.
Proof.
  unfold has_rows, has_rewards_rows.
  rewrite andb_true_iff, !bool_decide_eq_true.
  by rewrite ideal_by_balance_dom, actual_by_index_dom.
Qed.


End RewardsPasses.


(** ** The registration check *)

Section Registration.
Import Relays.
Context (http : Http) (slot_proposals : list ProposerDuty).

Local Abbreviation registrations0 := (no_registrations slot_proposals).
Local Abbreviation pubkeys := (pubkeys_by_slot slot_proposals).

Lemma registrations0_lookup (d : ProposerDuty) :
  d ∈ slot_proposals -> registrations0 !! duty_slot d = Some false.
Proof.
  unfold no_registrations.
  assert (forall l (r : gmap Z bool) s,
    (r !! s = Some false \/ s ∈ duty_slot <$> l) ->
    (forall k, is_Some (r !! k) -> r !! k = Some false) ->
    fold_left (fun r item => <[duty_slot item := false]> r) l r !! s
    = Some false) as H.
  { induction l as [|x l IH]; intros r s Hs Hr; simpl.
    - destruct Hs as [?|Hs]; [done|]. by apply elem_of_nil in Hs.
    - apply IH.
      + destruct (decide (duty_slot x = s)) as [->|Hne].
        * left. apply lookup_insert_eq.
        * rewrite lookup_insert_ne by done.
          destruct Hs as [?|Hs]; [by left|right].
          rewrite fmap_cons in Hs.
          apply elem_of_cons in Hs as [?|?]; [congruence|done].
      + intros k Hk. destruct (decide (duty_slot x = k)) as [->|Hne].
        * apply lookup_insert_eq.
        * rewrite lookup_insert_ne in Hk |- * by done. by apply Hr. }
  intros Hd. apply H.
  - right. by apply list_elem_of_fmap_2.
  - intros k [? Hk]. by rewrite lookup_empty in Hk.
Qed.


(** One entry of a relay's list, seen from one of the duties. *)
Lemma mark_registered_lookup (r : gmap Z bool)
    (item : RelayBuilderValidator) (d : ProposerDuty) (b : bool) :
  pubkeys !! duty_slot d = Some (duty_pubkey d) ->
  r !! duty_slot d = Some b ->
  mark_registered pubkeys r item !! duty_slot d
  = Some (b || listed_in [item] d).
Proof.
  intros Hp Hr. unfold mark_registered, listed_in. simpl.
  rewrite orb_false_r.
  destruct (decide (rbv_slot item = duty_slot d)) as [Heq|Hne].
  - rewrite Heq, Hp, Z.eqb_refl.
    rewrite (bool_decide_eq_true_2 (is_Some (r !! duty_slot d)))
      by (rewrite Hr; by eexists).
    simpl. destruct (String.eqb_spec (entry_pubkey item) (duty_pubkey d))
      as [He|He].
    + rewrite bool_decide_eq_true_2 by congruence.
      rewrite lookup_insert_eq. by rewrite orb_true_r.
    + rewrite bool_decide_eq_false_2 by congruence.
      by rewrite Hr, orb_false_r.
  - assert ((rbv_slot item =? duty_slot d) = false) as Hf
      by (by apply Z.eqb_neq).
    rewrite Hf.
    simpl. rewrite orb_false_r.
    destruct (_ && _); [by rewrite lookup_insert_ne|done].
Qed.

Lemma mark_all_lookup (data : list RelayBuilderValidator)
    (r : gmap Z bool) (d : ProposerDuty) (b : bool) :
  pubkeys !! duty_slot d = Some (duty_pubkey d) ->
  r !! duty_slot d = Some b ->
  fold_left (mark_registered pubkeys) data r !! duty_slot d
  = Some (b || listed_in data d).
Proof.
  intros Hp. revert r b.
  induction data as [|item data IH]; intros r b Hr; simpl.
  - by rewrite orb_false_r.
  - rewrite (IH _ _ (mark_registered_lookup r item d b Hp Hr)).
    unfold listed_in. simpl. by rewrite orb_false_r, orb_assoc.
Qed.

(** What one round of the loop over the relays does. *)
Lemma ask_relay_cases (r : gmap Z bool) (url : string) :
  answers_or_gives_up http url ->
  ask_relay http pubkeys r url
  = mkM (relay_query_events http url)
      (Ok (fold_left (mark_registered pubkeys) (relay_listing http url) r)).
Proof.
  unfold answers_or_gives_up, ask_relay, relay_query_events, relay_listing,
    try_except.
  destruct (builder_validators http url) as [evs [data|e]];
    unfold bind; simpl.
  - intros _. by rewrite !app_nil_r.
  - intros ->. simpl. by rewrite app_nil_r.
Qed.

Lemma ask_relays (urls : list string) (r : gmap Z bool) :
  (forall url, url ∈ urls -> answers_or_gives_up http url) ->
  exists r',
    for_fold (ask_relay http pubkeys) urls r
    = mkM (concat (relay_query_events http <$> urls)) (Ok r')
    /\ forall d b,
         pubkeys !! duty_slot d = Some (duty_pubkey d) ->
         r !! duty_slot d = Some b ->
         r' !! duty_slot d = Some (b || listed_by_some_relay urls http d).
Proof.
  revert r. induction urls as [|url urls IH]; intros r Hall.
  - exists r. split; [reflexivity|]. intros d b _ Hr.
    by rewrite orb_false_r.
  - destruct (IH (fold_left (mark_registered pubkeys)
                    (relay_listing http url) r)) as (r' & Hrun & Hr').
    { intros u Hu. apply Hall. by right. }
    exists r'. split.
    + simpl. rewrite ask_relay_cases by (apply Hall; left).
      rewrite bind_mk_ok, Hrun. reflexivity.
    + intros d b Hp Hr.
      rewrite (Hr' d _ Hp (mark_all_lookup _ r d b Hp Hr)).
      unfold listed_by_some_relay. simpl. by rewrite orb_assoc.
Qed.
End Registration.

(** Two predicates that agree on the elements of a list filter it alike. *)
Lemma filter_agree {A} (P1 P2 : A -> Prop) `{!forall x, Decision (P1 x)}
    `{!forall x, Decision (P2 x)} (l : list A) :
  (forall x, x ∈ l -> P1 x <-> P2 x) -> filter P1 l = filter P2 l.
Proof.
  induction l as [|a l IH]; intros Hiff; [done|].
  assert (filter P1 l = filter P2 l) as Hl.
  { apply IH. intros x Hx. apply Hiff. by right. }
  assert (P1 a <-> P2 a) as Ha by (apply Hiff; left).
  destruct (decide (P1 a)) as [Hp|Hp].
  - rewrite !filter_cons_True; [by rewrite Hl|tauto|done].
  - rewrite !filter_cons_False; [done|tauto|done].
Qed.




(** ** One run of the missed-attestation probes *)

Section MissedRun.
Import MissedAttestations.
Context (our_labels : OurLabels) (index_to_validator : IndexToValidator).





Lemma size_eqb_0 (s : gset Z) : (size s =? 0)%nat = bool_decide (s = ∅).
Proof.
  destruct (decide (s = ∅)) as [->|Hne].
  - by rewrite size_empty, bool_decide_eq_true_2.
  - rewrite bool_decide_eq_false_2 by done.
    apply Nat.eqb_neq. intros Hs. by apply size_empty_inv, leibniz_equiv in Hs.
Qed.
End MissedRun.

Section MissedProbe.
Import MissedAttestations.
Context (beacon : Beacon) (bt : BeaconType) (window : LimitedDict)
        (epoch : Z) (our_labels : OurLabels) (reg : Registry)
        (index_to_validator : IndexToValidator) (liveness : gmap Z bool).

Hypothesis Hepoch : 1 <= epoch.
Hypothesis Hwindow : selected window epoch index_to_validator.
Hypothesis Hliveness :
  get_validators_liveness beacon bt (epoch - 1) (dom index_to_validator)
  = Ok liveness.
Hypothesis Hlabelled :
  all_labelled our_labels index_to_validator (dead_of liveness).



End MissedProbe.

Section DoubleMissedProbe.
Import MissedAttestations.
Context (dead previous_dead : gset Z) (window : LimitedDict) (epoch : Z)
        (slack : option Slack) (our_labels : OurLabels) (reg : Registry)
        (index_to_validator : IndexToValidator).

Hypothesis Hepoch : 2 <= epoch.
Hypothesis Hwindow : items window !! (epoch - 1) = Some index_to_validator.
Hypothesis Hlabelled :
  all_labelled our_labels index_to_validator (dead ∩ previous_dead).


End DoubleMissedProbe.

(** ** What each block of the loop can emit *)

Lemma emits_impl {E A} (P Q : E -> Prop) (m : M E A) :
  (forall ev, P ev -> Q ev) -> emits P m -> emits Q m.
Proof. intros Himp Hm. unfold emits. by apply (Forall_impl _ _ _ Hm). Qed.

Lemma quiet_ordinary ev : quiet ev -> ordinary ev.
Proof. destruct ev; simpl; tauto. Qed.


Lemma ordinary_not_server ev : ordinary ev -> ~ is_start_http_server ev.
Proof. destruct ev; simpl; tauto. Qed.


Lemma ordinary_not_duties ev : ordinary ev -> ~ is_duties_request ev.
Proof. destruct ev as [| | | | | | | |[]| | | |]; simpl; tauto. Qed.

Section Leaves.

Lemma is_proposer_payload_delivered_quiet fuel http url slot n :
  emits quiet
    (Relays.is_proposer_payload_delivered_from fuel http url slot n).
Proof.
  revert n. induction fuel as [|fuel IH]; intros n; simpl.
  - emits_model.
  - emits_model. apply IH.
Qed.

Lemma proposer_payload_delivered_quiet fuel http url slot n :
  emits quiet
    (Relays.proposer_payload_delivered_from fuel http url slot n).
Proof.
  revert n. induction fuel as [|fuel IH]; intros n; simpl.
  - emits_model.
  - emits_model. apply IH.
Qed.

Lemma any_of_emits {A} (P : event -> Prop) (f : A -> Run bool) l :
  (forall x, emits P (f x)) -> emits P (Relays.any_of f l).
Proof.
  intros Hf. induction l as [|x l IH]; simpl; emits_model. apply Hf.
Qed.

Lemma relays_process_quiet urls http reg slot our_labels :
  emits quiet (Relays.process urls http reg slot our_labels).
Proof.
  unfold Relays.process, Relays.credit_relay,
    Relays.is_proposer_payload_delivered, Relays.proposer_payload_delivered.
  emits_model.
  - apply any_of_emits. intros url. apply is_proposer_payload_delivered_quiet.
  - apply proposer_payload_delivered_quiet.
Qed.

Lemma process_double_quiet dead previous window epoch slack labels reg :
  emits quiet
    (MissedAttestations.process_double_missed_attestations dead previous
       window epoch slack labels reg).
Proof.
  unfold MissedAttestations.process_double_missed_attestations.
  emits_model.
Qed.

Lemma process_rewards_quiet beacon bt epoch net our labels reg :
  emits quiet
    (Rewards.process_rewards beacon bt epoch net our labels reg).
Proof.
  unfold Rewards.process_rewards, Rewards.net_items, Rewards.our_items,
    Rewards.item_of, Rewards.unzip_items, Rewards.aggregate,
    Rewards.suboptimal_rate_of, Rewards._validator_counters_update,
    Rewards._validator_summary_counters_update, Rewards._log.
  emits_model.
Qed.

Lemma init_missed_quiet rnd labels reg :
  emits quiet
    (MissedAttestations.init_missed_attestations_per_validator_counters
       rnd labels reg).
Proof.
  unfold MissedAttestations.init_missed_attestations_per_validator_counters.
  emits_model.
Qed.

Lemma init_relays_quiet rnd labels reg :
  emits quiet (Relays.init_relays_per_validator_counters rnd labels reg).
Proof. unfold Relays.init_relays_per_validator_counters. emits_model. Qed.

Lemma init_rewards_quiet rnd labels reg :
  emits quiet (Rewards.init_rewards_per_validator_counters rnd labels reg).
Proof. unfold Rewards.init_rewards_per_validator_counters. emits_model. Qed.
End Leaves.

(** The leaves of the loop, for a property that all quiet events have. *)
Ltac emits_leaf Hq :=
  lazymatch goal with
  | |- emits _ (Relays.process _ _ _ _ _) =>
      apply (emits_impl quiet _ _ Hq); apply relays_process_quiet
  | |- emits _ (MissedAttestations.process_double_missed_attestations
                  _ _ _ _ _ _ _) =>
      apply (emits_impl quiet _ _ Hq); apply process_double_quiet
  | |- emits _ (Rewards.process_rewards _ _ _ _ _ _ _) =>
      apply (emits_impl quiet _ _ Hq); apply process_rewards_quiet
  | |- emits _ (MissedAttestations.init_missed_attestations_per_validator_counters
                  _ _ _) =>
      apply (emits_impl quiet _ _ Hq);
      apply init_missed_quiet
  | |- emits _ (Relays.init_relays_per_validator_counters _ _ _) =>
      apply (emits_impl quiet _ _ Hq);
      apply init_relays_quiet
  | |- emits _ (Rewards.init_rewards_per_validator_counters _ _ _) =>
      apply (emits_impl quiet _ _ Hq);
      apply init_rewards_quiet
  end.

Ltac emits_with Hq :=
  repeat (emits_step || emits_unfold || emits_leaf Hq); try tauto.

Section Blocks.
Import Entrypoint.

Lemma new_epoch_ordinary w cfg st slot epoch :
  emits ordinary (new_epoch w cfg st slot epoch).
Proof. unfold new_epoch. emits_with quiet_ordinary. Qed.

Lemma rewards_step_ordinary w cfg st b slot :
  emits ordinary (rewards_step w cfg st b slot).
Proof. unfold rewards_step. emits_with quiet_ordinary. Qed.

Lemma block_step_ordinary w cfg b slot :
  emits ordinary (block_step w cfg b slot).
Proof. unfold block_step. emits_with quiet_ordinary. Qed.

Lemma before_genesis_ordinary w cfg slot :
  emits ordinary (before_genesis w cfg slot).
Proof. unfold before_genesis. emits_model. Qed.
End Blocks.

(** The blocks of the loop, for a property that all ordinary events have. *)
Ltac emits_block Hord :=
  lazymatch goal with
  | |- emits _ (Entrypoint.new_epoch _ _ _ _ _) =>
      apply (emits_impl ordinary _ _ Hord); apply new_epoch_ordinary
  | |- emits _ (Entrypoint.rewards_step _ _ _ _ _) =>
      apply (emits_impl ordinary _ _ Hord); apply rewards_step_ordinary
  | |- emits _ (Entrypoint.block_step _ _ _ _) =>
      apply (emits_impl ordinary _ _ Hord); apply block_step_ordinary
  | |- emits _ (Entrypoint.before_genesis _ _ _) =>
      apply (emits_impl ordinary _ _ Hord); apply before_genesis_ordinary
  | |- emits _ (MissedAttestations.process_double_missed_attestations
                  _ _ _ _ _ _ _) =>
      apply (emits_impl quiet _ _ (fun ev H => Hord ev (quiet_ordinary ev H)));
      apply process_double_quiet
  end.

Ltac emits_blocks Hord :=
  repeat (emits_step || emits_unfold || emits_block Hord); try tauto.

Section ServerStart.
Import Entrypoint.

Lemma process_missed_no_server beacon bt window epoch labels reg :
  emits (fun ev => ~ is_start_http_server ev)
    (MissedAttestations.process_missed_attestations beacon bt window epoch
       labels reg).
Proof.
  unfold MissedAttestations.process_missed_attestations. emits_model.
Qed.

Lemma future_proposal_no_server beacon pubkeys slot is_new urls http labels :
  emits (fun ev => ~ is_start_http_server ev)
    (NextBlocksProposal.process_future_blocks_proposal beacon pubkeys slot
       is_new urls http labels).
Proof.
  unfold NextBlocksProposal.process_future_blocks_proposal. emits_model.
Qed.

(** Only the iteration of index 0 can start the server, and only if its
    slot is not negative. *)
Lemma iteration_no_server w cfg slack st idx slot :
  idx <> 0%nat \/ slot < 0 ->
  emits (fun ev => ~ is_start_http_server ev)
    (iteration w cfg slack st idx slot).
Proof.
  intros H. unfold iteration.
  destruct (slot <? 0) eqn:Hslot.
  - emits_blocks ordinary_not_server.
  - assert ((idx =? 0)%nat = false) as Hidx.
    { apply Nat.eqb_neq. destruct H; [done|lia]. }
    rewrite Hidx. unfold missed_attestations_step.
    emits_blocks ordinary_not_server.
    + apply process_missed_no_server.
    + apply future_proposal_no_server.
Qed.
End ServerStart.

Lemma emits_for_fold_in {E A S} (P : E -> Prop) (body : S -> A -> M E S)
    (l : list A) (s : S) :
  (forall s x, x ∈ l -> emits P (body s x)) -> emits P (for_fold body l s).
Proof.
  revert s. induction l as [|x l IH]; intros s Hb; simpl.
  - apply emits_ret.
  - apply emits_bind; [apply Hb; left|].
    intros s' _. apply IH. intros s'' y Hy. apply Hb. by right.
Qed.

Lemma zip_fmap_r {A B} (f : A -> B) (l : list A) :
  zip l (f <$> l) = (fun x => (x, f x)) <$> l.
Proof. induction l as [|x l IH]; simpl; [done|by f_equal]. Qed.

(** The iterations of a run: index [k] processes the [k]-th slot after the
    first. *)
Lemma enumerate_slots genesis_time now n :
  enumerate (slots genesis_time now n)
  = (fun k => (k, (now - genesis_time) / NB_SECOND_PER_SLOT + Z.of_nat k))
      <$> seq 0 n.
Proof.
  unfold enumerate, slots. rewrite length_fmap, length_seq.
  apply zip_fmap_r.
Qed.

Lemma enumerate_slots_elem genesis_time now n idx slot :
  (idx, slot) ∈ enumerate (slots genesis_time now n) ->
  slot = (now - genesis_time) / NB_SECOND_PER_SLOT + Z.of_nat idx.
Proof.
  rewrite enumerate_slots. intros H.
  apply list_elem_of_fmap in H as (k & Hk & _). by injection Hk as -> ->.
Qed.

(** C7: when the watcher starts before genesis, the metrics server is never
    started, however many slots are then processed: the first iteration,
    of index 0, ends at [continue], and the later ones have another index. *)
Theorem server_never_started_from_before_genesis (w : World) (cfg : Config)
    (n : nat) (port : Z) :
  (forall genesis_time,
      get_genesis (startup_beacon w) = Ok genesis_time ->
      now w < genesis_time) ->
  StartHttpServer port ∉ events (Entrypoint._handler w cfg n).
Proof.
  intros Hgenesis.
  assert (emits (fun ev => ~ is_start_http_server ev)
            (Entrypoint._handler w cfg n)) as Hemits.
  { unfold Entrypoint._handler.
    destruct (get_genesis (startup_beacon w)) as [g|e] eqn:Hg.
    - specialize (Hgenesis g eq_refl).
      emits_model. unfold Entrypoint.loop.
      match goal with H : outcome (ask _ _) = Ok _ |- _ =>
        injection H as <- end.
      apply emits_for_fold_in. intros st [idx slot] Hin. simpl.
      apply enumerate_slots_elem in Hin.
      apply iteration_no_server.
      destruct idx as [|idx]; [right|by left].
      subst slot. unfold NB_SECOND_PER_SLOT.
      change (Z.of_nat 0) with 0. rewrite Z.add_0_r.
      apply Z.div_lt_upper_bound; lia.
    - emits_model.
      match goal with H : outcome (ask _ (Raise _)) = Ok _ |- _ =>
        discriminate H end. }
  intros Hin. unfold emits in Hemits. rewrite Forall_forall in Hemits.
  by apply (Hemits _ Hin).
Qed.

(** C7 on a run that starts one slot before genesis and goes on into slot
    0: slot 0 is processed, and the server is not started. *)
Lemma server_never_started_from_before_genesis_witness :
  (GaugeSet "slot" (Qz 0)
     ∈ events (Entrypoint._handler (Scenario.quiet_world (-12))
                 Scenario.plain 2))
  /\ (StartHttpServer 8000
       ∉ events (Entrypoint._handler (Scenario.quiet_world (-12))
                   Scenario.plain 2)).
Proof.
  split.
  - vm_compute. do 2 right. left.
  - apply (server_never_started_from_before_genesis
             (Scenario.quiet_world (-12)) Scenario.plain 2 8000).
    intros g Hg. injection Hg as <-. simpl. lia.
Defined.

(** ** Exceptions of the probes *)

Section Propagation.
Import Entrypoint.
Context (w : World).




End Propagation.




Section PropagationLoop.
Import Entrypoint.
Context (w : World) (cfg : Config).



End PropagationLoop.






(** ** The future-proposal probe *)

Section FutureProposals.
Import NextBlocksProposal Entrypoint.




End FutureProposals.




(** ** The schedule of the missed-attestation probe *)



Section Asking.
Import MissedAttestations Entrypoint.




End Asking.

Section AskingLoop.
Import MissedAttestations Entrypoint.
Context (w : World) (cfg : Config) (slack : option Slack).




End AskingLoop.

Section OncePerEpoch.
Import MissedAttestations Entrypoint.
Context (w : World) (cfg : Config) (slack : option Slack) (first : Z).



End OncePerEpoch.






(** ** Double misses *)




(** ** Retries of a relay request *)

Section Retries.
Import Relays.

(** The three requests share their retry loop: from attempt [t], [k]
    failed connections and then the run from attempt [t + k]. *)
Ltac retries_induction Hfrom :=
  let k := fresh "k" in
  let IH := fresh "IH" in
  intros k; induction k as [|k IH]; intros fuel t Ht Hfuel Hfail;
  [ rewrite Nat.sub_0_r, Nat.add_0_r; cbn [replicate concat];
    rewrite bind_mk_ok; cbn [app]; by rewrite M_eta
  | destruct fuel as [|fuel]; [lia|];
    Hfrom;
    let H0 := fresh "H0" in
    pose proof (Hfail 0%nat ltac:(lia)) as H0; rewrite Nat.add_0_r in H0;
    rewrite H0;
    let Hlt := fresh "Hlt" in
    assert ((MAX_TRIALS <=? t)%nat = false) as Hlt
      by (apply Nat.leb_gt; lia);
    rewrite Hlt, (IH fuel (S t));
    [ replace (t + S k)%nat with (S t + k)%nat by lia;
      replace (S fuel - S k)%nat with (fuel - k)%nat by lia;
      cbn [replicate concat]; run_binds; cbn [app]; reflexivity
    | lia | lia
    | intros i Hi; replace (S t + i)%nat with (t + S i)%nat by lia;
      apply Hfail; lia ] ].

Lemma proposer_payload_delivered_from_retries http url slot :
  forall k fuel t,
    (t + k <= MAX_TRIALS)%nat -> (k <= fuel)%nat ->
    (forall i, (i < k)%nat ->
       get_payload_delivered http url slot (t + i) = HttpConnectionError) ->
    proposer_payload_delivered_from fuel http url slot t
    = (mkM (concat (replicate k [Request (ReqPayloadDelivered url slot);
                                 SleepSec WAIT_SEC]))
         (Ok tt)
       ;; proposer_payload_delivered_from (fuel - k) http url slot (t + k)).
Proof. retries_induction ltac:(cbn [proposer_payload_delivered_from]). Qed.

Lemma is_proposer_payload_delivered_from_retries http url slot :
  forall k fuel t,
    (t + k <= MAX_TRIALS)%nat -> (k <= fuel)%nat ->
    (forall i, (i < k)%nat ->
       get_payload_delivered http url slot (t + i) = HttpConnectionError) ->
    is_proposer_payload_delivered_from fuel http url slot t
    = (mkM (concat (replicate k [Request (ReqPayloadDelivered url slot);
                                 SleepSec WAIT_SEC]))
         (Ok tt)
       ;; is_proposer_payload_delivered_from (fuel - k) http url slot (t + k)).
Proof. retries_induction ltac:(cbn [is_proposer_payload_delivered_from]). Qed.

Lemma builder_validators_from_retries http url :
  forall k fuel t,
    (t + k <= MAX_TRIALS)%nat -> (k <= fuel)%nat ->
    (forall i, (i < k)%nat ->
       get_builder_validators http url (t + i) = HttpConnectionError) ->
    builder_validators_from fuel http url t
    = (mkM (concat (replicate k [Request (ReqBuilderValidators url);
                                 SleepSec WAIT_SEC]))
         (Ok tt)
       ;; builder_validators_from (fuel - k) http url (t + k)).
Proof. retries_induction ltac:(cbn [builder_validators_from]). Qed.

(** The attempt that decides, whatever is left of the fuel. *)
Lemma proposer_payload_delivered_from_last fuel http url slot t :
  (t = MAX_TRIALS
   \/ get_payload_delivered http url slot t <> HttpConnectionError) ->
  proposer_payload_delivered_from fuel http url slot t
  = mkM [Request (ReqPayloadDelivered url slot)]
      (payload_answer (get_payload_delivered http url slot t)).
Proof.
  intros Hlast.
  destruct fuel; cbn [proposer_payload_delivered_from];
    (destruct (get_payload_delivered http url slot t) as [| | |body];
     [ destruct Hlast as [->|?]; [reflexivity|done]
     | reflexivity | reflexivity
     | simpl; by destruct (1 <? length body)%nat ]).
Qed.

Lemma is_proposer_payload_delivered_from_last fuel http url slot t :
  (t = MAX_TRIALS
   \/ get_payload_delivered http url slot t <> HttpConnectionError) ->
  is_proposer_payload_delivered_from fuel http url slot t
  = mkM [Request (ReqPayloadDelivered url slot)]
      (delivered_answer (get_payload_delivered http url slot t)).
Proof.
  intros Hlast.
  destruct fuel; cbn [is_proposer_payload_delivered_from];
    (destruct (get_payload_delivered http url slot t) as [| | |body];
     [ destruct Hlast as [->|?]; [reflexivity|done]
     | reflexivity | reflexivity
     | simpl; destruct body as [|p [|q body]]; reflexivity ]).
Qed.

Lemma builder_validators_from_last fuel http url t :
  (t = MAX_TRIALS \/ get_builder_validators http url t <> HttpConnectionError) ->
  builder_validators_from fuel http url t
  = mkM [Request (ReqBuilderValidators url)]
      (validators_answer (get_builder_validators http url t)).
Proof.
  intros Hlast.
  destruct fuel; cbn [builder_validators_from];
    (destruct (get_builder_validators http url t) as [| | |body];
     [ destruct Hlast as [->|?]; [reflexivity|done]
     | reflexivity | reflexivity | reflexivity ]).
Qed.

Lemma proposer_payload_delivered_decided http url slot k :
  decided_at (get_payload_delivered http url slot) k ->
  proposer_payload_delivered http url slot
  = mkM (attempts (ReqPayloadDelivered url slot) k)
      (payload_answer (get_payload_delivered http url slot k)).
Proof.
  intros (Hk & Hfail & Hlast). unfold proposer_payload_delivered.
  rewrite (proposer_payload_delivered_from_retries http url slot k) by
    (try done; intros i Hi; by apply Hfail).
  rewrite proposer_payload_delivered_from_last by done.
  reflexivity.
Qed.

Lemma is_proposer_payload_delivered_decided http url slot k :
  decided_at (get_payload_delivered http url slot) k ->
  is_proposer_payload_delivered http url slot
  = mkM (attempts (ReqPayloadDelivered url slot) k)
      (delivered_answer (get_payload_delivered http url slot k)).
Proof.
  intros (Hk & Hfail & Hlast). unfold is_proposer_payload_delivered.
  rewrite (is_proposer_payload_delivered_from_retries http url slot k) by
    (try done; intros i Hi; by apply Hfail).
  rewrite is_proposer_payload_delivered_from_last by done.
  reflexivity.
Qed.

End Retries.

(** X1: the two payload requests of the per-block check retry a refused
    connection up to [MAX_TRIALS] times, waiting [WAIT_SEC] before each
    retry: after [k <= 5] refused connections the answer to attempt [k]
    decides the call, and a sixth refused connection is raised to the
    caller.  An error status raises [HTTPError], the retrying adapter
    giving up raises [RetryError], more than one record raises
    [AssertionError]; these are not retried. *)
Theorem payload_request_retries (http : Http) (url : string) (slot : Z)
    (k : nat) :
  decided_at (get_payload_delivered http url slot) k ->
  Relays.proposer_payload_delivered http url slot
  = mkM (attempts (ReqPayloadDelivered url slot) k)
      (payload_answer (get_payload_delivered http url slot k))
  /\ Relays.is_proposer_payload_delivered http url slot
     = mkM (attempts (ReqPayloadDelivered url slot) k)
         (delivered_answer (get_payload_delivered http url slot k))
  /\ length (attempts (ReqPayloadDelivered url slot) k) = (2 * k + 1)%nat
  /\ (2 * k + 1 <= 11)%nat.
Proof.
  intros Hd. split; [by apply proposer_payload_delivered_decided|].
  split; [by apply is_proposer_payload_delivered_decided|].
  destruct Hd as (Hk & _ & _). unfold Relays.MAX_TRIALS in Hk.
  split; [|lia]. unfold attempts.
  rewrite length_app. simpl.
  assert (forall n, length (concat (replicate n
            [Request (ReqPayloadDelivered url slot);
             SleepSec Relays.WAIT_SEC])) = (2 * n)%nat) as Hlen.
  { induction n as [|n IHn]; [done|]. simpl in *. rewrite IHn. lia. }
  rewrite Hlen. lia.
Qed.

(** A relay that refuses the connection twice and then delivers. *)
Lemma payload_request_retries_witness :
  Relays.proposer_payload_delivered (Edge.flaky 2) Scenario.flashbots 120
  = mkM [Request (ReqPayloadDelivered Scenario.flashbots 120);
         SleepSec (1 # 2);
         Request (ReqPayloadDelivered Scenario.flashbots 120);
         SleepSec (1 # 2);
         Request (ReqPayloadDelivered Scenario.flashbots 120)]
      (Ok (Some (Scenario.payload_P 120))).
Proof.
  destruct (payload_request_retries (Edge.flaky 2) Scenario.flashbots
              120 2) as (H & _).
  - split; [unfold Relays.MAX_TRIALS; lia|]. split.
    + intros i Hi. simpl. destruct i as [|[|i]]; [reflexivity|reflexivity|lia].
    + right. simpl. discriminate.
  - rewrite H. reflexivity.
Defined.

(** X2: the registration request retries in the same way; its body is
    returned as it is, whatever its length. *)
Theorem validators_request_retries (http : Http) (url : string) (k : nat) :
  decided_at (get_builder_validators http url) k ->
  Relays.builder_validators http url
  = mkM (attempts (ReqBuilderValidators url) k)
      (validators_answer (get_builder_validators http url k)).
Proof.
  intros (Hk & Hfail & Hlast). unfold Relays.builder_validators.
  rewrite (builder_validators_from_retries http url k) by
    (try done; intros i Hi; by apply Hfail).
  rewrite builder_validators_from_last by done.
  reflexivity.
Qed.

(** A relay that refuses every connection: six requests, five waits. *)
Lemma validators_request_retries_witness :
  Relays.builder_validators (Edge.flaky 6) Scenario.relay_1
  = mkM [Request (ReqBuilderValidators Scenario.relay_1); SleepSec (1 # 2);
         Request (ReqBuilderValidators Scenario.relay_1); SleepSec (1 # 2);
         Request (ReqBuilderValidators Scenario.relay_1); SleepSec (1 # 2);
         Request (ReqBuilderValidators Scenario.relay_1); SleepSec (1 # 2);
         Request (ReqBuilderValidators Scenario.relay_1); SleepSec (1 # 2);
         Request (ReqBuilderValidators Scenario.relay_1)]
      (Raise ConnectionError).
Proof.
  rewrite (validators_request_retries (Edge.flaky 6) Scenario.relay_1 5).
  - reflexivity.
  - split; [unfold Relays.MAX_TRIALS; lia|]. split.
    + intros i Hi. simpl.
      destruct i as [|[|[|[|[|i]]]]]; try reflexivity. lia.
    + by left.
Defined.
(** ** The per-block check: short circuit and failures *)

Section RelayCheckMore.
Import Relays.
Context (http : Http) (reg : Registry) (slot : Z).

Lemma bind_assoc {E A B C} (m : M E A) (f : A -> M E B) (g : B -> M E C) :
  bind (bind m f) g = bind m (fun a => bind (f a) g).
Proof.
  unfold bind. destruct (outcome m) as [a|e]; cbn [events outcome]; [|done].
  destruct (outcome (f a)) as [b|e]; cbn [events outcome]; [|done].
  by rewrite app_assoc.
Qed.

Lemma bind_ext {E A B} (m : M E A) (f g : A -> M E B) :
  (forall a, outcome m = Ok a -> f a = g a) -> bind m f = bind m g.
Proof.
  intros H. unfold bind. destruct (outcome m) as [a|e]; [|done].
  by rewrite (H a).
Qed.

Lemma any_of_app {A} (f : A -> Run bool) (l1 l2 : list A) :
  any_of f (l1 ++ l2)
  = (do b <- any_of f l1; if b then ret true else any_of f l2).
Proof.
  induction l1 as [|x l1 IH]; simpl.
  - by rewrite bind_ret.
  - rewrite bind_assoc. apply bind_ext. intros [|] _.
    + by rewrite bind_ret.
    + apply IH.
Qed.

Lemma requests_app (l1 l2 : list string) :
  requests slot (l1 ++ l2) = requests slot l1 ++ requests slot l2.
Proof. unfold requests. apply fmap_app. Qed.

Lemma answered_app answers l1 l2 :
  answered http slot answers (l1 ++ l2) ->
  answered http slot answers l1 /\ answered http slot answers l2.
Proof.
  intros Ha. split; intros u Hu; apply Ha, elem_of_app; [by left|by right].
Qed.

(** The answer to the first attempt decides when it is not a refused
    connection. *)
Lemma decided_at_once {A} (get : nat -> http_result A) :
  get 0%nat <> HttpConnectionError -> decided_at get 0.
Proof.
  intros Hne. split; [unfold MAX_TRIALS; lia|]. split; [|by right].
  intros i Hi. lia.
Qed.

Lemma payload_answer_raise r e :
  payload_answer r = Raise e -> delivered_answer r = Raise e.
Proof.
  destruct r as [| | |body]; simpl;
    [intros [= <-]; reflexivity ..|].
  destruct (1 <? length body)%nat; [intros [= <-]; reflexivity|discriminate].
Qed.

Lemma payload_answer_not_refused r e :
  payload_answer r = Raise e -> e <> ConnectionError ->
  r <> HttpConnectionError.
Proof. intros Hr He ->. simpl in Hr. congruence. Qed.
End RelayCheckMore.

(** X3: without labels, [Relays.process] asks the relays in order and stops at
    the first one that delivered the payload: the relays configured after
    it are not asked, whatever they would answer, and nothing but the
    requests happens. *)
Theorem relay_check_stops_at_first_delivery (urls_before : list string)
    (url : string) (urls_after : list string) (http : Http) (reg : Registry)
    (slot : Z) (our_labels : OurLabels)
    (answers : string -> option ProposerPayloadDelivered) :
  len our_labels = 0 ->
  answered http slot answers (urls_before ++ [url]) ->
  (forall u, u ∈ urls_before -> answers u = None) ->
  is_Some (answers url) ->
  Relays.process (urls_before ++ url :: urls_after) http reg slot our_labels
  = mkM (requests slot (urls_before ++ [url])) (Ok tt).
Proof.
  intros Hlen Ha Hnone [p Hp]. unfold Relays.process.
  assert ((length (urls_before ++ url :: urls_after) =? 0)%nat = false)
    as Hne.
  { apply Nat.eqb_neq. rewrite length_app. simpl. lia. }
  rewrite Hne, Hlen. cbn [Z.eqb].
  apply answered_app in Ha as [Hb Hu].
  rewrite any_of_app, (any_of_none _ _ _ _ Hb Hnone), bind_mk_ok.
  cbn [Relays.any_of].
  rewrite (is_proposer_payload_delivered_answered _ _ _ (answers url)).
  2:{ apply Hu. left. }
  rewrite Hp. rewrite bool_decide_eq_true_2 by (by eexists).
  run_binds. cbn [negb]. rewrite requests_app. simpl.
  by rewrite !app_nil_r.
Qed.

(** The flashbots relay knows nothing and the next relay delivered: the
    third relay is not asked. *)
Lemma relay_check_stops_at_first_delivery_witness :
  Relays.process [Scenario.flashbots; Scenario.relay_1; "http://relay-2.com"]
    Edge.all_but_flashbots ∅ 120 ∅
  = mkM [Request (ReqPayloadDelivered Scenario.flashbots 120);
         Request (ReqPayloadDelivered Scenario.relay_1 120)]
      (Ok tt).
Proof.
  rewrite (relay_check_stops_at_first_delivery [Scenario.flashbots]
             Scenario.relay_1 ["http://relay-2.com"]
             Edge.all_but_flashbots ∅ 120 ∅
             (fun u => if String.eqb u Scenario.flashbots then None
                       else Some (Scenario.payload_P 120))).
  - reflexivity.
  - reflexivity.
  - intros u Hu. apply elem_of_cons in Hu as [->|Hu]; [reflexivity|].
    apply list_elem_of_singleton in Hu as ->. reflexivity.
  - intros u Hu. apply list_elem_of_singleton in Hu as ->. reflexivity.
  - by eexists.
Defined.

(** X4: a relay whose answer is an error status, an exhausted retry or more
    than one record ends [Relays.process] with that exception, with or
    without labels: the relays configured after it are not asked, the
    bad-relay counter is left alone and nothing is printed. *)
Theorem relay_check_fails_with_relay (urls_before : list string)
    (url : string) (urls_after : list string) (http : Http) (reg : Registry)
    (slot : Z) (our_labels : OurLabels)
    (answers : string -> option ProposerPayloadDelivered) (e : exn) :
  answered http slot answers urls_before ->
  (forall u, u ∈ urls_before -> answers u = None) ->
  payload_answer (get_payload_delivered http url slot 0) = Raise e ->
  e <> ConnectionError ->
  Relays.process (urls_before ++ url :: urls_after) http reg slot our_labels
  = mkM (requests slot (urls_before ++ [url])) (Raise e).
Proof.
  intros Hb Hnone Hanswer He. unfold Relays.process.
  assert ((length (urls_before ++ url :: urls_after) =? 0)%nat = false)
    as Hne.
  { apply Nat.eqb_neq. rewrite length_app. simpl. lia. }
  rewrite Hne.
  pose proof (decided_at_once _
                (payload_answer_not_refused _ _ Hanswer He)) as Hd.
  rewrite requests_app.
  destruct (len our_labels =? 0).
  - rewrite any_of_app, (any_of_none _ _ _ _ Hb Hnone), bind_mk_ok.
    cbn [Relays.any_of].
    rewrite (is_proposer_payload_delivered_decided _ _ _ _ Hd).
    rewrite (payload_answer_raise _ _ Hanswer).
    run_binds. reflexivity.
  - assert (Relays.credit_relay http reg slot our_labels false url
            = mkM [Request (ReqPayloadDelivered url slot)] (Raise e)) as Hcr.
    { unfold Relays.credit_relay.
      by rewrite (proposer_payload_delivered_decided _ _ _ _ Hd), Hanswer. }
    rewrite for_fold_app,
      (credit_relays_none _ reg _ our_labels _ _ false Hb Hnone), bind_mk_ok.
    cbn [for_fold]. rewrite Hcr. run_binds. reflexivity.
Qed.

(** The flashbots relay knows nothing and the next relay answers with an
    error status, the labels map being configured. *)
Lemma relay_check_fails_with_relay_witness :
  Relays.process [Scenario.flashbots; Scenario.relay_1; "http://relay-2.com"]
    Edge.failing_but_flashbots Scenario.reg_P 120 Scenario.labels_P
  = mkM [Request (ReqPayloadDelivered Scenario.flashbots 120);
         Request (ReqPayloadDelivered Scenario.relay_1 120)]
      (Raise HTTPError).
Proof.
  apply (relay_check_fails_with_relay [Scenario.flashbots]
           Scenario.relay_1 ["http://relay-2.com"]
           Edge.failing_but_flashbots Scenario.reg_P 120
           Scenario.labels_P (fun _ => None) HTTPError).
  - intros u Hu. apply list_elem_of_singleton in Hu as ->. reflexivity.
  - done.
  - reflexivity.
  - discriminate.
Defined.
(** ** The registration check, slot by slot *)

Section RegistrationMore.
Import Relays.

Lemma pubkeys_by_slot_snoc l x :
  pubkeys_by_slot (l ++ [x])
  = <[duty_slot x := duty_pubkey x]> (pubkeys_by_slot l).
Proof. unfold pubkeys_by_slot. by rewrite fold_left_app. Qed.

Lemma last_duty_at_snoc l x s :
  last_duty_at (l ++ [x]) s
  = if decide (duty_slot x = s) then Some x else last_duty_at l s.
Proof.
  unfold last_duty_at. rewrite filter_app.
  destruct (decide (duty_slot x = s)) as [Hs|Hs].
  - rewrite (filter_cons_True _ x []) by done. simpl. apply last_snoc.
  - rewrite (filter_cons_False _ x []) by done. simpl. by rewrite app_nil_r.
Qed.

(** The dictionary of pubkeys keeps, for each slot, the duty given last. *)
Lemma pubkeys_by_slot_last l s :
  pubkeys_by_slot l !! s = duty_pubkey <$> last_duty_at l s.
Proof.
  induction l as [|x l IH] using rev_ind; [done|].
  rewrite pubkeys_by_slot_snoc, last_duty_at_snoc.
  destruct (decide (duty_slot x = s)) as [<-|Hs].
  - by rewrite lookup_insert_eq.
  - by rewrite lookup_insert_ne.
Qed.

Lemma last_duty_at_elem l s d :
  last_duty_at l s = Some d -> d ∈ l /\ duty_slot d = s.
Proof.
  unfold last_duty_at. intros H.
  assert (d ∈ filter (fun d => duty_slot d = s) l) as Hin.
  { apply last_Some in H as [l' ->]. apply elem_of_app. right. left. }
  by apply list_elem_of_filter in Hin as [? ?].
Qed.

Lemma last_duty_at_is_Some l d :
  d ∈ l -> is_Some (last_duty_at l (duty_slot d)).
Proof.
  intros Hd. unfold last_duty_at.
  assert (d ∈ filter (fun d' => duty_slot d' = duty_slot d) l) as Hin
    by (by apply list_elem_of_filter).
  destruct (filter _ l) as [|y l'] using rev_ind.
  - by apply elem_of_nil in Hin.
  - rewrite last_snoc. by eexists.
Qed.

(** What the dictionary of registrations holds for the slot of a duty once
    every relay has been asked. *)
Lemma registrations_by_slot urls http slot_proposals d :
  (forall url, url ∈ urls -> answers_or_gives_up http url) ->
  d ∈ slot_proposals ->
  exists r',
    for_fold (ask_relay http (pubkeys_by_slot slot_proposals)) urls
      (no_registrations slot_proposals)
    = mkM (concat (relay_query_events http <$> urls)) (Ok r')
    /\ forall d', d' ∈ slot_proposals ->
         r' !! duty_slot d'
         = Some (slot_registered urls http slot_proposals (duty_slot d')).
Proof.
  intros Hall _.
  destruct (ask_relays http slot_proposals urls
              (no_registrations slot_proposals) Hall) as (r' & Hrun & Hr').
  exists r'. split; [done|]. intros d' Hd'.
  destruct (last_duty_at_is_Some _ _ Hd') as [d0 Hd0].
  destruct (last_duty_at_elem _ _ _ Hd0) as [Hin Hslot].
  unfold slot_registered. rewrite Hd0, <- Hslot.
  rewrite (Hr' d0 false); [done| |by apply registrations0_lookup].
  by rewrite pubkeys_by_slot_last, Hslot, Hd0.
Qed.
End RegistrationMore.

(** X5: [check_validator_registration_for_slots] decides slot by slot: with
    every relay answering or having exhausted its retries, a duty is
    returned exactly when no relay lists its slot with the pubkey of the
    duty given last for that slot.  Duties that share a slot are thus
    returned together or not at all, and the duties returned are among
    those given, in their order. *)
Theorem registration_check_by_slot (urls : list string) (http : Http)
    (slot_proposals : list ProposerDuty) :
  slot_proposals <> [] ->
  (forall url, url ∈ urls -> answers_or_gives_up http url) ->
  exists unregistered,
    outcome (Relays.check_validator_registration_for_slots urls http
               slot_proposals) = Ok unregistered
    /\ unregistered
       = filter (fun d =>
                   slot_registered urls http slot_proposals (duty_slot d)
                   = false)
           slot_proposals
    /\ sublist unregistered slot_proposals
    /\ forall d1 d2,
         d1 ∈ slot_proposals -> d2 ∈ slot_proposals ->
         duty_slot d1 = duty_slot d2 ->
         (d1 ∈ unregistered <-> d2 ∈ unregistered).
Proof.
  intros Hne Hall. eexists. split; [|split; [reflexivity|split]].
  - unfold Relays.check_validator_registration_for_slots.
    destruct slot_proposals as [|d0 l]; [done|].
    set (duties := d0 :: l) in *.
    change (length duties =? 0)%nat with false. cbv iota zeta.
    destruct (registrations_by_slot urls http duties d0 Hall)
      as (r' & Hrun & Hr'); [left|].
    rewrite Hrun, bind_mk_ok. unfold ret. cbn [events outcome].
    f_equal. apply filter_agree. intros d Hd.
    rewrite (Hr' d Hd). split; congruence.
  - apply sublist_filter.
  - intros d1 d2 H1 H2 Hslot.
    rewrite !list_elem_of_filter, Hslot. tauto.
Qed.

(** Two duties at slot 170, for [P] and then for [Q'], and a relay that
    lists [(170, Q')]: the slot counts as registered, for both. *)
Lemma registration_check_by_slot_witness :
  outcome (Relays.check_validator_registration_for_slots [Scenario.flashbots]
             Scenario.lists_Q [Scenario.duty_P; Scenario.duty_Q])
  = Ok [].
Proof.
  destruct (registration_check_by_slot [Scenario.flashbots] Scenario.lists_Q
              [Scenario.duty_P; Scenario.duty_Q])
    as (l & Hout & Hl & _).
  - discriminate.
  - intros url Hin. apply list_elem_of_singleton in Hin as ->.
    vm_compute. exact I.
  - rewrite Hout, Hl. vm_compute. reflexivity.
Defined.

(** X6: in the registration check only [RetryError] is handled: a relay that
    ends its request with another exception (a sixth refused connection,
    an error status) ends the check with that exception, and the relays
    configured after it are not asked. *)
Theorem registration_check_fails_with_relay (urls_before : list string)
    (url : string) (urls_after : list string) (http : Http)
    (slot_proposals : list ProposerDuty) (e : exn) :
  slot_proposals <> [] ->
  (forall u, u ∈ urls_before -> answers_or_gives_up http u) ->
  outcome (Relays.builder_validators http url) = Raise e ->
  e <> RetryError ->
  Relays.check_validator_registration_for_slots
    (urls_before ++ url :: urls_after) http slot_proposals
  = mkM (concat (relay_query_events http <$> urls_before)
         ++ events (Relays.builder_validators http url))
      (Raise e).
Proof.
  intros Hne Hall Hout He.
  unfold Relays.check_validator_registration_for_slots.
  destruct slot_proposals as [|d0 l]; [done|].
  set (duties := d0 :: l) in *.
  change (length duties =? 0)%nat with false. cbv iota zeta.
  destruct (ask_relays http duties urls_before
              (Relays.no_registrations duties) Hall) as (r' & Hrun & _).
  assert (Relays.ask_relay http (Relays.pubkeys_by_slot duties) r' url
          = mkM (events (Relays.builder_validators http url)) (Raise e))
    as Hask.
  { unfold Relays.ask_relay.
    rewrite (bind_raise (Relays.builder_validators http url) _ _ Hout).
    unfold try_except. cbn [events outcome].
    assert (Relays.is_RetryError e = false) as Hnot
      by (by destruct e).
    rewrite Hnot. by rewrite bind_mk_raise. }
  rewrite for_fold_app, Hrun, bind_mk_ok. cbn [for_fold].
  rewrite Hask. run_binds. reflexivity.
Qed.

(** The flashbots relay answers and the next relay answers with an error
    status. *)
Lemma registration_check_fails_with_relay_witness :
  Relays.check_validator_registration_for_slots
    [Scenario.flashbots; Scenario.relay_1; "http://relay-2.com"]
    Edge.failing_but_flashbots [Scenario.duty_P]
  = mkM [Request (ReqBuilderValidators Scenario.flashbots);
         Request (ReqBuilderValidators Scenario.relay_1)]
      (Raise HTTPError).
Proof.
  apply (registration_check_fails_with_relay [Scenario.flashbots]
           Scenario.relay_1 ["http://relay-2.com"]
           Edge.failing_but_flashbots [Scenario.duty_P] HTTPError).
  - discriminate.
  - intros u Hu. apply list_elem_of_singleton in Hu as ->.
    vm_compute. exact I.
  - reflexivity.
  - discriminate.
Defined.
(** ** The initialisers of the per-validator metrics *)

Section Inits.

Lemma for_each_ok {E A} (f : A -> M E unit) (evs : A -> list E) (l : list A) :
  (forall x, x ∈ l -> f x = mkM (evs x) (Ok tt)) ->
  for_each f l = mkM (concat (evs <$> l)) (Ok tt).
Proof.
  induction l as [|x l IH]; intros H; [reflexivity|].
  simpl. rewrite (H x) by left. rewrite bind_mk_ok, IH; [reflexivity|].
  intros y Hy. apply H. by right.
Qed.

Lemma for_each_emit {E A} (g : A -> E) (l : list A) :
  for_each (fun x => emit (g x)) l = mkM (g <$> l) (Ok tt).
Proof.
  rewrite (for_each_ok _ (fun x => [g x])) by reflexivity.
  f_equal. induction l as [|x l IH]; [done|]. csimpl. by f_equal.
Qed.

Lemma length_concat_const {A B} (f : A -> list B) (l : list A) (n : nat) :
  (forall x, length (f x) = n) ->
  length (concat (f <$> l)) = (n * length l)%nat.
Proof.
  intros Hf. induction l as [|x l IH]; csimpl; [lia|].
  rewrite length_app, Hf, IH. lia.
Qed.

Lemma len_values {K V} `{Countable K} (d : gmap K V) :
  length (values d) = size d.
Proof. unfold values. by rewrite length_fmap, length_map_to_list. Qed.

Lemma len_eqb_0 {K V} `{Countable K} (d : gmap K V) :
  (len d =? 0) = bool_decide (d = ∅).
Proof.
  unfold len. destruct (decide (d = ∅)) as [->|Hne].
  - by rewrite map_size_empty, bool_decide_eq_true_2.
  - rewrite bool_decide_eq_false_2 by done. apply Z.eqb_neq.
    intros Hs. apply Hne, map_size_empty_inv. lia.
Qed.

(** There are six well-known relays. *)
Lemma RELAY_MAPPING_values_length :
  length (values Relays.RELAY_MAPPING) = 6%nat.
Proof. vm_compute. reflexivity. Qed.
End Inits.

(** X7: [init_relays_per_validator_counters] creates the MEV-boost reward
    counter at most once: it never raises, it keeps every family already
    created, it does nothing on an empty labels map, and once it has run on
    a non-empty one every later call, whatever its labels, does nothing.
    The call that creates the counter initialises one series for each
    validator and each well-known relay. *)
Theorem init_relays_counters_once (rnd rnd' : nat)
    (our_labels our_labels' : OurLabels) (reg : Registry) :
  let name := Relays.our_mev_boost_reward_per_validator_count in
  let run := Relays.init_relays_per_validator_counters rnd our_labels reg in
  exists reg',
    outcome run = Ok reg'
    /\ reg ⊆ reg'
    /\ (len our_labels = 0 -> run = mkM [] (Ok reg))
    /\ (len our_labels <> 0 ->
        is_Some (reg' !! name)
        /\ Relays.init_relays_per_validator_counters rnd' our_labels' reg'
           = mkM [] (Ok reg'))
    /\ (len our_labels <> 0 -> reg !! name = None ->
        length (events run) = (1 + 6 * size our_labels)%nat).
Proof.
  intros name run. subst run.
  unfold Relays.init_relays_per_validator_counters. fold name.
  destruct (len our_labels =? 0) eqn:Hlen; cbn [orb].
  - exists reg. split; [done|]. split; [done|]. split; [done|].
    apply Z.eqb_eq in Hlen. split; intros; lia.
  - apply Z.eqb_neq in Hlen.
    destruct (decide (is_Some (reg !! name))) as [Hreg|Hreg].
    + rewrite bool_decide_eq_true_2 by done.
      exists reg. split; [done|]. split; [done|]. split; [intros; lia|].
      split.
      * intros _. split; [done|].
        rewrite bool_decide_eq_true_2 by done. by rewrite orb_true_r.
      * intros _ Hnone. rewrite Hnone in Hreg. by destruct Hreg.
    + rewrite bool_decide_eq_false_2 by done.
      rewrite (for_each_ok _
                 (fun labels_dict : Labels =>
                    (fun relay =>
                       SeriesInit name (<[Relays.RELAY_KEY := relay]> labels_dict))
                      <$> values Relays.RELAY_MAPPING)).
      2:{ intros labels_dict _. apply for_each_emit. }
      run_binds. eexists. split; [reflexivity|].
      apply eq_None_not_Some in Hreg.
      split; [by apply insert_subseteq|]. split; [intros; lia|]. split.
      * intros _. rewrite lookup_insert_eq. split; [by eexists|].
        rewrite bool_decide_eq_true_2 by (by eexists).
        by rewrite orb_true_r.
      * intros _ _. cbn [length app]. f_equal. rewrite app_nil_r.
        rewrite (length_concat_const _ _ 6%nat), len_values; [done|].
        intros labels_dict. rewrite length_fmap.
        apply RELAY_MAPPING_values_length.
Qed.

(** X8: [init_missed_attestations_per_validator_counters] creates the two
    per-validator counters together and at most once: from a registry
    that has both or neither it never raises, keeps every family already
    created, leaves a registry that has both or neither, does nothing on
    an empty labels map, and once it has run on a non-empty one every
    later call does nothing. *)
Theorem init_missed_counters_once (rnd rnd' : nat)
    (our_labels our_labels' : OurLabels) (reg : Registry) :
  let missed := MissedAttestations.missed_attestations_per_validator_count in
  let double :=
    MissedAttestations.double_missed_attestations_per_validator_count in
  let run :=
    MissedAttestations.init_missed_attestations_per_validator_counters rnd
      our_labels reg in
  (is_Some (reg !! missed) <-> is_Some (reg !! double)) ->
  exists reg',
    outcome run = Ok reg'
    /\ reg ⊆ reg'
    /\ (is_Some (reg' !! missed) <-> is_Some (reg' !! double))
    /\ (len our_labels = 0 -> run = mkM [] (Ok reg))
    /\ (len our_labels <> 0 ->
        is_Some (reg' !! missed)
        /\ MissedAttestations.init_missed_attestations_per_validator_counters
             rnd' our_labels' reg'
           = mkM [] (Ok reg')).
Proof.
  intros missed double run Hboth. subst run.
  unfold MissedAttestations.init_missed_attestations_per_validator_counters.
  fold missed double.
  destruct (len our_labels =? 0) eqn:Hlen; cbn [orb].
  - exists reg. split; [done|]. split; [done|]. split; [done|].
    apply Z.eqb_eq in Hlen. split; intros; [done|lia].
  - apply Z.eqb_neq in Hlen.
    destruct (decide (is_Some (reg !! missed))) as [Hreg|Hreg].
    + rewrite bool_decide_eq_true_2 by done.
      exists reg. split; [done|]. split; [done|]. split; [done|].
      split; [intros; lia|]. intros _. split; [done|].
      rewrite bool_decide_eq_true_2 by done. by rewrite orb_true_r.
    + rewrite bool_decide_eq_false_2 by done.
      rewrite (for_each_ok _
                 (fun labels_dict : Labels =>
                    [SeriesInit missed labels_dict;
                     SeriesInit double labels_dict])) by reflexivity.
      run_binds. eexists. split; [reflexivity|].
      assert (reg !! double = None) as Hd.
      { apply eq_None_not_Some. intros Hs. by apply Hreg, Hboth. }
      apply eq_None_not_Some in Hreg.
      assert (missed <> double) as Hne by discriminate.
      split.
      { etrans; [apply (insert_subseteq reg missed); exact Hreg|].
        apply insert_subseteq. by rewrite lookup_insert_ne. }
      split.
      { rewrite lookup_insert_eq, lookup_insert_ne, lookup_insert_eq by done.
        split; intros _; by eexists. }
      split; [intros; lia|]. intros _.
      rewrite lookup_insert_ne, lookup_insert_eq by done.
      split; [by eexists|].
      rewrite bool_decide_eq_true_2 by (by eexists).
      by rewrite orb_true_r.
Qed.

(** The first load of a labels map, from the empty registry, creates
    both counters. *)
Lemma init_missed_counters_once_witness :
  exists reg',
    outcome (MissedAttestations.init_missed_attestations_per_validator_counters
               0 Scenario.labels_P ∅) = Ok reg'
    /\ is_Some
         (reg' !! MissedAttestations.missed_attestations_per_validator_count)
    /\ is_Some
         (reg'
            !! MissedAttestations.double_missed_attestations_per_validator_count).
Proof.
  destruct (init_missed_counters_once 0 0 Scenario.labels_P Scenario.labels_P
              ∅) as (reg' & Hout & _ & Hboth & _ & Hdone).
  - split; intros [? H]; by rewrite lookup_empty in H.
  - exists reg'. split; [exact Hout|].
    destruct Hdone as [Hm _]; [vm_compute; discriminate|].
    split; [exact Hm|by apply Hboth].
Defined.

Section RewardsInit.
Import Rewards.

Lemma lookup_foldr_insert (names : list string) (v : list string)
    (reg : Registry) (k : string) :
  foldr (fun name r => <[name := v]> r) reg names !! k
  = if decide (k ∈ names) then Some v else reg !! k.
Proof.
  induction names as [|n names IH]; cbn [foldr].
  - destruct (decide (k ∈ [])) as [Hin|_]; [|done].
    by apply elem_of_nil in Hin.
  - destruct (decide (n = k)) as [->|Hne].
    + rewrite lookup_insert_eq.
      destruct (decide (k ∈ k :: names)) as [_|Hin]; [done|].
      exfalso. apply Hin. left.
    + rewrite lookup_insert_ne, IH by done.
      destruct (decide (k ∈ names)) as [Hin|Hin];
        destruct (decide (k ∈ n :: names)) as [Hin'|Hin']; try done.
      * exfalso. apply Hin'. by right.
      * apply elem_of_cons in Hin' as [?|?]; congruence.
Qed.

Lemma ideal_targets_counter :
  "our_ideal_targets_per_validator_count" ∈ per_validator_counters.
Proof. unfold per_validator_counters. right. left. Qed.
End RewardsInit.

(** X9: [init_rewards_per_validator_counters] looks at one of its eleven
    counters and creates the eleven together: from a registry that has
    all of them or none it never raises, keeps every family already
    created, leaves a registry that has all of them or none, does nothing
    on an empty labels map, and once it has run on a non-empty one the
    eleven counters exist and every later call does nothing. *)
Theorem init_rewards_counters_once (rnd rnd' : nat)
    (our_labels our_labels' : OurLabels) (reg : Registry) :
  let created (r : Registry) :=
    forall name, name ∈ Rewards.per_validator_counters -> is_Some (r !! name) in
  let missing (r : Registry) :=
    forall name, name ∈ Rewards.per_validator_counters -> r !! name = None in
  let run := Rewards.init_rewards_per_validator_counters rnd our_labels reg in
  created reg \/ missing reg ->
  exists reg',
    outcome run = Ok reg'
    /\ reg ⊆ reg'
    /\ (created reg' \/ missing reg')
    /\ (len our_labels = 0 -> run = mkM [] (Ok reg))
    /\ (len our_labels <> 0 ->
        created reg'
        /\ Rewards.init_rewards_per_validator_counters rnd' our_labels' reg'
           = mkM [] (Ok reg'))
    /\ (len our_labels <> 0 -> missing reg ->
        length (events run) = (11 + 11 * size our_labels)%nat).
Proof.
  intros created missing run Hreg. subst run.
  unfold Rewards.init_rewards_per_validator_counters.
  destruct (len our_labels =? 0) eqn:Hlen; cbn [orb].
  - exists reg. split; [done|]. split; [done|]. split; [done|].
    apply Z.eqb_eq in Hlen. split; [done|]. split; intros; lia.
  - apply Z.eqb_neq in Hlen.
    destruct Hreg as [Hall|Hnone].
    + pose proof (Hall _ ideal_targets_counter) as Ht.
      rewrite bool_decide_eq_true_2 by done.
      exists reg. split; [done|]. split; [done|]. split; [by left|].
      split; [intros; lia|]. split.
      * intros _. split; [done|].
        rewrite bool_decide_eq_true_2 by done. by rewrite orb_true_r.
      * intros _ Hmiss. rewrite (Hmiss _ ideal_targets_counter) in Ht.
        by destruct Ht.
    + pose proof (Hnone _ ideal_targets_counter) as Ht.
      rewrite bool_decide_eq_false_2 by (rewrite Ht; by intros [? ?]).
      rewrite for_each_emit.
      rewrite (for_each_ok _
                 (fun labels_dict : Labels =>
                    (fun name => SeriesInit name labels_dict)
                      <$> Rewards.per_validator_counters)).
      2:{ intros labels_dict _. apply for_each_emit. }
      run_binds. eexists. split; [reflexivity|].
      assert (forall name, name ∈ Rewards.per_validator_counters ->
                is_Some (foldr (fun name r =>
                           <[name := keys (random_choice rnd
                                             (values our_labels) ∅)]> r)
                           reg Rewards.per_validator_counters !! name))
        as Hcreated.
      { intros name Hname. rewrite lookup_foldr_insert.
        rewrite decide_True by done. by eexists. }
      split.
      { apply map_subseteq_spec. intros k x Hk.
        rewrite lookup_foldr_insert.
        destruct (decide (k ∈ Rewards.per_validator_counters)) as [Hin|Hin];
          [|done].
        rewrite (Hnone k Hin) in Hk. discriminate. }
      split; [by left|]. split; [intros; lia|]. split.
      * intros _. split; [done|].
        rewrite bool_decide_eq_true_2 by (apply Hcreated, ideal_targets_counter).
        by rewrite orb_true_r.
      * intros _ _. rewrite app_nil_r, length_app, length_fmap.
        rewrite (length_concat_const _ _ 11%nat), len_values; [done|].
        intros labels_dict. by rewrite length_fmap.
Qed.

(** The first load of a labels map, from the empty registry, creates the
    eleven counters. *)
Lemma init_rewards_counters_once_witness :
  exists reg',
    outcome (Rewards.init_rewards_per_validator_counters 0 Scenario.labels_P
               ∅) = Ok reg'
    /\ forall name,
         name ∈ Rewards.per_validator_counters -> is_Some (reg' !! name).
Proof.
  destruct (init_rewards_counters_once 0 0 Scenario.labels_P Scenario.labels_P
              ∅) as (reg' & Hout & _ & _ & _ & Hdone & _).
  - right. intros name _. apply lookup_empty.
  - exists reg'. split; [exact Hout|].
    apply Hdone. vm_compute. discriminate.
Defined.
(** ** How a computation can end *)

Section RaisesOnly.
Context {E : Type} (P : exn -> Prop).

Lemma raises_only_ret {A} (a : A) : raises_only P (ret a : M E A).
Proof. intros e H. discriminate. Qed.

Lemma raises_only_emit ev : raises_only P (emit ev : M E unit).
Proof. intros e H. discriminate. Qed.

Lemma raises_only_raise {A} e : P e -> raises_only P (raise e : M E A).
Proof. intros He e' H. by injection H as <-. Qed.

Lemma raises_only_lift {A} (r : result A) :
  (forall e, r = Raise e -> P e) -> raises_only P (lift r : M E A).
Proof. intros Hr e H. by apply Hr. Qed.

Lemma raises_only_bind {A B} (m : M E A) (f : A -> M E B) :
  raises_only P m -> (forall a, outcome m = Ok a -> raises_only P (f a)) ->
  raises_only P (bind m f).
Proof.
  intros Hm Hf e. unfold bind.
  destruct (outcome m) as [a|e'] eqn:Hout; cbn [outcome].
  - by apply Hf.
  - intros [= <-]. by apply Hm.
Qed.

Lemma raises_only_getitem {K V} `{Countable K} (d : gmap K V) k :
  P KeyError -> raises_only P (getitem d k : M E V).
Proof.
  intros HP. unfold getitem. destruct (d !! k).
  - apply raises_only_ret.
  - by apply raises_only_raise.
Qed.

Lemma raises_only_for_each {A} (body : A -> M E unit) l :
  (forall x, x ∈ l -> raises_only P (body x)) ->
  raises_only P (for_each body l).
Proof.
  induction l as [|x l IH]; intros Hb; simpl.
  - apply raises_only_ret.
  - apply raises_only_bind; [apply Hb; left|].
    intros _ _. apply IH. intros y Hy. apply Hb. by right.
Qed.

Lemma raises_only_for_fold {A S} (body : S -> A -> M E S) l s :
  (forall s x, x ∈ l -> raises_only P (body s x)) ->
  raises_only P (for_fold body l s).
Proof.
  revert s. induction l as [|x l IH]; intros s Hb; simpl.
  - apply raises_only_ret.
  - apply raises_only_bind; [apply Hb; left|].
    intros s' _. apply IH. intros s'' y Hy. apply Hb. by right.
Qed.

Lemma raises_only_map_M {A B} (f : A -> M E B) l :
  (forall x, x ∈ l -> raises_only P (f x)) -> raises_only P (map_M f l).
Proof.
  induction l as [|x l IH]; intros Hf; simpl.
  - apply raises_only_ret.
  - apply raises_only_bind; [apply Hf; left|]. intros y _.
    apply raises_only_bind; [|intros; apply raises_only_ret].
    apply IH. intros z Hz. apply Hf. by right.
Qed.
End RaisesOnly.

Lemma raises_only_impl {E A} (P Q : exn -> Prop) (m : M E A) :
  (forall e, P e -> Q e) -> raises_only P m -> raises_only Q m.
Proof. intros H Hm e He. by apply H, Hm. Qed.

Lemma raises_only_ask {A} (P : exn -> Prop) r (answer : result A) :
  (forall e, answer = Raise e -> P e) -> raises_only P (ask r answer).
Proof.
  intros H. unfold ask. apply raises_only_bind; [apply raises_only_emit|].
  intros _ _. by apply raises_only_lift.
Qed.

(** One step of the symbolic execution for [raises_only]. *)
Ltac raises_step :=
  lazymatch goal with
  | |- raises_only _ (bind _ _) => apply raises_only_bind; [|intros]
  | |- raises_only _ (ret _) => apply raises_only_ret
  | |- raises_only _ (emit _) => apply raises_only_emit
  | |- raises_only _ (raise _) => apply raises_only_raise
  | |- raises_only _ (getitem _ _) => apply raises_only_getitem
  | |- raises_only _ (for_each _ _) => apply raises_only_for_each; intros
  | |- raises_only _ (map_M _ _) => apply raises_only_map_M; intros
  | |- raises_only _ (if ?b then _ else _) => destruct b
  | |- raises_only _ (match ?x with _ => _ end) => destruct x
  | |- raises_only _ (let _ := _ in _) => cbv zeta
  end.

(** ** Computations that end well *)

Section EndsWell.
Context {E : Type}.

Lemma map_M_ok_inv {A B} (f : A -> M E B) (l : list A) (ys : list B) :
  outcome (map_M f l) = Ok ys ->
  Forall2 (fun x y => outcome (f x) = Ok y) l ys.
Proof.
  revert ys. induction l as [|x l IH]; intros ys; simpl.
  - intros [= <-]. constructor.
  - intros H. apply bind_ok_inv in H as (y & Hy & H & _).
    apply bind_ok_inv in H as (ys' & Hys & H & _).
    injection H as <-. constructor; [done|by apply IH].
Qed.

Lemma for_each_ok_inv {A} (f : A -> M E unit) (l : list A) :
  outcome (for_each f l) = Ok tt -> forall x, x ∈ l -> outcome (f x) = Ok tt.
Proof.
  induction l as [|x l IH]; simpl; intros H y Hy.
  - by apply elem_of_nil in Hy.
  - apply bind_ok_inv in H as ([] & Hx & H & _).
    apply elem_of_cons in Hy as [->|Hy]; [done|by apply IH].
Qed.

Lemma elem_of_events_bind {A B} (m : M E A) (f : A -> M E B) ev :
  ev ∈ events (bind m f) ->
  ev ∈ events m \/ exists a, outcome m = Ok a /\ ev ∈ events (f a).
Proof.
  unfold bind. destruct (outcome m) as [a|e]; cbn [events]; [|by left].
  intros H. apply elem_of_app in H as [H|H]; [by left|right]. by exists a.
Qed.

Lemma elem_of_events_bind_l {A B} (m : M E A) (f : A -> M E B) ev :
  ev ∈ events m -> ev ∈ events (bind m f).
Proof.
  intros H. destruct (events_bind_prefix m f) as [k ->].
  apply elem_of_app. by left.
Qed.

Lemma elem_of_events_bind_r {A B} (m : M E A) (f : A -> M E B) a ev :
  outcome m = Ok a -> ev ∈ events (f a) -> ev ∈ events (bind m f).
Proof.
  intros Hm H. rewrite (bind_ok _ _ _ Hm). cbn [events].
  apply elem_of_app. by right.
Qed.

Lemma getitem_events {K V} `{Countable K} (d : gmap K V) k :
  events (getitem d k : M E V) = [].
Proof. unfold getitem. by destruct (d !! k). Qed.

Lemma getitem_ok_inv {K V} `{Countable K} (d : gmap K V) k v :
  outcome (getitem d k : M E V) = Ok v -> d !! k = Some v.
Proof. unfold getitem. destruct (d !! k); simpl; congruence. Qed.
End EndsWell.

(** ** The missed-attestation probes, whatever the labels *)

Section MissedMore.
Import MissedAttestations.
Context (our_labels : OurLabels) (index_to_validator : IndexToValidator).

Lemma pubkeys_of_on_record indexes :
  on_record index_to_validator indexes ->
  pubkeys_of index_to_validator indexes
  = ret (pubkey_at index_to_validator <$> elements indexes).
Proof.
  intros Hrec. unfold pubkeys_of. apply map_M_ret. intros index Hin.
  apply elem_of_elements in Hin. apply Hrec, elem_of_dom in Hin as [v Hv].
  unfold getitem, pubkey_at. by rewrite Hv, bind_ret.
Qed.

(** What it takes for the list of pubkeys to be built. *)
Lemma pubkeys_of_ok_inv indexes pubkeys :
  outcome (pubkeys_of index_to_validator indexes) = Ok pubkeys ->
  on_record index_to_validator indexes
  /\ pubkeys = pubkey_at index_to_validator <$> elements indexes.
Proof.
  intros H. assert (on_record index_to_validator indexes) as Hrec.
  { apply map_M_ok_inv in H. intros index Hin.
    apply elem_of_elements, list_elem_of_lookup in Hin as [i Hi].
    destruct (Forall2_lookup_l _ _ _ _ _ H Hi) as (pk & _ & Hpk).
    apply bind_ok_inv in Hpk as (v & Hv & _).
    apply getitem_ok_inv in Hv. apply elem_of_dom. by exists v. }
  split; [done|]. rewrite (pubkeys_of_on_record _ Hrec) in H.
  by injection H as <-.
Qed.
End MissedMore.

Section MissedOutcomes.
Import MissedAttestations.

Lemma ask_ok_inv {A} r (answer : result A) a :
  outcome (ask r answer) = Ok a -> answer = Ok a.
Proof. unfold ask. intros H. by apply bind_ok_inv in H as ([] & _ & H & _). Qed.

Lemma selected_of_window window epoch index_to_validator :
  outcome (if contains window (epoch - 1)
           then window_get window (epoch - 1)
           else window_get window epoch) = Ok index_to_validator ->
  selected window epoch index_to_validator.
Proof.
  unfold selected, window_get.
  destruct (contains window (epoch - 1)); apply getitem_ok_inv.
Qed.

Lemma window_of_selected window epoch index_to_validator :
  selected window epoch index_to_validator ->
  (if contains window (epoch - 1) then window_get window (epoch - 1)
   else window_get window epoch) = ret index_to_validator.
Proof.
  unfold selected, window_get, getitem.
  destruct (contains window (epoch - 1)); by intros ->.
Qed.

(** The increments of a per-validator counter have run to their end:
    every index is labelled. *)
Lemma increments_ok_inv counter our_labels index_to_validator indexes :
  on_record index_to_validator indexes ->
  outcome (for_each (fun pubkey =>
                       do labels <- getitem our_labels pubkey;
                       emit (CounterInc counter labels 1))
             (pubkey_at index_to_validator <$> elements indexes)) = Ok tt ->
  all_labelled our_labels index_to_validator indexes.
Proof.
  intros Hrec H index Hin.
  pose proof (Hrec index Hin) as Hdom. apply elem_of_dom in Hdom as [v Hv].
  exists v. split; [done|].
  assert (pubkey v ∈ pubkey_at index_to_validator <$> elements indexes)
    as Hpk.
  { apply list_elem_of_fmap. exists index. split.
    - unfold pubkey_at. by rewrite Hv.
    - by apply elem_of_elements. }
  pose proof (for_each_ok_inv _ _ H _ Hpk) as Hok.
  apply bind_ok_inv in Hok as (labels & Hl & _).
  apply getitem_ok_inv in Hl. by eexists.
Qed.

Lemma len_pos_ne {K V} `{Countable K} (d : gmap K V) :
  (0 <? len d) = negb (len d =? 0).
Proof. unfold len. destruct (size d); reflexivity. Qed.

Lemma process_missed_raises beacon bt window epoch our_labels reg :
  raises_only
    (fun e =>
       e = KeyError
       \/ exists index_to_validator,
            selected window epoch index_to_validator
            /\ get_validators_liveness beacon bt (epoch - 1)
                 (dom index_to_validator) = Raise e)
    (process_missed_attestations beacon bt window epoch our_labels reg).
Proof.
  unfold process_missed_attestations.
  destruct (epoch <? 1); [apply raises_only_ret|].
  apply raises_only_bind.
  { unfold window_get. repeat raises_step; by left. }
  intros index_to_validator Hw. apply selected_of_window in Hw.
  cbv zeta. apply raises_only_bind.
  { apply raises_only_ask. intros e He. right. by exists index_to_validator. }
  intros liveness _. unfold pubkeys_of.
  repeat raises_step; by left.
Qed.

Lemma process_double_raises dead previous_dead window epoch slack our_labels
    reg :
  raises_only (fun e => e = KeyError)
    (process_double_missed_attestations dead previous_dead window epoch slack
       our_labels reg).
Proof.
  unfold process_double_missed_attestations, window_get, pubkeys_of,
    send_message.
  repeat raises_step; done.
Qed.
End MissedOutcomes.

(** X10: how [process_missed_attestations] can end.  It returns a set only in
    two ways: the empty set below epoch 1, having done nothing, or the set
    of the indices that the beacon reports not live, every one of them on
    record in the snapshot it read and, when the per-validator counter
    exists and labels are configured, labelled.  It raises only
    [KeyError] (a missing snapshot, index or label) or what the liveness
    request raised. *)
Theorem missed_attestations_outcomes (beacon : Beacon) (bt : BeaconType)
    (window : LimitedDict) (epoch : Z) (our_labels : OurLabels)
    (reg : Registry) :
  let run :=
    MissedAttestations.process_missed_attestations beacon bt window epoch
      our_labels reg in
  (forall dead, outcome run = Ok dead ->
     (epoch < 1 /\ dead = ∅ /\ events run = [])
     \/ (1 <= epoch
         /\ exists index_to_validator liveness,
              selected window epoch index_to_validator
              /\ get_validators_liveness beacon bt (epoch - 1)
                   (dom index_to_validator) = Ok liveness
              /\ dead = MissedAttestations.dead_of liveness
              /\ on_record index_to_validator dead
              /\ (is_Some
                    (reg
                       !! MissedAttestations.missed_attestations_per_validator_count)
                  -> len our_labels <> 0 ->
                  all_labelled our_labels index_to_validator dead)))
  /\ (forall e, outcome run = Raise e ->
        1 <= epoch
        /\ (e = KeyError
            \/ exists index_to_validator,
                 selected window epoch index_to_validator
                 /\ get_validators_liveness beacon bt (epoch - 1)
                      (dom index_to_validator) = Raise e)).
Proof.
  intros run. split.
  - intros dead Hout. subst run.
    unfold MissedAttestations.process_missed_attestations in *.
    destruct (epoch <? 1) eqn:Hepoch.
    { left. injection Hout as <-. split; [lia|done]. }
    right. split; [lia|].
    apply bind_ok_inv in Hout as (index_to_validator & Hw & Hout & _).
    apply selected_of_window in Hw. cbv zeta in Hout.
    apply bind_ok_inv in Hout as (liveness & Hl & Hout & _).
    apply ask_ok_inv in Hl.
    exists index_to_validator, liveness. split; [done|]. split; [done|].
    apply bind_ok_inv in Hout as ([] & _ & Hout & _).
    rewrite size_eqb_0 in Hout.
    destruct (decide (MissedAttestations.dead_of liveness = ∅)) as [He|Hne].
    { rewrite bool_decide_eq_true_2 in Hout by done. injection Hout as <-.
      rewrite He. split; [done|]. split.
      { unfold on_record. intros x Hx. by apply elem_of_empty in Hx. }
      intros _ _ index Hin. by apply elem_of_empty in Hin. }
    rewrite bool_decide_eq_false_2 in Hout by done.
    apply bind_ok_inv in Hout as (pubkeys & Hp & Hout & _).
    apply pubkeys_of_ok_inv in Hp as [Hrec ->].
    apply bind_ok_inv in Hout as ([] & _ & Hout & _).
    apply bind_ok_inv in Hout as ([] & Hinc & Hout & _).
    injection Hout as <-. split; [done|]. split; [done|].
    intros Hreg Hlen.
    rewrite bool_decide_eq_true_2, len_pos_ne in Hinc by done.
    apply Z.eqb_neq in Hlen. rewrite Hlen in Hinc. cbn [andb negb] in Hinc.
    by apply (increments_ok_inv _ _ _ _ Hrec Hinc).
  - intros e Hout. subst run. split.
    + unfold MissedAttestations.process_missed_attestations in Hout.
      destruct (epoch <? 1) eqn:Hepoch; [discriminate|lia].
    + by apply (process_missed_raises beacon bt window epoch our_labels reg e).
Qed.

(** X11: how [process_double_missed_attestations] can end.  It returns the
    empty set below epoch 2, having done nothing, and otherwise the
    intersection of the two dead sets; when that intersection is not empty,
    the snapshot of the previous epoch is in the window and has every index
    of it on record, labelled when the per-validator counter exists and
    labels are configured.  It raises nothing but [KeyError], and only on a
    non-empty intersection.  A chat message is sent only through a
    configured chat, and repeats a line printed on the console. *)
Theorem double_miss_outcomes (dead previous_dead : gset Z)
    (window : LimitedDict) (epoch : Z) (slack : option Slack)
    (our_labels : OurLabels) (reg : Registry) :
  let run :=
    MissedAttestations.process_double_missed_attestations dead previous_dead
      window epoch slack our_labels reg in
  (forall double, outcome run = Ok double ->
     (epoch < 2 /\ double = ∅ /\ events run = [])
     \/ (2 <= epoch /\ double = dead ∩ previous_dead
         /\ (double <> ∅ ->
             exists index_to_validator,
               items window !! (epoch - 1) = Some index_to_validator
               /\ on_record index_to_validator double
               /\ (is_Some
                     (reg
                        !! MissedAttestations.double_missed_attestations_per_validator_count)
                   -> len our_labels <> 0 ->
                   all_labelled our_labels index_to_validator double))))
  /\ (forall e, outcome run = Raise e ->
        e = KeyError /\ 2 <= epoch /\ dead ∩ previous_dead <> ∅)
  /\ (forall m, SlackSend m ∈ events run ->
        is_Some slack /\ Print m ∈ events run).
Proof.
  intros run. split; [|split].
  - intros double Hout. subst run.
    unfold MissedAttestations.process_double_missed_attestations in *.
    destruct (epoch <? 2) eqn:Hepoch.
    { left. injection Hout as <-. split; [lia|done]. }
    right. split; [lia|]. cbv zeta in Hout.
    apply bind_ok_inv in Hout as ([] & _ & Hout & _).
    rewrite size_eqb_0 in Hout.
    destruct (decide (dead ∩ previous_dead = ∅)) as [He|Hne].
    { rewrite bool_decide_eq_true_2 in Hout by done. injection Hout as <-.
      split; [done|]. intros Hne. done. }
    rewrite bool_decide_eq_false_2 in Hout by done.
    apply bind_ok_inv in Hout as (index_to_validator & Hw & Hout & _).
    apply getitem_ok_inv in Hw.
    apply bind_ok_inv in Hout as (pubkeys & Hp & Hout & _).
    apply pubkeys_of_ok_inv in Hp as [Hrec ->].
    apply bind_ok_inv in Hout as ([] & _ & Hout & _).
    apply bind_ok_inv in Hout as ([] & _ & Hout & _).
    apply bind_ok_inv in Hout as ([] & Hinc & Hout & _).
    injection Hout as <-. split; [done|]. intros _.
    exists index_to_validator. split; [done|]. split; [done|].
    intros Hreg Hlen.
    rewrite bool_decide_eq_true_2, len_pos_ne in Hinc by done.
    apply Z.eqb_neq in Hlen. rewrite Hlen in Hinc. cbn [andb negb] in Hinc.
    by apply (increments_ok_inv _ _ _ _ Hrec Hinc).
  - intros e Hout. split.
    { by apply (process_double_raises dead previous_dead window epoch slack
                  our_labels reg e). }
    subst run.
    unfold MissedAttestations.process_double_missed_attestations in Hout.
    destruct (epoch <? 2) eqn:Hepoch; [discriminate|]. split; [lia|].
    cbv zeta in Hout. intros Hempty. rewrite Hempty in Hout.
    discriminate Hout.
  - intros m Hin. subst run.
    unfold MissedAttestations.process_double_missed_attestations in *.
    destruct (epoch <? 2); [by apply elem_of_nil in Hin|].
    cbv zeta in *.
    apply elem_of_events_bind in Hin as [Hin|([] & Hg & Hin)].
    { apply list_elem_of_singleton in Hin. discriminate. }
    destruct (size (dead ∩ previous_dead) =? 0)%nat;
      [by apply elem_of_nil in Hin|].
    apply elem_of_events_bind in Hin as [Hin|(i2v & Hw & Hin)].
    { unfold window_get in Hin. rewrite getitem_events in Hin.
      by apply elem_of_nil in Hin. }
    apply elem_of_events_bind in Hin as [Hin|(pubkeys & Hp & Hin)].
    { exfalso. revert Hin. unfold MissedAttestations.pubkeys_of.
      assert (emits (fun ev => ev <> SlackSend m)
                (map_M (fun index =>
                          do validator <- getitem i2v index;
                          ret (pubkey validator))
                   (elements (dead ∩ previous_dead)) : Run (list string)))
        as Hem by (repeat emits_step).
      intros Hin. unfold emits in Hem. rewrite Forall_forall in Hem.
      by apply (Hem _ Hin). }
    apply elem_of_events_bind in Hin as [Hin|([] & Hpr & Hin)].
    { apply list_elem_of_singleton in Hin. discriminate. }
    apply elem_of_events_bind in Hin as [Hin|([] & Hs & Hin)].
    + destruct slack as [s|]; [|by apply elem_of_nil in Hin].
      apply list_elem_of_singleton in Hin. injection Hin as ->.
      split; [by eexists|].
      apply (elem_of_events_bind_r _ _ _ _ Hg).
      apply (elem_of_events_bind_r _ _ _ _ Hw).
      apply (elem_of_events_bind_r _ _ _ _ Hp).
      apply elem_of_events_bind_l. left.
    + exfalso. revert Hin.
      match goal with |- _ ∈ events ?tail -> _ =>
        assert (emits (fun ev => ev <> SlackSend m) tail) as Hem
          by (repeat emits_step; discriminate)
      end.
      intros Hin. unfold emits in Hem. rewrite Forall_forall in Hem.
      by apply (Hem _ Hin).
Qed.

(** X12: without a labels map, or before the per-validator counters exist, the
    two missed-attestation probes do everything but count per validator:
    with every dead index on record, [process_missed_attestations] asks
    for the liveness, sets its gauge, prints its line and returns the dead
    set, and [process_double_missed_attestations] sets its gauge, prints
    and sends its line and returns the intersection; neither increments a
    per-validator counter, whatever the number of dead validators. *)
Theorem misses_without_counter (beacon : Beacon) (bt : BeaconType)
    (window : LimitedDict) (epoch : Z) (slack : option Slack)
    (our_labels : OurLabels) (reg : Registry)
    (index_to_validator : IndexToValidator) (liveness : gmap Z bool)
    (dead previous_dead : gset Z) :
  (1 <= epoch ->
   selected window epoch index_to_validator ->
   get_validators_liveness beacon bt (epoch - 1) (dom index_to_validator)
   = Ok liveness ->
   on_record index_to_validator (MissedAttestations.dead_of liveness) ->
   reg !! MissedAttestations.missed_attestations_per_validator_count = None
   \/ len our_labels = 0 ->
   MissedAttestations.process_missed_attestations beacon bt window epoch
     our_labels reg
   = mkM (missed_report bt epoch index_to_validator
            (MissedAttestations.dead_of liveness))
       (Ok (MissedAttestations.dead_of liveness)))
  /\ (2 <= epoch ->
      items window !! (epoch - 1) = Some index_to_validator ->
      on_record index_to_validator (dead ∩ previous_dead) ->
      reg !! MissedAttestations.double_missed_attestations_per_validator_count
      = None
      \/ len our_labels = 0 ->
      MissedAttestations.process_double_missed_attestations dead
        previous_dead window epoch slack our_labels reg
      = mkM (double_miss_report epoch slack index_to_validator
               (dead ∩ previous_dead))
          (Ok (dead ∩ previous_dead))).
Proof.
  split.
  - intros Hepoch Hwindow Hliveness Hrec Hno.
    unfold MissedAttestations.process_missed_attestations, missed_report.
    assert ((epoch <? 1) = false) as -> by lia.
    rewrite (window_of_selected _ _ _ Hwindow), bind_ret. unfold ask.
    rewrite Hliveness. run_binds. rewrite size_eqb_0.
    destruct (decide (MissedAttestations.dead_of liveness = ∅))
      as [Hempty|Hne].
    + rewrite bool_decide_eq_true_2 by done. by rewrite Hempty.
    + rewrite bool_decide_eq_false_2 by done.
      rewrite (pubkeys_of_on_record _ _ Hrec). run_binds.
      assert (bool_decide
                (is_Some
                   (reg !! MissedAttestations.missed_attestations_per_validator_count))
              && (0 <? len our_labels) = false) as ->.
      { destruct Hno as [Hreg|Hlen].
        - rewrite bool_decide_eq_false_2; [done|].
          rewrite Hreg. by intros [? ?].
        - rewrite Hlen. apply andb_false_r. }
      run_binds. unfold named. reflexivity.
  - intros Hepoch Hwindow Hrec Hno.
    unfold MissedAttestations.process_double_missed_attestations,
      double_miss_report.
    assert ((epoch <? 2) = false) as -> by lia.
    rewrite size_eqb_0.
    destruct (decide (dead ∩ previous_dead = ∅)) as [Hempty|Hne].
    + rewrite !bool_decide_eq_true_2 by done. by rewrite Hempty.
    + rewrite !(bool_decide_eq_false_2 (dead ∩ previous_dead = ∅)) by done.
      unfold window_get. unfold getitem at 1. rewrite Hwindow, bind_ret.
      rewrite (pubkeys_of_on_record _ _ Hrec), bind_ret.
      assert (bool_decide
                (is_Some
                   (reg !! MissedAttestations.double_missed_attestations_per_validator_count))
              && (0 <? len our_labels) = false) as ->.
      { destruct Hno as [Hreg|Hlen].
        - rewrite bool_decide_eq_false_2; [done|].
          rewrite Hreg. by intros [? ?].
        - rewrite Hlen. apply andb_false_r. }
      unfold double_miss_line, named.
      destruct slack; unfold send_message; run_binds; reflexivity.
Qed.
(** ** Order on the pubkeys *)

Section StringOrder.

Lemma string_compare_trans (s1 : string) :
  forall s2 s3,
    String.compare s1 s2 <> Gt -> String.compare s2 s3 <> Gt ->
    String.compare s1 s3 <> Gt.
Proof.
  induction s1 as [|c1 s1 IH]; intros [|c2 s2] [|c3 s3]; simpl; try done.
  unfold Ascii.compare.
  destruct (N.compare_spec (Ascii.N_of_ascii c1) (Ascii.N_of_ascii c2));
    destruct (N.compare_spec (Ascii.N_of_ascii c2) (Ascii.N_of_ascii c3));
    destruct (N.compare_spec (Ascii.N_of_ascii c1) (Ascii.N_of_ascii c3));
    try done; try lia.
  apply IH.
Qed.

#[local] Instance str_le_trans : Transitive Rewards.str_le.
Proof.
  intros s1 s2 s3. unfold Rewards.str_le, String.leb. intros H12 H23.
  pose proof (string_compare_trans s1 s2 s3) as H.
  destruct (String.compare s1 s2); try done;
    destruct (String.compare s2 s3); try done;
    destruct (String.compare s1 s3); try done; exfalso; by apply H.
Qed.

#[local] Instance str_le_total : Total Rewards.str_le.
Proof. intros s1 s2. apply String.leb_total. Qed.

Lemma str_le_sorted (l : list string) :
  StronglySorted Rewards.str_le (merge_sort Rewards.str_le l).
Proof. apply StronglySorted_merge_sort; apply _. Qed.
End StringOrder.

(** ** The parts of the rewards probe *)

Section RewardsParts.
Import Rewards.

Lemma Qz_abs_nonneg v : (0 <= Qz (Z.abs v))%Q.
Proof. unfold Qz, inject_Z, Qle. simpl. lia. Qed.

Lemma zip3_sums (pub_keys : list string) :
  forall sources targets heads,
    zip pub_keys (sums3 sources targets heads)
    = (fun x : string * Z * Z * Z => (x.1.1.1, x.1.1.2 + x.1.2 + x.2))
        <$> zip (zip (zip pub_keys sources) targets) heads.
Proof.
  unfold sums3.
  induction pub_keys as [|pk pub_keys IH];
    intros [|s sources] [|t targets] [|h heads]; try reflexivity.
  csimpl. by rewrite <- IH.
Qed.

Lemma for_each_fmap {E A B} (g : A -> B) (f : B -> M E unit) (l : list A) :
  for_each f (g <$> l) = for_each (fun x => f (g x)) l.
Proof. induction l as [|x l IH]; [done|]. csimpl. by rewrite IH. Qed.

Lemma for_each_ext {E A} (f g : A -> M E unit) (l : list A) :
  (forall x, x ∈ l -> f x = g x) -> for_each f l = for_each g l.
Proof.
  induction l as [|x l IH]; intros H; [done|]. simpl.
  rewrite (H x) by left. apply bind_ext. intros _ _. apply IH.
  intros y Hy. apply H. by right.
Qed.
End RewardsParts.

(** X13: [_validator_summary_counters_update] is [_validator_counters_update]
    on the sums [source + target + head], whatever the lengths of the
    lists (both stop at the shortest). *)
Theorem validator_summary_is_update_of_sums
    (counter_pos counter_neg : option string) (pub_keys : list string)
    (sources targets heads : list Z) (labels_dict : OurLabels) :
  Rewards._validator_summary_counters_update counter_pos counter_neg pub_keys
    sources targets heads labels_dict
  = Rewards._validator_counters_update counter_pos counter_neg pub_keys
      (sums3 sources targets heads) labels_dict.
Proof.
  unfold Rewards._validator_summary_counters_update,
    Rewards._validator_counters_update.
  destruct (_ || _); [reflexivity|].
  rewrite zip3_sums, for_each_fmap.
  apply for_each_ext. by intros [[[pk s] t] h] _.
Qed.

Section Rates.
Import Rewards.

Lemma count_true_le (l : list bool) :
  (length (filter (fun b => b = true) l) <= length l)%nat.
Proof. apply length_filter. Qed.

Lemma count_true_all (l : list bool) :
  length (filter (fun b => b = true) l) = length l
  <-> Forall (fun b => b = true) l.
Proof.
  induction l as [|b l IH]; [by split; [constructor|]|].
  pose proof (count_true_le l) as Hle. destruct b.
  - rewrite filter_cons_True by done. simpl. rewrite Forall_cons.
    split; [intros [= H]; split; [done|by apply IH]|].
    intros [_ H]. f_equal. by apply IH.
  - rewrite filter_cons_False by done. simpl. rewrite Forall_cons.
    split; [lia|]. by intros [? _].
Qed.

Lemma count_true_none (l : list bool) :
  length (filter (fun b => b = true) l) = 0%nat
  <-> Forall (fun b => b = false) l.
Proof.
  induction l as [|b l IH]; [by split; [constructor|]|]. destruct b.
  - rewrite filter_cons_True by done. simpl. rewrite Forall_cons.
    split; [lia|]. by intros [? _].
  - rewrite filter_cons_False by done. rewrite Forall_cons, IH. tauto.
Qed.
End Rates.

(** X14: the suboptimal rate [1 - sum(are_ideal) / len(are_ideal)] of a
    non-empty list of flags is a number between 0 and 1: 0 exactly when
    every flag is set, 1 exactly when none is.  On the empty list the
    division raises [ZeroDivisionError]. *)
Theorem suboptimal_rate_bounds (are_ideal : list bool) :
  (are_ideal = [] ->
   Rewards.suboptimal_rate_of are_ideal
   = (raise ZeroDivisionError : Run Q))
  /\ (are_ideal <> [] ->
      exists rate,
        Rewards.suboptimal_rate_of are_ideal = (ret rate : Run Q)
        /\ (0 <= rate)%Q /\ (rate <= 1)%Q
        /\ (rate == 0 <-> Forall (fun b => b = true) are_ideal)%Q
        /\ (rate == 1 <-> Forall (fun b => b = false) are_ideal)%Q).
Proof.
  split; [by intros ->|]. intros Hne.
  unfold Rewards.suboptimal_rate_of.
  destruct are_ideal as [|b l] eqn:Hl; [done|]. rewrite <- Hl.
  assert (length are_ideal = S (length l)) as Hlen by (by rewrite Hl).
  rewrite Hlen. eexists. split; [reflexivity|].
  pose proof (count_true_le are_ideal) as Hle.
  rewrite <- count_true_all, <- count_true_none.
  set (k := length (filter (fun b => b = true) are_ideal)) in *.
  rewrite Hlen in *.
  pose proof (Zpos_P_of_succ_nat (length l)) as Hpos.
  unfold Qle, Qeq, Qminus, Qplus, Qopp. simpl.
  rewrite !Hpos. repeat split; try lia.
Qed.

Section CountersUpdate.
Import Rewards.
Context (labels_dict : OurLabels).

Lemma signed_inc_pos pos neg labels value :
  0 <= value ->
  signed_inc (Some pos) neg labels value
  = emit (CounterInc pos labels (Qz (Z.abs value))).
Proof.
  intros Hv. unfold signed_inc.
  assert ((0 <=? value) = true) as -> by lia. reflexivity.
Qed.

Lemma signed_inc_neg pos neg labels value :
  value < 0 ->
  signed_inc pos (Some neg) labels value
  = emit (CounterInc neg labels (Qz (Z.abs value))).
Proof.
  intros Hv. unfold signed_inc.
  assert ((0 <=? value) = false) as -> by lia. reflexivity.
Qed.

(** The loop of [_validator_counters_update] on labelled pubkeys, when a
    counter exists for the sign of every value. *)
Lemma update_loop_run pos (counter_neg : option string) neg
    (pvs : list (string * Z)) :
  (forall pv, pv ∈ pvs -> is_Some (labels_dict !! pv.1)) ->
  (forall pv, pv ∈ pvs -> pv.2 < 0 -> counter_neg = Some neg) ->
  for_each (fun pv : string * Z =>
              let '(pubkey, value) := pv in
              do labels <- getitem labels_dict pubkey;
              signed_inc (Some pos) counter_neg labels value)
    pvs
  = mkM (signed_increment pos neg labels_dict <$> pvs) (Ok tt).
Proof.
  intros Hlab Hneg.
  rewrite (for_each_ok _ (fun pv => [signed_increment pos neg labels_dict pv])).
  - f_equal. induction pvs as [|pv pvs' IH]; [done|]. csimpl. f_equal.
    apply IH; intros pv' Hin; [apply Hlab|apply Hneg]; by right.
  - intros [pk v] Hin. destruct (Hlab _ Hin) as [labels Hl]. simpl in Hl.
    unfold getitem, signed_increment. cbn [fst snd].
    rewrite Hl, bind_ret. cbn [default].
    destruct (decide (0 <= v)) as [Hv|Hv].
    + rewrite signed_inc_pos by done.
      assert ((0 <=? v) = true) as -> by lia. reflexivity.
    + rewrite (Hneg _ Hin) by (simpl; lia).
      rewrite signed_inc_neg by lia.
      assert ((0 <=? v) = false) as -> by lia. reflexivity.
Qed.

(** The loop stops with [AttributeError] at a negative value that has no
    counter. *)
Lemma update_loop_raises pos (pvs : list (string * Z)) :
  (forall pv, pv ∈ pvs -> is_Some (labels_dict !! pv.1)) ->
  Exists (fun pv => pv.2 < 0) pvs ->
  outcome (for_each (fun pv : string * Z =>
                       let '(pubkey, value) := pv in
                       do labels <- getitem labels_dict pubkey;
                       signed_inc (Some pos) None labels value)
             pvs)
  = Raise AttributeError.
Proof.
  intros Hlab Hex. induction pvs as [|[pk v] pvs' IH].
  - by apply Exists_nil in Hex.
  - simpl. destruct (Hlab (pk, v)) as [labels Hl]; [left|]. simpl in Hl.
    unfold getitem at 1. rewrite Hl, bind_ret.
    destruct (decide (0 <= v)) as [Hv|Hv].
    + rewrite signed_inc_pos by done. unfold emit. rewrite bind_mk_ok.
      cbn [outcome]. apply IH.
      * intros pv Hin. apply Hlab. by right.
      * apply Exists_cons in Hex as [Hex|Hex]; [simpl in Hex; lia|done].
    + unfold signed_inc. assert ((0 <=? v) = false) as -> by lia.
      reflexivity.
Qed.

Lemma update_loop_emits (counter_pos counter_neg : option string)
    (pvs : list (string * Z)) :
  emits (fun ev =>
           exists name labels amount,
             ev = CounterInc name labels amount
             /\ (0 <= amount)%Q
             /\ (counter_pos = Some name \/ counter_neg = Some name))
    (for_each (fun pv : string * Z =>
                 let '(pubkey, value) := pv in
                 do labels <- getitem labels_dict pubkey;
                 signed_inc counter_pos counter_neg labels value)
       pvs).
Proof.
  apply emits_for_each. intros [pk v]. unfold signed_inc.
  apply emits_bind; [apply emits_getitem|]. intros labels _.
  destruct (0 <=? v).
  - destruct counter_pos as [pos|]; [|apply emits_raise].
    apply emits_emit. exists pos, labels, (Qz (Z.abs v)).
    split; [done|]. split; [apply Qz_abs_nonneg|by left].
  - destruct counter_neg as [neg|]; [|apply emits_raise].
    apply emits_emit. exists neg, labels, (Qz (Z.abs v)).
    split; [done|]. split; [apply Qz_abs_nonneg|by right].
Qed.
End CountersUpdate.

(** X15: [_validator_counters_update] does nothing without its first counter or
    without labels.  Otherwise, the pubkeys being labelled, it makes one
    increment for each (pubkey, value) pair, in order, by the absolute
    value, on the first counter for a value that is not negative and on
    the second for a negative one; when there is no second counter, the
    first negative value ends it with [AttributeError].  Whatever the
    arguments, it increments nothing but its two counters and never by a
    negative amount. *)
Theorem validator_counters_update_run (counter_pos counter_neg : option string)
    (pub_keys : list string) (values : list Z) (labels_dict : OurLabels) :
  let run :=
    Rewards._validator_counters_update counter_pos counter_neg pub_keys
      values labels_dict in
  let pairs := zip pub_keys values in
  (counter_pos = None \/ len labels_dict = 0 -> run = mkM [] (Ok tt))
  /\ (forall pos,
        counter_pos = Some pos -> len labels_dict <> 0 ->
        (forall pv, pv ∈ pairs -> is_Some (labels_dict !! pv.1)) ->
        (forall neg, counter_neg = Some neg ->
           run = mkM (signed_increment pos neg labels_dict <$> pairs) (Ok tt))
        /\ (counter_neg = None -> Forall (fun pv => 0 <= pv.2) pairs ->
            run = mkM (signed_increment pos pos labels_dict <$> pairs) (Ok tt))
        /\ (counter_neg = None -> Exists (fun pv => pv.2 < 0) pairs ->
            outcome run = Raise AttributeError))
  /\ (forall name labels amount,
        CounterInc name labels amount ∈ events run ->
        (0 <= amount)%Q
        /\ (counter_pos = Some name \/ counter_neg = Some name)).
Proof.
  intros run pairs. subst run pairs.
  unfold Rewards._validator_counters_update. split; [|split].
  - intros [->|Hlen]; [reflexivity|].
    rewrite Hlen. cbn [Z.eqb]. by rewrite orb_true_r.
  - intros pos -> Hlen Hlab.
    assert ((len labels_dict =? 0) = false) as -> by (by apply Z.eqb_neq).
    rewrite bool_decide_eq_false_2 by discriminate. cbn [orb].
    split; [|split].
    + intros neg ->. apply update_loop_run; [done|]. by intros.
    + intros -> Hpos. apply (update_loop_run _ _ None pos); [done|].
      intros pv Hin Hneg. rewrite Forall_forall in Hpos.
      specialize (Hpos _ Hin). lia.
    + intros ->. by apply update_loop_raises.
  - intros name labels amount Hin.
    destruct (_ || _); [by apply elem_of_nil in Hin|].
    pose proof (update_loop_emits labels_dict counter_pos counter_neg
                  (zip pub_keys values)) as Hem.
    unfold emits in Hem. rewrite Forall_forall in Hem.
    destruct (Hem _ Hin) as (n & l & a & Heq & Ha & Hc).
    by injection Heq as -> -> ->.
Qed.

(** X16: [_log] prints nothing when no pubkey comes with a flag that is not
    set.  Otherwise it prints one line: the pubkeys that are not perfect,
    each counted once, are sorted; the line names the first five of them,
    which are the smallest, cut to ten characters, and gives the number of
    those it leaves out, for the epoch two before the current one. *)
Theorem log_names_smallest (pubkeys : list string) (are_ideal : list bool)
    (suboptimal_rate : Q) (epoch : Z) (label : string) :
  let bad := imperfect pubkeys are_ideal in
  let run := Rewards._log pubkeys are_ideal suboptimal_rate epoch label in
  (bad = [] -> run = mkM [] (Ok tt))
  /\ (bad <> [] ->
      exists named rest,
        run = mkM [Print (MsgNotIdealRewards label (short <$> named)
                            (Z.of_nat (length rest)) (epoch - 2)
                            suboptimal_rate)]
                (Ok tt)
        /\ named ++ rest ≡ₚ remove_dups bad
        /\ StronglySorted Rewards.str_le (named ++ rest)
        /\ (length named <= 5)%nat
        /\ (rest <> [] -> length named = 5%nat)).
Proof.
  intros bad run. subst run. unfold Rewards._log. fold (imperfect pubkeys are_ideal).
  fold bad. split.
  - intros ->. reflexivity.
  - intros Hne.
    assert ((0 <? length (remove_dups bad))%nat = true) as ->.
    { apply Nat.ltb_lt. destruct bad as [|pk bad'] eqn:Hbad; [done|].
      assert (pk ∈ remove_dups (pk :: bad')) as Hin
        by (apply elem_of_remove_dups; left).
      destruct (remove_dups (pk :: bad')); [by apply elem_of_nil in Hin|].
      simpl. lia. }
    set (sorted := merge_sort Rewards.str_le (remove_dups bad)).
    exists (take 5 sorted), (drop 5 sorted).
    assert (length (remove_dups bad) = length sorted) as Hlen.
    { subst sorted. by rewrite merge_sort_Permutation. }
    split; [|split; [|split; [|split]]].
    + unfold emit. do 3 f_equal.
      assert (Z.of_nat (length (remove_dups bad))
              - Z.of_nat (length (take 5 sorted))
              = Z.of_nat (length (drop 5 sorted))) as ->; [|done].
      rewrite Hlen, length_take, length_drop. lia.
    + rewrite take_drop. apply merge_sort_Permutation.
    + rewrite take_drop. apply str_le_sorted.
    + rewrite length_take. lia.
    + intros Hrest. rewrite length_take.
      assert (length (drop 5 sorted) <> 0%nat) as Hd.
      { intros H0. by apply nil_length_inv in H0. }
      rewrite length_drop in Hd. lia.
Qed.

(** ** How the rewards probe can end *)

Section RewardsOutcomes.
Import Rewards.
Context (beacon : Beacon) (bt : BeaconType) (epoch : Z).

Local Abbreviation expected := (rewards_exception beacon bt epoch).

Lemma suboptimal_rate_of_raises (P : exn -> Prop) (l : list bool) :
  l <> [] -> raises_only P (suboptimal_rate_of l : Run Q).
Proof.
  intros Hne. unfold suboptimal_rate_of.
  destruct l as [|b l]; [done|]. apply raises_only_ret.
Qed.

Lemma aggregate_raises (P : exn -> Prop) who ideal_rewards actual_rewards
    (ideals : list AreIdeal) :
  ideals <> [] ->
  raises_only P (aggregate who ideal_rewards actual_rewards ideals).
Proof.
  intros Hne. unfold aggregate.
  assert (forall f : AreIdeal -> bool, f <$> ideals <> []) as Hf.
  { intros f. destruct ideals; [done|discriminate]. }
  repeat (raises_step || (apply suboptimal_rate_of_raises; apply Hf)).
Qed.

Lemma unzip_items_ok_inv (l : list Item) pubkeys ideal_rewards actual_rewards
    ideals :
  outcome (unzip_items l)
  = Ok (pubkeys, ideal_rewards, actual_rewards, ideals) ->
  ideals <> [] /\ l <> [].
Proof.
  unfold unzip_items. destruct l as [|x l]; [discriminate|].
  intros [= <- <- <- <-]. split; discriminate.
Qed.

Lemma counters_update_raises counter_pos counter_neg pub_keys values
    labels_dict :
  raises_only expected
    (_validator_counters_update counter_pos counter_neg pub_keys values
       labels_dict).
Proof.
  unfold _validator_counters_update, signed_inc.
  repeat raises_step; unfold rewards_exception; tauto.
Qed.

Lemma summary_update_raises counter_pos counter_neg pub_keys sources targets
    heads labels_dict :
  raises_only expected
    (_validator_summary_counters_update counter_pos counter_neg pub_keys
       sources targets heads labels_dict).
Proof.
  unfold _validator_summary_counters_update, signed_inc.
  repeat raises_step; unfold rewards_exception; tauto.
Qed.

Lemma log_raises pubkeys are_ideal rate label :
  raises_only expected (_log pubkeys are_ideal rate epoch label).
Proof. unfold _log. repeat raises_step. Qed.

Lemma window_of_raises w :
  raises_only expected (window_of w epoch).
Proof.
  unfold window_of, window_get.
  repeat raises_step; unfold rewards_exception; tauto.
Qed.

Lemma process_rewards_raises net our our_labels reg :
  raises_only expected
    (process_rewards beacon bt epoch net our our_labels reg).
Proof.
  unfold process_rewards.
  destruct (epoch <? 2); [apply raises_only_ret|].
  apply raises_only_bind; [apply window_of_raises|].
  intros net_index_to_validator _.
  destruct (len net_index_to_validator =? 0); [apply raises_only_ret|].
  apply raises_only_bind.
  { apply raises_only_ask. intros e He. do 3 right. by eexists. }
  intros data _. cbv zeta.
  apply raises_only_bind.
  { unfold net_items, item_of.
    repeat raises_step; unfold rewards_exception; tauto. }
  intros items _. apply raises_only_bind.
  { unfold unzip_items. repeat raises_step. unfold rewards_exception. tauto. }
  intros [[[pubkeys ideal_rewards] actual_rewards] ideals] Hunzip.
  apply unzip_items_ok_inv in Hunzip as [Hne _].
  apply raises_only_bind; [by apply aggregate_raises|]. intros _ _.
  apply raises_only_bind; [apply window_of_raises|].
  intros our_index_to_validator _.
  destruct (size (dom our_index_to_validator) =? 0)%nat;
    [apply raises_only_ret|].
  apply raises_only_bind.
  { apply raises_only_ask. intros e He. do 3 right. by eexists. }
  intros data' _.
  apply raises_only_bind.
  { unfold our_items, item_of.
    repeat raises_step; unfold rewards_exception; tauto. }
  intros items' _. apply raises_only_bind.
  { unfold unzip_items. repeat raises_step. unfold rewards_exception. tauto. }
  intros [[[pubkeys' ideal_rewards'] actual_rewards'] ideals'] Hunzip'.
  apply unzip_items_ok_inv in Hunzip' as [Hne' _].
  apply raises_only_bind; [by apply aggregate_raises|].
  intros [[rs rt] rh] _.
  repeat (apply raises_only_bind;
          [first [apply counters_update_raises | apply summary_update_raises
                 | apply log_raises]
          |intros _ _]).
  apply log_raises.
Qed.
End RewardsOutcomes.

(** X17: [process_rewards] raises nothing but [KeyError] (a missing snapshot,
    a watched validator without its rows, a pubkey without labels),
    [ValueError] (the unpacking of an empty list of items),
    [AttributeError] (a negative value for a counter that has no negative
    twin) and what one of its two requests raised.  In particular the
    rates are never computed on an empty list: it divides by zero only if
    the beacon client did. *)
Theorem rewards_probe_exceptions (beacon : Beacon) (bt : BeaconType)
    (epoch : Z) (net our : LimitedDict) (our_labels : OurLabels)
    (reg : Registry) (e : exn) :
  outcome (Rewards.process_rewards beacon bt epoch net our our_labels reg)
  = Raise e ->
  2 <= epoch
  /\ (e = KeyError \/ e = ValueError \/ e = AttributeError
      \/ exists indices, get_rewards beacon bt (epoch - 2) indices = Raise e).
Proof.
  intros Hout. split.
  - unfold Rewards.process_rewards in Hout.
    destruct (epoch <? 2) eqn:Hepoch; [discriminate|lia].
  - by apply (process_rewards_raises beacon bt epoch net our our_labels reg e).
Qed.

(** A validator on record at epochs 0, 1 and 2, and a beacon whose rewards
    response has no row: the probe asks once and ends at the unpacking. *)
Lemma rewards_probe_exceptions_witness :
  2 <= 2
  /\ (ValueError = KeyError \/ ValueError = ValueError
      \/ ValueError = AttributeError
      \/ exists indices,
           get_rewards Scenario.quiet_beacon OTHER (2 - 2) indices
           = Raise ValueError).
Proof.
  apply (rewards_probe_exceptions Scenario.quiet_beacon OTHER 2
           Scenario.window_42 Scenario.window_42 ∅ ∅ ValueError).
  vm_compute. reflexivity.
Defined.

(** X18: when no validator of the network snapshot has both of its rows in the
    rewards response (an empty response, for one), [process_rewards] ends
    with [ValueError] right after its first request: the list of items is
    empty and cannot be unpacked.  No counter or gauge is touched and the
    watched validators are not looked at. *)
Theorem rewards_probe_without_rows (beacon : Beacon) (bt : BeaconType)
    (epoch : Z) (net our : LimitedDict) (our_labels : OurLabels)
    (reg : Registry) (net_index_to_validator : IndexToValidator)
    (data : RewardsData) :
  2 <= epoch ->
  items net !! (epoch - 2) = Some net_index_to_validator ->
  net_index_to_validator <> ∅ ->
  get_rewards beacon bt (epoch - 2) None = Ok data ->
  (forall index validator,
      net_index_to_validator !! index = Some validator ->
      ~ has_rewards_rows data (index, validator)) ->
  Rewards.process_rewards beacon bt epoch net our our_labels reg
  = mkM [Request (ReqRewards bt (epoch - 2) None)] (Raise ValueError).
Proof.
  intros Hepoch Hwindow Hne Hdata Hrows. unfold Rewards.process_rewards.
  assert ((epoch <? 2) = false) as -> by lia.
  assert (Rewards.window_of net epoch = ret net_index_to_validator) as ->.
  { unfold Rewards.window_of, contains, window_get, getitem.
    rewrite Hwindow. by rewrite bool_decide_eq_true_2 by (by eexists). }
  rewrite bind_ret, len_eqb_0, bool_decide_eq_false_2 by done.
  unfold ask. rewrite Hdata. run_binds. cbv zeta.
  assert (Rewards.net_items net_index_to_validator
            (Rewards.ideal_by_balance data) (Rewards.actual_by_index data)
          = ret []) as ->.
  { unfold Rewards.net_items.
    rewrite (list_filter_iff _ (has_rewards_rows data)).
    2:{ intros iv. apply has_rows_spec. }
    assert (filter (has_rewards_rows data)
              (map_to_list net_index_to_validator) = []) as ->; [|done].
    destruct (filter _ _) as [|[index validator] l] eqn:Hf; [done|].
    assert ((index, validator)
            ∈ filter (has_rewards_rows data)
                (map_to_list net_index_to_validator)) as Hin
      by (rewrite Hf; left).
    apply list_elem_of_filter in Hin as [Hr Hin].
    apply elem_of_map_to_list in Hin. by destruct (Hrows _ _ Hin). }
  rewrite bind_ret. reflexivity.
Qed.

(** The same scenario, run. *)
Lemma rewards_probe_without_rows_witness :
  Rewards.process_rewards Scenario.quiet_beacon OTHER 2 Scenario.window_42
    Scenario.window_42 Scenario.labels_P Scenario.reg_P
  = mkM [Request (ReqRewards OTHER 0 None)] (Raise ValueError).
Proof.
  apply (rewards_probe_without_rows Scenario.quiet_beacon OTHER 2
           Scenario.window_42 Scenario.window_42 Scenario.labels_P
           Scenario.reg_P {[ 42 := Scenario.validator_P ]}
           {| ideal_rewards := []; total_rewards := [] |}).
  - lia.
  - vm_compute. reflexivity.
  - intros H. apply (f_equal (fun m : IndexToValidator => m !! 42)) in H.
    rewrite lookup_singleton_eq, lookup_empty in H. discriminate.
  - reflexivity.
  - intros index validator _ [H _]. simpl in H. by apply elem_of_nil in H.
Defined.
(** ** The future-proposal probe at the first slot of an epoch *)

Section FutureMore.
Import NextBlocksProposal.

Lemma length_filter_pos {A} (P : A -> Prop) `{!forall x, Decision (P x)}
    (l : list A) :
  (0 <? length (filter P l))%nat = true <-> exists x, x ∈ l /\ P x.
Proof.
  rewrite Nat.ltb_lt. split.
  - destruct (filter P l) as [|x l'] eqn:Hf; [simpl; lia|]. intros _.
    assert (x ∈ filter P l) as Hin by (rewrite Hf; left).
    apply list_elem_of_filter in Hin as [? ?]. by exists x.
  - intros (x & Hx & HP).
    assert (x ∈ filter P l) as Hin by (by apply list_elem_of_filter).
    destruct (filter P l); [by apply elem_of_nil in Hin|simpl; lia].
Qed.

Lemma for_each_print {A} (g : A -> message) (l : list A) :
  for_each (fun x => mkM [Print (g x)] (Ok tt)) l
  = mkM ((fun x => Print (g x)) <$> l) (Ok tt).
Proof. apply (for_each_emit (fun x => Print (g x))). Qed.
End FutureMore.

(** X19: [process_future_blocks_proposal], the two requests for duties having
    succeeded: it publishes the number of upcoming proposals of the
    watched set and, at the first slot processed in an epoch, prints one
    line for each of them.  It then returns that number, unless it gets as
    far as the registration check, whose call passes one argument too
    many: then it ends with [TypeError]. *)
Theorem future_proposals_run (beacon : Beacon) (our_pubkeys : gset string)
    (slot : Z) (is_new_epoch : bool) (relays_urls : list string)
    (relays_http : Http) (our_labels : OurLabels)
    (current next : list ProposerDuty) :
  get_proposer_duties beacon (slot / NB_SLOT_PER_EPOCH) = Ok current ->
  get_proposer_duties beacon (slot / NB_SLOT_PER_EPOCH + 1) = Ok next ->
  let run :=
    NextBlocksProposal.process_future_blocks_proposal beacon our_pubkeys slot
      is_new_epoch relays_urls relays_http our_labels in
  events run
  = duties_report our_pubkeys slot current next
    ++ (if is_new_epoch then proposal_lines our_pubkeys slot current next
        else [])
  /\ (reaches_registration_check our_pubkeys slot is_new_epoch our_labels
        current next ->
      outcome run = Raise TypeError)
  /\ (~ reaches_registration_check our_pubkeys slot is_new_epoch our_labels
          current next ->
      outcome run = Ok (upcoming our_pubkeys slot current next)).
Proof.
  intros Hc Hn run. subst run.
  unfold NextBlocksProposal.process_future_blocks_proposal, ask.
  rewrite Hc, Hn. cbv zeta. run_binds.
  set (filtered :=
         filter (fun item =>
                   duty_pubkey item ∈ our_pubkeys ∧ slot <= duty_slot item)
           (current ++ next)).
  set (in_current :=
         filter (fun item => duty_pubkey item ∈ our_pubkeys) current).
  assert (upcoming our_pubkeys slot current next
          = Z.of_nat (length filtered)) as Hup by reflexivity.
  assert ((0 <? length filtered)%nat = true
          <-> 0 < upcoming our_pubkeys slot current next) as Hpos.
  { rewrite Hup, Nat.ltb_lt. lia. }
  assert ((0 <? length in_current)%nat = true
          <-> exists item, item ∈ current /\ duty_pubkey item ∈ our_pubkeys)
    as Hcur by apply length_filter_pos.
  assert ((0 <? len our_labels) = true <-> len our_labels <> 0) as Hlab.
  { rewrite Z.ltb_lt. unfold len. lia. }
  unfold reaches_registration_check, duties_report, proposal_lines.
  fold filtered. rewrite Hup.
  destruct (0 <? length filtered)%nat eqn:Hf;
    destruct (0 <? len our_labels) eqn:Hl;
    destruct (0 <? length in_current)%nat eqn:Hi;
    destruct is_new_epoch; cbn [andb];
    run_binds;
    rewrite ?(for_each_print
                (fun item =>
                   MsgFutureProposal (short (duty_pubkey item))
                     (duty_slot item) (duty_slot item - slot)));
    run_binds; cbn [app]; rewrite ?app_nil_r;
    (split; [reflexivity|]);
    (split;
     [ intros (Hnew & Hp & Hne & Hex);
       apply Hpos in Hp; apply Hlab in Hne; apply Hcur in Hex;
       first [reflexivity | discriminate]
     | intros Hnot;
       first [ reflexivity
             | exfalso; apply Hnot;
               (split; [done|]); (split; [by apply Hpos|]);
               (split; [by apply Hlab|by apply Hcur]) ] ]).
Qed.

(** At slot 160, the first of epoch 5, with [P] watched, labelled and
    proposing at slot 170: the line is printed and the probe ends with
    [TypeError]. *)
Lemma future_proposals_run_witness :
  NextBlocksProposal.process_future_blocks_proposal
    Edge.beacon_P_proposes {[ Scenario.P ]} 160 true
    [Scenario.flashbots] Scenario.silent Scenario.labels_P
  = mkM [Request (ReqProposerDuties 5); Request (ReqProposerDuties 6);
         GaugeSet NextBlocksProposal.future_block_proposals_count (Qz 1);
         Print (MsgFutureProposal "0xa1b2c3d4" 170 10)]
      (Raise TypeError).
Proof.
  destruct (future_proposals_run Edge.beacon_P_proposes
              {[ Scenario.P ]} 160 true [Scenario.flashbots] Scenario.silent
              Scenario.labels_P [Scenario.duty_P] [])
    as (Hev & Hraise & _); [reflexivity|reflexivity|].
  rewrite <- (M_eta (NextBlocksProposal.process_future_blocks_proposal
                      _ _ _ _ _ _ _)).
  rewrite Hev, Hraise; [vm_compute; reflexivity|].
  split; [done|]. split; [vm_compute; reflexivity|].
  split; [vm_compute; discriminate|].
  exists Scenario.duty_P. split; [left|]. by apply elem_of_singleton.
Defined.

(** X20: whatever its arguments, [process_future_blocks_proposal] never asks a
    relay anything and never prints that a proposer is not registered to
    any relay; it raises nothing but [TypeError] and what a request for
    duties raised. *)
Theorem future_proposals_never_check_registration (beacon : Beacon)
    (our_pubkeys : gset string) (slot : Z) (is_new_epoch : bool)
    (relays_urls : list string) (relays_http : Http)
    (our_labels : OurLabels) :
  let run :=
    NextBlocksProposal.process_future_blocks_proposal beacon our_pubkeys slot
      is_new_epoch relays_urls relays_http our_labels in
  (forall ev, ev ∈ events run ->
     ~ is_relay_request ev /\ ~ is_not_registered_line ev)
  /\ (forall e, outcome run = Raise e ->
        e = TypeError
        \/ exists epoch, get_proposer_duties beacon epoch = Raise e).
Proof.
  intros run. subst run. split.
  - assert (emits (fun ev => ~ is_relay_request ev
                             /\ ~ is_not_registered_line ev)
              (NextBlocksProposal.process_future_blocks_proposal beacon
                 our_pubkeys slot is_new_epoch relays_urls relays_http
                 our_labels)) as Hem.
    { unfold NextBlocksProposal.process_future_blocks_proposal.
      emits_model. }
    intros ev Hin. unfold emits in Hem. rewrite Forall_forall in Hem.
    by apply Hem.
  - assert (raises_only
              (fun e => e = TypeError
                        \/ exists epoch,
                             get_proposer_duties beacon epoch = Raise e)
              (NextBlocksProposal.process_future_blocks_proposal beacon
                 our_pubkeys slot is_new_epoch relays_urls relays_http
                 our_labels)) as Hr.
    { unfold NextBlocksProposal.process_future_blocks_proposal. cbv zeta.
      apply raises_only_bind.
      { apply raises_only_ask. intros e He. right. by eexists. }
      intros current _. apply raises_only_bind.
      { apply raises_only_ask. intros e He. right. by eexists. }
      intros next _. repeat raises_step; by left. }
    intros e He. by apply Hr.
Qed.
(** ** The options of the watcher *)

Section Options.
Import Entrypoint.

Lemma map_M_lift_ok {A B} (g : A -> result B) (l : list A) :
  (forall x, x ∈ l -> exists b, g x = Ok b) ->
  exists l', map_M (fun x => lift (g x) : Run B) l = mkM [] (Ok l').
Proof.
  induction l as [|x l IH]; intros H; [by exists []|].
  destruct (H x) as [b Hb]; [left|].
  destruct IH as [l' Hl']; [intros y Hy; apply H; by right|].
  exists (b :: l'). simpl. rewrite Hb, Hl'. reflexivity.
Qed.

Lemma map_M_lift_raise {A B} (g : A -> result B) (before : list A) (x : A)
    (after : list A) (e : exn) :
  (forall y, y ∈ before -> exists b, g y = Ok b) ->
  g x = Raise e ->
  map_M (fun x => lift (g x) : Run B) (before ++ x :: after)
  = mkM [] (Raise e).
Proof.
  intros H Hx. induction before as [|y before IH]; simpl.
  - by rewrite Hx.
  - destruct (H y) as [b Hb]; [left|]. rewrite Hb, IH; [reflexivity|].
    intros z Hz. apply H. by right.
Qed.
End Options.

(** X21: [_handler] rejects its options before it asks the beacon anything:
    fee recipients without an execution URL, a fee recipient that is not a
    valid address, or a chat channel without its token each end the
    watcher with [BadParameter], with no request made and nothing
    printed. *)
Theorem handler_rejects_bad_options (w : World) (cfg : Config) (n : nat) :
  (fee_recipients cfg <> None /\ execution_url cfg = None)
  \/ invalid_fee_recipient w cfg
  \/ (valid_fee_recipients w cfg
      /\ slack_channel cfg <> None /\ slack_token cfg = None) ->
  Entrypoint._handler w cfg n = mkM [] (Raise BadParameter).
Proof.
  intros Hbad. unfold Entrypoint._handler.
  destruct (bool_decide (fee_recipients cfg <> None)
            && bool_decide (execution_url cfg = None)) eqn:Hfee;
    [reflexivity|].
  destruct Hbad as [[Hf He]|[Hinv|(Hvalid & Hc & Ht)]].
  - rewrite !bool_decide_eq_true_2 in Hfee by done. discriminate.
  - destruct Hinv as (before & fee & after & -> & Hok & Hraise).
    rewrite (map_M_lift_raise _ _ _ _ _ Hok Hraise). reflexivity.
  - unfold valid_fee_recipients in Hvalid.
    destruct (fee_recipients cfg) as [l|].
    + destruct (map_M_lift_ok _ _ Hvalid) as [l' ->].
      run_binds. unfold try_except. cbn [outcome].
      rewrite !bool_decide_eq_true_2 by done. reflexivity.
    + run_binds. rewrite !bool_decide_eq_true_2 by done. reflexivity.
Qed.

(** A chat channel without the [SLACK_TOKEN] variable. *)
Lemma handler_rejects_bad_options_witness :
  Entrypoint._handler (Scenario.quiet_world 384)
    {| execution_url := None; fee_recipients := None;
       slack_channel := Some "alerts"; slack_token := None;
       beacon_type := OTHER; relays_url := []; liveness_file := None |}
    5
  = mkM [] (Raise BadParameter).
Proof.
  apply handler_rejects_bad_options. right. right.
  split; [exact I|]. split; [discriminate|reflexivity].
Defined.

(** ** Slots before genesis *)

(** X22: an iteration at a slot before genesis asks nothing and changes
    nothing: it prints the time left before the start of the chain (a
    positive number of seconds), a quote at the slots that are multiples of
    32, writes the liveness file if there is one, and leaves every
    variable of the loop as it was. *)
Theorem before_genesis_changes_nothing (w : World) (cfg : Config)
    (slack : option Slack) (st : Locals) (idx : nat) (slot : Z) :
  slot < 0 ->
  let run := Entrypoint.iteration w cfg slack st idx slot in
  (forall st', outcome run = Ok st' -> st' = st)
  /\ (forall ev, ev ∈ events run -> before_genesis_event slot ev)
  /\ head (events run) = Some (Print (MsgChainStart (- slot * 12)))
  /\ 0 < - slot * 12.
Proof.
  intros Hslot run. subst run. unfold Entrypoint.iteration.
  assert ((slot <? 0) = true) as -> by lia.
  split; [|split; [|split; [|lia]]].
  - intros st' H. apply bind_ok_inv in H as ([] & _ & H & _).
    by injection H as <-.
  - assert (emits (before_genesis_event slot)
              (Entrypoint.before_genesis w cfg slot;; ret st)) as Hem.
    { unfold Entrypoint.before_genesis. emits_model. }
    intros ev Hin. unfold emits in Hem. rewrite Forall_forall in Hem.
    by apply Hem.
  - destruct (events_bind_prefix (Entrypoint.before_genesis w cfg slot)
                (fun _ => ret st)) as [k ->].
    unfold Entrypoint.before_genesis. unfold emit at 1.
    rewrite bind_mk_ok. reflexivity.
Qed.

(** One slot before genesis, without a liveness file. *)
Lemma before_genesis_changes_nothing_witness :
  head (events (Entrypoint.iteration (Scenario.quiet_world (-12))
                  Scenario.plain None initial_locals 0 (-1)))
  = Some (Print (MsgChainStart 12)).
Proof.
  apply (before_genesis_changes_nothing (Scenario.quiet_world (-12))
           Scenario.plain None initial_locals 0 (-1)).
  lia.
Defined.

(** ** The events of the probes, for any property *)

Section DeepEmits.
Context (P : event -> Prop).
Hypothesis Hreq : forall url slot, P (Request (ReqPayloadDelivered url slot)).
Hypothesis Hsleep : forall seconds, P (SleepSec seconds).

Lemma is_proposer_payload_delivered_emits fuel http url slot n :
  emits P (Relays.is_proposer_payload_delivered_from fuel http url slot n).
Proof.
  revert n. induction fuel as [|fuel IH]; intros n; simpl.
  - emits_model.
  - emits_model. apply IH.
Qed.

Lemma proposer_payload_delivered_emits fuel http url slot n :
  emits P (Relays.proposer_payload_delivered_from fuel http url slot n).
Proof.
  revert n. induction fuel as [|fuel IH]; intros n; simpl.
  - emits_model.
  - emits_model. apply IH.
Qed.

Hypothesis Hinc : forall name labels amount, P (CounterInc name labels amount).
Hypothesis Hprint : forall m, P (Print m).

Lemma relays_process_emits urls http reg slot our_labels :
  emits P (Relays.process urls http reg slot our_labels).
Proof.
  unfold Relays.process, Relays.credit_relay,
    Relays.is_proposer_payload_delivered, Relays.proposer_payload_delivered.
  emits_model.
  - apply any_of_emits. intros url.
    apply is_proposer_payload_delivered_emits.
  - apply proposer_payload_delivered_emits.
Qed.

Hypothesis Hgauge : forall name value, P (GaugeSet name value).
Hypothesis Hslack : forall m, P (SlackSend m).
Hypothesis Hrewards : forall bt epoch indices,
  P (Request (ReqRewards bt epoch indices)).

Lemma process_double_emits dead previous window epoch slack labels reg :
  emits P
    (MissedAttestations.process_double_missed_attestations dead previous
       window epoch slack labels reg).
Proof.
  unfold MissedAttestations.process_double_missed_attestations.
  emits_model.
Qed.

Lemma process_rewards_emits beacon bt epoch net our labels reg :
  emits P (Rewards.process_rewards beacon bt epoch net our labels reg).
Proof.
  unfold Rewards.process_rewards, Rewards.net_items, Rewards.our_items,
    Rewards.item_of, Rewards.unzip_items, Rewards.aggregate,
    Rewards.suboptimal_rate_of, Rewards._validator_counters_update,
    Rewards._validator_summary_counters_update, Rewards._log.
  emits_model.
Qed.

Hypothesis Hliveness : forall bt epoch indices,
  P (Request (ReqValidatorsLiveness bt epoch indices)).
Hypothesis Hduties : forall epoch, P (Request (ReqProposerDuties epoch)).

Lemma process_missed_emits beacon bt window epoch labels reg :
  emits P
    (MissedAttestations.process_missed_attestations beacon bt window epoch
       labels reg).
Proof.
  unfold MissedAttestations.process_missed_attestations. emits_model.
Qed.

Lemma process_future_emits beacon pubkeys slot is_new urls http labels :
  emits P
    (NextBlocksProposal.process_future_blocks_proposal beacon pubkeys slot
       is_new urls http labels).
Proof.
  unfold NextBlocksProposal.process_future_blocks_proposal. emits_model.
Qed.
End DeepEmits.

(** The probes of an iteration, for a property that holds of every event
    a probe can emit. *)
Ltac emits_probe :=
  lazymatch goal with
  | |- emits _ (Relays.process _ _ _ _ _) =>
      apply relays_process_emits; intros; simpl; tauto
  | |- emits _ (MissedAttestations.process_double_missed_attestations
                  _ _ _ _ _ _ _) =>
      apply process_double_emits; intros; simpl; tauto
  | |- emits _ (MissedAttestations.process_missed_attestations _ _ _ _ _ _) =>
      apply process_missed_emits; intros; simpl; tauto
  | |- emits _ (Rewards.process_rewards _ _ _ _ _ _ _) =>
      apply process_rewards_emits; intros; simpl; tauto
  | |- emits _ (NextBlocksProposal.process_future_blocks_proposal
                  _ _ _ _ _ _ _) =>
      apply process_future_emits; intros; simpl; tauto
  end.

Ltac emits_probes :=
  repeat (emits_step || emits_unfold || emits_probe); try tauto.

(** ** The epoch block *)

Section EpochBlock.
Import Entrypoint.

Lemma is_None_or_differs_true x v :
  is_None_or_differs x v = true <-> x <> Some v.
Proof.
  unfold is_None_or_differs. destruct x as [y|]; [|by split].
  rewrite negb_true_iff, Z.eqb_neq. split; congruence.
Qed.

Lemma is_None_or_differs_false x v :
  is_None_or_differs x v = false <-> x = Some v.
Proof.
  unfold is_None_or_differs. destruct x as [y|]; [|by split].
  rewrite negb_false_iff, Z.eqb_eq. split; congruence.
Qed.
End EpochBlock.

(** X23: the epoch block runs exactly when the epoch of the slot is not the one
    the previous iteration left.  An iteration in the same epoch loads
    neither the pubkeys nor the labels, does not ask for the validators,
    creates no metric, and leaves the watched set, the labels, the active
    validators, the two windows and the metric families as they were.  An
    iteration in another epoch (or the first one) starts by loading the
    pubkeys.  An iteration that ends well leaves its epoch behind. *)
Theorem epoch_block_runs_on_change (w : World) (cfg : Config)
    (slack : option Slack) (st : Locals) (idx : nat) (slot : Z) :
  0 <= slot ->
  let epoch := slot / NB_SLOT_PER_EPOCH in
  let run := Entrypoint.iteration w cfg slack st idx slot in
  (previous_epoch st = Some epoch ->
   (forall ev, ev ∈ events run -> ~ is_epoch_block_event ev)
   /\ forall st', outcome run = Ok st' ->
        our_pubkeys st' = our_pubkeys st
        /\ our_labels st' = our_labels st
        /\ our_active_idx2val st' = our_active_idx2val st
        /\ our_epoch2active_idx2val st' = our_epoch2active_idx2val st
        /\ net_epoch2active_idx2val st' = net_epoch2active_idx2val st
        /\ registry st' = registry st)
  /\ (previous_epoch st <> Some epoch ->
      events run !! 2%nat = Some (Probe get_our_pubkeys slot))
  /\ (forall st', outcome run = Ok st' -> previous_epoch st' = Some epoch).
Proof.
  intros Hslot epoch run. subst run.
  assert ((slot <? 0) = false) as Hneg by lia.
  split; [|split].
  - intros Hsame. apply is_None_or_differs_false in Hsame.
    unfold Entrypoint.iteration. rewrite Hneg. cbv zeta. fold epoch.
    rewrite Hsame. split.
    + match goal with |- forall ev, ev ∈ events ?m -> _ =>
        assert (emits (fun ev => ~ is_epoch_block_event ev) m) as Hem
      end.
      { unfold Entrypoint.missed_attestations_step, Entrypoint.rewards_step,
          Entrypoint.block_step.
        emits_probes. }
      intros ev Hin. unfold emits in Hem. rewrite Forall_forall in Hem.
      by apply Hem.
    + intros st' H.
      do 2 apply bind_ok_inv in H as (? & _ & H & _).
      rewrite bind_ret in H.
      apply bind_ok_inv in H as (? & _ & H & _).
      apply bind_ok_inv in H as ([missed last_missed] & _ & H & _).
      do 6 apply bind_ok_inv in H as (? & _ & H & _).
      by injection H as <-.
  - intros Hdiff. apply is_None_or_differs_true in Hdiff.
    unfold Entrypoint.iteration. rewrite Hneg. cbv zeta. fold epoch.
    rewrite Hdiff. unfold emit at 1 2. rewrite !bind_mk_ok. cbn [events app].
    match goal with |- (_ :: _ :: events (bind ?m ?f)) !! _ = _ =>
      destruct (events_bind_prefix m f) as [k ->]
    end.
    unfold Entrypoint.new_epoch.
    match goal with |- (_ :: _ :: events (bind ?m ?f) ++ _) !! _ = _ =>
      destruct (events_bind_prefix m f) as [k' ->]
    end.
    unfold try_except, emit at 1.
    match goal with |- context [bind (mkM ?evs (Ok tt)) ?f] =>
      rewrite (bind_mk_ok evs tt f)
    end.
    cbn [events outcome app].
    destruct (outcome _) as [a|e]; [reflexivity|].
    destruct (Entrypoint.is_ValueError e); reflexivity.
  - intros st' H. unfold Entrypoint.iteration in H. rewrite Hneg in H.
    cbv zeta in H.
    do 4 apply bind_ok_inv in H as (? & _ & H & _).
    apply bind_ok_inv in H as ([missed last_missed] & _ & H & _).
    do 6 apply bind_ok_inv in H as (? & _ & H & _).
    by injection H as <-.
Qed.

(** Slot 33, after slot 32 was processed: the same epoch. *)
Lemma epoch_block_runs_on_change_witness :
  emits (fun ev => ~ is_epoch_block_event ev)
    (Entrypoint.iteration (Scenario.quiet_world 384) Scenario.plain None
       Scenario.after_slot_32 1 33).
Proof.
  destruct (epoch_block_runs_on_change (Scenario.quiet_world 384)
              Scenario.plain None Scenario.after_slot_32 1 33) as [H _];
    [lia|].
  unfold emits. apply Forall_forall. apply H. vm_compute. reflexivity.
Defined.

(** X24: when the loading of the pubkeys or of the labels fails at an epoch
    boundary, the iteration ends there, before any request: with
    [BadParameter] if the failure is a [ValueError], with the exception
    itself otherwise. *)
Theorem loading_failure_ends_iteration (w : World) (cfg : Config)
    (slack : option Slack) (st : Locals) (idx : nat) (slot : Z) (e : exn) :
  0 <= slot ->
  previous_epoch st <> Some (slot / NB_SLOT_PER_EPOCH) ->
  loading_raises w slot e ->
  let run := Entrypoint.iteration w cfg slack st idx slot in
  outcome run = Raise (loading_error e)
  /\ forall ev, ev ∈ events run -> ~ is_request ev.
Proof.
  intros Hslot Hdiff Hload run. subst run.
  apply is_None_or_differs_true in Hdiff.
  unfold Entrypoint.iteration.
  assert ((slot <? 0) = false) as -> by lia.
  cbv zeta. rewrite Hdiff. unfold Entrypoint.new_epoch.
  assert (exists evs,
            try_except
              (emit (Probe get_our_pubkeys slot);;
               do our_pubkeys <- lift (our_pubkeys_at w slot);
               emit (Probe get_our_labels slot);;
               do our_labels <- lift (our_labels_at w slot);
               ret (our_pubkeys, our_labels))
              Entrypoint.is_ValueError (raise BadParameter)
            = mkM evs (Raise (loading_error e))
            /\ Forall (fun ev => ~ is_request ev) evs) as (evs & -> & Hevs).
  { unfold loading_error, try_except.
    destruct Hload as [Hp|[[pubkeys Hp] Hl]]; rewrite Hp, ?Hl; run_binds;
      destruct (Entrypoint.is_ValueError e); cbn [events outcome app];
      eexists; (split; [reflexivity|]);
      repeat (apply Forall_cons; split; [by intros []|]);
      apply Forall_nil_2. }
  run_binds. split; [reflexivity|].
  intros ev Hin. cbn [app] in Hin.
  apply elem_of_cons in Hin as [->|Hin]; [by intros []|].
  apply elem_of_cons in Hin as [->|Hin]; [by intros []|].
  rewrite Forall_forall in Hevs. by apply Hevs.
Qed.

(** An invalid file of pubkeys at the first slot processed. *)
Lemma loading_failure_ends_iteration_witness :
  outcome (Entrypoint.iteration (Edge.invalid_pubkeys_world 384)
             Scenario.plain None initial_locals 0 32)
  = Raise BadParameter.
Proof.
  apply (loading_failure_ends_iteration (Edge.invalid_pubkeys_world 384)
           Scenario.plain None initial_locals 0 32 ValueError).
  - lia.
  - discriminate.
  - by left.
Defined.
(** ** The schedule of the rewards probe *)

Lemma rewards_epochs_app l1 l2 :
  rewards_epochs (l1 ++ l2) = rewards_epochs l1 ++ rewards_epochs l2.
Proof. apply omap_app. Qed.

Lemma rewards_epochs_quiet {A} (m : Run A) :
  emits (fun ev => ~ is_net_rewards_request ev) m ->
  rewards_epochs (events m) = [].
Proof.
  unfold emits. induction (events m) as [|ev l IH]; intros Hall; [done|].
  apply Forall_cons in Hall as [Hev Hl]. specialize (IH Hl).
  unfold rewards_epochs in *.
  destruct ev as [| | | | | | | |[| |? ? []| | | | |]| | | |]; simpl in *;
    tauto || exact IH.
Qed.

Section AskingRewards.
Import Rewards Entrypoint.

Lemma asks_rewards_after_quiet {A B} S (R : B -> Prop) (m : Run A)
    (f : A -> Run B) :
  emits (fun ev => ~ is_net_rewards_request ev) m ->
  (forall a, outcome m = Ok a -> asks_rewards S R (f a)) ->
  asks_rewards S R (bind m f).
Proof.
  intros Hm Hf. unfold asks_rewards, bind.
  destruct (outcome m) as [a|e] eqn:Hout; cbn [events outcome].
  - rewrite rewards_epochs_app, (rewards_epochs_quiet _ Hm).
    apply (Hf a eq_refl).
  - rewrite (rewards_epochs_quiet _ Hm). split; [by left|done].
Qed.

Lemma asks_rewards_then_quiet {A B} S (R' : A -> Prop) (R : B -> Prop)
    (m : Run A) (f : A -> Run B) :
  asks_rewards S R' m ->
  (forall a, R' a ->
     emits (fun ev => ~ is_net_rewards_request ev) (f a)
     /\ forall b, outcome (f a) = Ok b -> R b) ->
  asks_rewards S R (bind m f).
Proof.
  intros [Hm HR'] Hf. unfold asks_rewards, bind.
  destruct (outcome m) as [a|e] eqn:Hout; cbn [events outcome].
  - destruct (Hf a (HR' a eq_refl)) as [Hq HR].
    rewrite rewards_epochs_app, (rewards_epochs_quiet _ Hq), app_nil_r.
    done.
  - split; [done|discriminate].
Qed.

Lemma asks_rewards_ret {A} S (R : A -> Prop) (a : A) :
  R a -> asks_rewards S R (ret a).
Proof. intros HR. split; [by left|]. intros a' Ha. by injection Ha as <-. Qed.

Lemma net_rewards_request_then_quiet {A B} bt epoch (answer : result A)
    (k : A -> Run B) :
  (forall a, emits (fun ev => ~ is_net_rewards_request ev) (k a)) ->
  rewards_epochs (events (bind (ask (ReqRewards bt epoch None) answer) k))
  = [epoch].
Proof.
  intros Hk. destruct answer as [a|e]; [|reflexivity].
  change (rewards_epochs
            ([Request (ReqRewards bt epoch None)] ++ ([] ++ events (k a)))
          = [epoch]).
  by rewrite !rewards_epochs_app, (rewards_epochs_quiet _ (Hk a)).
Qed.

(** One run of the probe asks for the network-wide rewards of the epoch two
    before its own, at most once. *)
Lemma process_rewards_asks beacon bt epoch net our labels reg :
  asks_rewards (fun l => l = [epoch - 2]) (fun _ => True)
    (process_rewards beacon bt epoch net our labels reg).
Proof.
  unfold process_rewards.
  destruct (epoch <? 2); [split; [by left|done]|].
  apply asks_rewards_after_quiet; [emits_model|].
  intros net_index_to_validator _.
  destruct (len net_index_to_validator =? 0); [split; [by left|done]|].
  split; [|done]. right.
  apply net_rewards_request_then_quiet. intros data.
  unfold net_items, our_items, item_of, unzip_items, aggregate,
    suboptimal_rate_of, _validator_counters_update,
    _validator_summary_counters_update, _log.
  emits_model.
Qed.
End AskingRewards.

Section RewardsLoop.
Import Rewards Entrypoint.
Context (w : World) (cfg : Config) (slack : option Slack).

Lemma rewards_condition (x : option Z) (v : Z) :
  bool_decide (x = None) || bool_decide (x <> Some v)
  = is_None_or_differs x v.
Proof.
  unfold is_None_or_differs. destruct x as [y|].
  - destruct (Z.eqb_spec y v) as [->|Hne]; repeat case_bool_decide;
      simpl; congruence.
  - repeat case_bool_decide; simpl; congruence.
Qed.

Lemma rewards_step_asks st b slot :
  0 <= slot ->
  asks_rewards
    (fun l => rewards_due st slot = true
              /\ l = [slot / NB_SLOT_PER_EPOCH - 2])
    (fun x => x = rewards_recorded st slot)
    (rewards_step w cfg st b slot).
Proof.
  intros Hslot. unfold rewards_step, rewards_recorded, rewards_due.
  assert ((0 <=? slot) = true) as -> by lia. cbn [andb]. cbv zeta.
  rewrite rewards_condition.
  destruct (_ && _) eqn:Hdue.
  - apply asks_rewards_then_quiet with (R' := fun _ => True).
    + destruct (process_rewards_asks (beacon_at w slot) (beacon_type cfg)
                  (slot / NB_SLOT_PER_EPOCH) (b_net_epoch2active_idx2val b)
                  (b_our_epoch2active_idx2val b) (b_our_labels b)
                  (b_registry b)) as [[Hl|Hl] HR].
      * split; [by left|done].
      * split; [by right|done].
    + intros _ _. split; [emits_model|].
      intros x Hx. by injection Hx as <-.
  - by apply asks_rewards_ret.
Qed.

Lemma new_epoch_no_rewards st slot epoch :
  emits (fun ev => ~ is_net_rewards_request ev)
    (new_epoch w cfg st slot epoch).
Proof.
  unfold new_epoch,
    MissedAttestations.init_missed_attestations_per_validator_counters,
    Relays.init_relays_per_validator_counters,
    init_rewards_per_validator_counters.
  emits_model.
Qed.

Lemma block_step_no_rewards b slot :
  emits (fun ev => ~ is_net_rewards_request ev) (block_step w cfg b slot).
Proof. unfold block_step. emits_probes. Qed.

Lemma missed_step_no_rewards st b slot :
  emits (fun ev => ~ is_net_rewards_request ev)
    (missed_attestations_step w cfg slack st b slot).
Proof. unfold missed_attestations_step. emits_probes. Qed.

(** An iteration asks for network-wide rewards only when the probe is due,
    at most once, and for the epoch two before its own; and it records
    its epoch exactly then. *)
Lemma iteration_asks_rewards st idx slot :
  asks_rewards
    (fun l => rewards_due st slot = true
              /\ l = [slot / NB_SLOT_PER_EPOCH - 2])
    (fun st' => last_rewards_process_epoch st' = rewards_recorded st slot)
    (iteration w cfg slack st idx slot).
Proof.
  unfold iteration. destruct (slot <? 0) eqn:Hneg.
  - apply asks_rewards_after_quiet.
    { unfold before_genesis. emits_model. }
    intros _ _. apply asks_rewards_ret. unfold rewards_recorded, rewards_due.
    by assert ((0 <=? slot) = false) as -> by lia.
  - assert (0 <= slot) as Hslot by lia. cbv zeta.
    apply asks_rewards_after_quiet; [emits_model|intros _ _].
    apply asks_rewards_after_quiet; [emits_model|intros _ _].
    apply asks_rewards_after_quiet.
    { destruct (is_None_or_differs _ _);
        [apply new_epoch_no_rewards|apply emits_ret]. }
    intros b _.
    apply asks_rewards_after_quiet; [emits_model|intros _ _].
    apply asks_rewards_after_quiet; [apply missed_step_no_rewards|].
    intros [missed last_missed] _.
    apply asks_rewards_then_quiet
      with (R' := fun x => x = rewards_recorded st slot);
      [by apply rewards_step_asks|].
    intros last_rewards ->. split.
    + apply emits_bind; [emits_probe|intros _ _].
      apply emits_bind; [emits_model|intros _ _].
      apply emits_bind; [apply block_step_no_rewards|intros _ _].
      emits_model.
    + intros st' H.
      do 5 apply bind_ok_inv in H as (? & _ & H & _).
      by injection H as <-.
Qed.
End RewardsLoop.

Section RewardsOncePerEpoch.
Import Rewards Entrypoint.
Context (w : World) (cfg : Config) (slack : option Slack).

Lemma rewards_settled_mono st trace slot slot' :
  slot <= slot' -> rewards_settled st trace slot ->
  rewards_settled st trace slot'.
Proof.
  intros Hle [Hnd Hlast]. split; [done|].
  destruct (last_rewards_process_epoch st) as [e|]; [|done].
  destruct Hlast as [He Hx]. split; [|done].
  assert (slot / NB_SLOT_PER_EPOCH <= slot' / NB_SLOT_PER_EPOCH)
    by (apply Z.div_le_mono; unfold NB_SLOT_PER_EPOCH; lia).
  lia.
Qed.

Lemma rewards_settled_step st trace idx slot :
  rewards_settled st trace slot ->
  NoDup (rewards_epochs
           (trace ++ events (iteration w cfg slack st idx slot)))
  /\ forall st',
       outcome (iteration w cfg slack st idx slot) = Ok st' ->
       rewards_settled st'
         (trace ++ events (iteration w cfg slack st idx slot)) slot.
Proof.
  intros [Hnd Hlast].
  destruct (iteration_asks_rewards w cfg slack st idx slot) as [Hasks Hrec].
  unfold rewards_settled. rewrite rewards_epochs_app.
  destruct Hasks as [Hnone|[Hdue Hone]].
  - rewrite Hnone, app_nil_r. split; [done|].
    intros st' Hout. split; [done|]. rewrite (Hrec st' Hout).
    unfold rewards_recorded. destruct (rewards_due st slot) eqn:Hdue.
    + split; [done|]. intros x Hx.
      destruct (last_rewards_process_epoch st) as [e|].
      * destruct Hlast as [Hle Hlt]. specialize (Hlt x Hx). lia.
      * rewrite Hlast in Hx. by apply elem_of_nil in Hx.
    + destruct (last_rewards_process_epoch st) as [e|]; done.
  - rewrite Hone.
    assert (forall x, x ∈ rewards_epochs trace ->
                      x < slot / NB_SLOT_PER_EPOCH - 2) as Hold.
    { intros x Hx. unfold rewards_due in Hdue.
      apply andb_true_iff in Hdue as [_ Hdiff].
      destruct (last_rewards_process_epoch st) as [e|].
      - destruct Hlast as [Hle Hlt]. specialize (Hlt x Hx).
        simpl in Hdiff. apply negb_true_iff, Z.eqb_neq in Hdiff. lia.
      - rewrite Hlast in Hx. by apply elem_of_nil in Hx. }
    assert (NoDup (rewards_epochs trace ++ [slot / NB_SLOT_PER_EPOCH - 2]))
      as Hnd'.
    { apply NoDup_app. split; [done|]. split; [|apply NoDup_singleton].
      intros x Hx Hx'. apply list_elem_of_singleton in Hx'.
      specialize (Hold x Hx). lia. }
    split; [done|]. intros st' Hout. split; [done|].
    rewrite (Hrec st' Hout). unfold rewards_recorded. rewrite Hdue.
    split; [done|]. intros x Hx. apply elem_of_app in Hx as [Hx|Hx].
    + specialize (Hold x Hx). lia.
    + apply list_elem_of_singleton in Hx. lia.
Qed.

(** Over slots that never go back, no epoch has its rewards asked for
    twice. *)
Lemma loop_asks_rewards_once its : forall lower st trace,
  StronglySorted Z.le (lower :: its.*2) ->
  rewards_settled st trace lower ->
  NoDup (rewards_epochs (trace ++ events (loop w cfg slack its st))).
Proof.
  induction its as [|[idx slot] its IH]; intros lower st trace Hsorted Hs.
  - simpl. rewrite app_nil_r. apply Hs.
  - rewrite fmap_cons in Hsorted. cbn [snd] in Hsorted.
    apply StronglySorted_inv in Hsorted as [Hsorted Hlower].
    apply Forall_cons in Hlower as [Hle _].
    apply (rewards_settled_mono _ _ _ slot Hle) in Hs.
    destruct (rewards_settled_step st trace idx slot Hs) as [Hnd Hnext].
    unfold loop in *. simpl. unfold bind.
    destruct (outcome (iteration w cfg slack st idx slot))
      as [st'|e] eqn:Hout; cbn [events].
    + rewrite app_assoc. apply (IH slot); [done|by apply Hnext].
    + done.
Qed.
End RewardsOncePerEpoch.

(** X25: the rewards probe runs at most once per epoch, at a slot of the epoch
    with [slot_in_epoch >= 16], and always for the epoch two before: over
    slots that never go back, starting with no epoch processed, no epoch
    has its network-wide rewards asked for twice (so that the totals of an
    epoch are counted once); an iteration at an earlier slot of its epoch
    asks for none, and an iteration asks for the rewards of no other epoch
    than [epoch - 2]. *)
Theorem rewards_once_per_epoch (w : World) (cfg : Config)
    (slack : option Slack) (its : list (nat * Z)) (st : Locals) (idx : nat)
    (slot : Z) :
  (StronglySorted Z.le its.*2 ->
   last_rewards_process_epoch st = None ->
   NoDup (rewards_epochs (events (Entrypoint.loop w cfg slack its st))))
  /\ (slot mod NB_SLOT_PER_EPOCH < SLOT_FOR_REWARDS_PROCESS ->
      rewards_epochs (events (Entrypoint.iteration w cfg slack st idx slot))
      = [])
  /\ (forall epoch,
        epoch
        ∈ rewards_epochs (events (Entrypoint.iteration w cfg slack st idx slot))
        -> epoch = slot / NB_SLOT_PER_EPOCH - 2).
Proof.
  split; [|split].
  - intros Hsorted Hnone.
    match goal with |- NoDup (rewards_epochs ?t) =>
      change (NoDup (rewards_epochs ([] ++ t)))
    end.
    destruct its as [|[idx0 slot0] its'].
    + simpl. apply NoDup_nil_2.
    + apply (loop_asks_rewards_once w cfg slack _ slot0).
      * rewrite fmap_cons. cbn [snd]. rewrite fmap_cons in Hsorted.
        cbn [snd] in Hsorted. apply SSorted_cons; [done|].
        apply Forall_cons. split; [lia|].
        by apply StronglySorted_inv in Hsorted as [_ ?].
      * split; [apply NoDup_nil_2|]. by rewrite Hnone.
  - intros Hearly.
    destruct (iteration_asks_rewards w cfg slack st idx slot)
      as [[Hnone|[Hdue _]] _]; [done|].
    unfold rewards_due in Hdue.
    apply andb_true_iff in Hdue as [Hdue _].
    apply andb_true_iff in Hdue as [_ Hlate]. lia.
  - intros epoch Hin.
    destruct (iteration_asks_rewards w cfg slack st idx slot)
      as [[Hnone|[_ Hone]] _].
    + rewrite Hnone in Hin. by apply elem_of_nil in Hin.
    + rewrite Hone in Hin. by apply list_elem_of_singleton in Hin.
Qed.

(** Slots 48 and 49 of epoch 1, then slot 80 of epoch 2. *)
Lemma rewards_once_per_epoch_witness :
  NoDup (rewards_epochs
           (events (Entrypoint.loop (Scenario.quiet_world 384) Scenario.plain
                      None [(0%nat, 48); (1%nat, 49); (2%nat, 80)]
                      initial_locals))).
Proof.
  destruct (rewards_once_per_epoch (Scenario.quiet_world 384) Scenario.plain
              None [(0%nat, 48); (1%nat, 49); (2%nat, 80)] initial_locals
              0 48) as [H _].
  apply H; [|reflexivity].
  repeat (constructor; try (simpl; lia)).
Defined.
(** ** The start of the metrics server *)

Section ServerStartOnce.
Import Entrypoint.

Lemma filter_bind_quiet {E A B} (P : E -> Prop) `{!forall x, Decision (P x)}
    (m : M E A) (f : A -> M E B) :
  emits (fun ev => ~ P ev) m ->
  filter P (events (bind m f))
  = match outcome m with
    | Ok a => filter P (events (f a))
    | Raise _ => []
    end.
Proof.
  intros Hm. rewrite filter_events_bind, (filter_events_nil _ _ Hm).
  by destruct (outcome m).
Qed.

(** The server is started by the iteration of index 0 at most, at the very
    end of a slot that is not before genesis, on port 8000. *)
Lemma iteration_server_events w cfg slack st idx slot :
  filter is_start_http_server (events (iteration w cfg slack st idx slot))
  = []
  \/ (idx = 0%nat /\ 0 <= slot
      /\ filter is_start_http_server
           (events (iteration w cfg slack st idx slot))
         = [StartHttpServer 8000]).
Proof.
  destruct (decide (idx <> 0%nat \/ slot < 0)) as [Hno|Hyes].
  { left. apply filter_events_nil. by apply iteration_no_server. }
  assert (idx = 0%nat /\ 0 <= slot) as [-> Hslot] by lia.
  unfold iteration. assert ((slot <? 0) = false) as -> by lia. cbv zeta.
  repeat
    (try match goal with |- context [let (_, _) := ?p in _] =>
           destruct p
         end;
     rewrite filter_bind_quiet;
     [ match goal with |- context [match outcome ?m with _ => _ end] =>
         destruct (outcome m) as [?|?]; [|by left]
       end
     | first [ by emits_model
             | destruct (is_None_or_differs _ _);
               [ apply (emits_impl ordinary _ _ ordinary_not_server),
                   new_epoch_ordinary
               | apply emits_ret ]
             | unfold missed_attestations_step;
               by (emits_blocks ordinary_not_server;
                   apply process_missed_no_server)
             | apply (emits_impl ordinary _ _ ordinary_not_server),
                 rewards_step_ordinary
             | apply future_proposal_no_server
             | apply (emits_impl ordinary _ _ ordinary_not_server),
                 block_step_ordinary
             | by emits_blocks ordinary_not_server ] ]).
  right. split; [done|]. split; [done|]. reflexivity.
Qed.
End ServerStartOnce.

(** X26: the metrics server is started at most once over the iterations of
    the loop, whatever the slots and the state it starts from, and on port
    8000; if it is started, the first slot of all was not before genesis
    (it is the last thing the iteration of index 0 does, when its slot is
    processed to the end). *)
Theorem metrics_server_started_once (w : World) (cfg : Config)
    (slack : option Slack) (slot_list : list Z) (st : Locals) :
  let run := Entrypoint.loop w cfg slack (enumerate slot_list) st in
  (length (filter is_start_http_server (events run)) <= 1)%nat
  /\ forall port,
       StartHttpServer port ∈ events run ->
       port = 8000
       /\ exists first, head slot_list = Some first /\ 0 <= first.
Proof.
  intros run.
  assert (filter is_start_http_server (events run) = []
          \/ (filter is_start_http_server (events run)
              = [StartHttpServer 8000]
              /\ exists first, head slot_list = Some first /\ 0 <= first))
    as Hcases.
  { subst run. destruct slot_list as [|first rest]; [by left|].
    unfold enumerate, Entrypoint.loop.
    cbn [length seq zip zip_with for_fold].
    rewrite filter_events_bind.
    assert (forall st',
              filter is_start_http_server
                (events (for_fold
                           (fun st (it : nat * Z) =>
                              Entrypoint.iteration w cfg slack st it.1 it.2)
                           (zip (seq 1 (length rest)) rest)
                           st')) = []) as Hrest.
    { intros st'. apply filter_events_nil, emits_for_fold_in.
      intros s [idx slot] Hin. apply iteration_no_server. left.
      apply elem_of_zip_l in Hin. apply elem_of_seq in Hin. simpl. lia. }
    destruct (iteration_server_events w cfg slack st 0 first)
      as [Hnone|(_ & Hfirst & Hone)].
    - left. cbn [fst snd]. rewrite Hnone.
      destruct (outcome _); [apply Hrest|done].
    - right. cbn [fst snd]. rewrite Hone. split.
      + destruct (outcome _); [by rewrite Hrest|done].
      + by exists first. }
  split.
  - destruct Hcases as [->|[-> _]]; simpl; lia.
  - intros port Hin.
    assert (StartHttpServer port
            ∈ filter is_start_http_server (events run)) as Hf
      by (by apply list_elem_of_filter).
    destruct Hcases as [Hnone|[Hone Hg]].
    + rewrite Hnone in Hf. by apply elem_of_nil in Hf.
    + rewrite Hone in Hf. apply list_elem_of_singleton in Hf.
      by injection Hf as ->.
Qed.
(** ** What the epoch block leaves *)

Section EpochBlockResult.
Import Entrypoint.



End EpochBlockResult.


